(** * Fuzzy scoring and ranking utilities: a shallow embedding

    The development embeds the pure scoring engine of the repository
    (the module exporting [applyDelphiTechnique], [applyHardCriteriaFilter],
    [calculateFuzzyScore], the membership functions, the similarity metrics,
    [applyWSM] and [rankCandidates]) and states the properties of its
    specification against it.

    Numbers.  A JavaScript number is modelled as an exact rational, extended
    with the three non-finite values that exact arithmetic can still produce
    (a division by zero gives an infinity or NaN).  Rounding, overflow and
    the sign of zero are not modelled there.  Two numbers are compared with
    [≡], which is [Qeq] on finite values.  A property that is stated in
    exact arithmetic says so; the others involve comparisons only, or hold
    of the rounded results as well.

    Where rounding or overflow decides what the code returns, the functions
    concerned are embedded a second time in [Binary64], over the Standard
    Library's specification of IEEE 754 binary64 arithmetic. *)

From Stdlib Require Import QArith Qabs Qminmax Lqa Lia Ascii String.
From Stdlib Require Import Sorting.Permutation Sorting.Sorted.
From Stdlib Require SpecFloat.
From stdpp Require Import gmap strings list.

Open Scope Q_scope.

(** ** Numbers *)

Inductive number : Type :=
  | Fin (q : Q)
  | PInf
  | NInf
  | NaN.

Coercion Fin : Q >-> number.

Module Num.

(** Sign of a rational, as a [comparison] with zero. *)
Definition sgn (q : Q) : comparison := q ?= 0.

Definition neg (x : number) : number :=
  match x with
  | Fin q => Fin (- q)
  | PInf => NInf
  | NInf => PInf
  | NaN => NaN
  end.

Definition add (x y : number) : number :=
  match x, y with
  | NaN, _ | _, NaN => NaN
  | Fin a, Fin b => Fin (a + b)
  | PInf, NInf | NInf, PInf => NaN
  | PInf, _ | _, PInf => PInf
  | NInf, _ | _, NInf => NInf
  end.

Definition sub (x y : number) : number := add x (neg y).

(** An infinity scaled by a finite factor: the sign of the factor decides,
    and a zero factor gives NaN. *)
Definition scale_inf (positive : bool) (q : Q) : number :=
  match sgn q with
  | Gt => if positive then PInf else NInf
  | Lt => if positive then NInf else PInf
  | Eq => NaN
  end.

Definition mul (x y : number) : number :=
  match x, y with
  | NaN, _ | _, NaN => NaN
  | Fin a, Fin b => Fin (a * b)
  | PInf, Fin q | Fin q, PInf => scale_inf true q
  | NInf, Fin q | Fin q, NInf => scale_inf false q
  | PInf, PInf | NInf, NInf => PInf
  | PInf, NInf | NInf, PInf => NInf
  end.

(** Division.  A finite dividend over zero gives an infinity of the sign of
    the dividend, and [0 / 0] is NaN. *)
Definition div (x y : number) : number :=
  match x, y with
  | NaN, _ | _, NaN => NaN
  | Fin a, Fin b =>
      if Qeq_bool b 0 then
        match sgn a with Gt => PInf | Lt => NInf | Eq => NaN end
      else Fin (a / b)
  | Fin _, (PInf | NInf) => Fin 0
  | PInf, Fin q => match sgn q with Lt => NInf | _ => PInf end
  | NInf, Fin q => match sgn q with Lt => PInf | _ => NInf end
  | (PInf | NInf), (PInf | NInf) => NaN
  end.

(** [x < y]; every comparison with NaN is false. *)
Definition ltb (x y : number) : bool :=
  match x, y with
  | NaN, _ | _, NaN => false
  | Fin a, Fin b => negb (Qle_bool b a)
  | NInf, (Fin _ | PInf) => true
  | Fin _, PInf => true
  | _, _ => false
  end.

(** [x <= y]. *)
Definition leb (x y : number) : bool :=
  match x, y with
  | NaN, _ | _, NaN => false
  | Fin a, Fin b => Qle_bool a b
  | NInf, _ => true
  | _, PInf => true
  | _, _ => false
  end.

Definition gtb (x y : number) : bool := ltb y x.
Definition geb (x y : number) : bool := leb y x.

(** [x === y] on numbers. *)
Definition eqb (x y : number) : bool :=
  match x, y with
  | Fin a, Fin b => Qeq_bool a b
  | PInf, PInf | NInf, NInf => true
  | _, _ => false
  end.

(** [Math.abs]. *)
Definition abs (x : number) : number :=
  match x with
  | Fin q => Fin (Qabs q)
  | PInf | NInf => PInf
  | NaN => NaN
  end.

(** [Math.max] of two arguments: NaN if either is NaN. *)
Definition max (x y : number) : number :=
  match x, y with
  | NaN, _ | _, NaN => NaN
  | _, _ => if ltb x y then y else x
  end.

(** [Math.min] of two arguments. *)
Definition min (x y : number) : number :=
  match x, y with
  | NaN, _ | _, NaN => NaN
  | _, _ => if ltb y x then y else x
  end.

(** Truthiness of a number: [0] and NaN are falsy. *)
Definition truthy (x : number) : bool :=
  match x with
  | Fin q => negb (Qeq_bool q 0)
  | PInf | NInf => true
  | NaN => false
  end.

(** A length or an index as a number. *)
Definition of_nat (n : nat) : number := Fin (inject_Z (Z.of_nat n)).

(** [Math.pow x n] for a literal natural exponent. *)
Fixpoint pow (x : number) (n : nat) : number :=
  match n with
  | O => Fin 1
  | S m => mul x (pow x m)
  end.

(** Equality of numbers up to the representation of the rational. *)
Definition eq (x y : number) : Prop :=
  match x, y with
  | Fin a, Fin b => a == b
  | PInf, PInf | NInf, NInf | NaN, NaN => True
  | _, _ => False
  end.

Definition finite (x : number) : Prop :=
  match x with Fin _ => True | _ => False end.

End Num.

Declare Scope num_scope.
Delimit Scope num_scope with num.
Bind Scope num_scope with number.
Infix "+" := Num.add : num_scope.
Infix "-" := Num.sub : num_scope.
Infix "*" := Num.mul : num_scope.
Infix "/" := Num.div : num_scope.
Notation "- x" := (Num.neg x) : num_scope.
Infix "<?" := Num.ltb : num_scope.
Infix "<=?" := Num.leb : num_scope.
Infix ">?" := Num.gtb (at level 70) : num_scope.
Infix ">=?" := Num.geb (at level 70) : num_scope.
Infix "=?" := Num.eqb : num_scope.

#[global] Instance number_equiv : Equiv number := Num.eq.

#[global] Instance number_equivalence : Equivalence (≡@{number}).
Proof.
  split.
  - intros []; simpl; try exact I. unfold equiv, number_equiv. simpl. reflexivity.
  - intros [] []; unfold equiv, number_equiv; simpl; try tauto. intros H; symmetry; exact H.
  - intros [] [] []; unfold equiv, number_equiv; simpl; try tauto.
    intros H1 H2. rewrite H1. exact H2.
Qed.

(** ** Values, objects and the heap

    Objects and arrays are heap cells addressed by a location, so that
    identity ([===] on objects) and in-place updates are those of the source.
    An object is its map of own properties. *)

Abbreviation loc := nat.

Inductive value : Type :=
  | VUndefined
  | VNull
  | VBool (b : bool)
  | VNum (n : number)
  | VStr (s : string)
  | VRef (l : loc).

Inductive cell : Type :=
  | Obj (props : gmap string value)
  | Arr (elems : list value).

Abbreviation heap := (gmap loc cell).

(** The outcome of a call: a returned value or a thrown error. *)
Inductive completion (A : Type) : Type :=
  | Normal (v : A)
  | Throw (msg : string).
Arguments Normal {A} v.
Arguments Throw {A} msg.

(** [Array.isArray v], with the elements when it holds. *)
Definition as_array (h : heap) (v : value) : option (list value) :=
  match v with
  | VRef l => match h !! l with
              | Some (Arr es) => Some es
              | _ => None
              end
  | _ => None
  end.

(** [a === b]. *)
Definition strict_eq (a b : value) : bool :=
  match a, b with
  | VUndefined, VUndefined => true
  | VNull, VNull => true
  | VBool x, VBool y => Bool.eqb x y
  | VNum x, VNum y => (x =? y)%num
  | VStr s, VStr t => String.eqb s t
  | VRef l, VRef m => Nat.eqb l m
  | _, _ => false
  end.

(** Truthiness, as [||] tests it. *)
Definition truthy (v : value) : bool :=
  match v with
  | VUndefined | VNull => false
  | VBool b => b
  | VNum n => Num.truthy n
  | VStr s => negb (String.eqb s EmptyString)
  | VRef _ => true
  end.

(** ** Membership functions *)

Definition triangularMF (x a b c : number) : completion number :=
  if (x <=? a)%num then Normal (Fin 0)
  else if (x >? a)%num && (x <=? b)%num then Normal ((x - a) / (b - a))%num
  else if (x >? b)%num && (x <=? c)%num then Normal ((c - x) / (c - b))%num
  else Normal (Fin 0).

Definition trapezoidalMF (x a b c d : number) : completion number :=
  if (x <=? a)%num then Normal (Fin 0)
  else if (x >? a)%num && (x <=? b)%num then Normal ((x - a) / (b - a))%num
  else if (x >? b)%num && (x <=? c)%num then Normal (Fin 1)
  else if (x >? c)%num && (x <=? d)%num then Normal ((d - x) / (d - c))%num
  else Normal (Fin 0).

(** ** Plain objects

    An object literal inherits the members of [Object.prototype].  Reading
    [o[key]] on a plain object therefore finds a value also when [o] has no
    own entry [key] but [key] names such a member: a function, or for
    [__proto__] the prototype object.  Such a value is not [undefined] and
    is truthy; every arithmetic operator and every comparison with a number
    converts it to NaN, and [+=] with it makes the accumulator a text that
    the division which follows converts to NaN.  In the arithmetic of the
    engine it is therefore modelled as NaN. *)
Definition objectPrototypeMembers : list string :=
  ["constructor"; "hasOwnProperty"; "isPrototypeOf"; "propertyIsEnumerable";
   "toLocaleString"; "toString"; "valueOf"; "__proto__"; "__defineGetter__";
   "__defineSetter__"; "__lookupGetter__"; "__lookupSetter__"]%string.

(** [key] names a member that every plain object inherits. *)
Definition inherited (key : string) : bool :=
  existsb (String.eqb key) objectPrototypeMembers.

(** A property name is an array index when it is the canonical decimal text
    of an integer below [2^32 - 1]. *)
Definition digitValue (c : ascii) : option N :=
  let n := N_of_ascii c in
  if ((48 <=? n) && (n <=? 57))%N then Some (n - 48)%N else None.

Fixpoint decimalValue (s : string) (acc : N) : option N :=
  match s with
  | EmptyString => Some acc
  | String c s' =>
      match digitValue c with
      | Some d => decimalValue s' (10 * acc + d)%N
      | None => None
      end
  end.

Definition arrayIndex (key : string) : option N :=
  match key with
  | EmptyString => None
  | String c rest =>
      if Ascii.eqb c "0" && negb (String.eqb rest EmptyString) then None
      else match decimalValue key 0%N with
           | Some n => if (n <? 4294967295)%N then Some n else None
           | None => None
           end
  end.

(** Insertion of an array index into a list of indices in ascending order. *)
Fixpoint insertIndex (key : string) (sorted : list string) : list string :=
  match sorted with
  | [] => [key]
  | other :: rest =>
      if (default 0%N (arrayIndex key) <=? default 0%N (arrayIndex other))%N
      then key :: sorted
      else other :: insertIndex key rest
  end.

(** [Object.keys] of an object literal on which the properties [created]
    were created by assignment, in that order: the array indices in
    ascending order, then the other names in the order of their creation.
    An assignment to [__proto__] creates no property. *)
Definition ownKeys (created : list string) : list string :=
  let names := List.filter (fun key => negb (String.eqb key "__proto__")) created in
  foldr insertIndex []
        (List.filter (fun key => bool_decide (is_Some (arrayIndex key))) names)
  ++ List.filter (fun key => negb (bool_decide (is_Some (arrayIndex key)))) names.

(** An object used as a dictionary from names to numbers and enumerated with
    [Object.keys] or [Object.entries]: its entries in enumeration order,
    which is the order of insertion for keys that are not array indices. *)
Abbreviation dict := (list (string * number)).

(** ** The engine

    The functions below use five services of the language runtime that are
    not part of the repository; they are parameters of the development:
    [Math.exp]; [String.prototype.toLowerCase]; [String.prototype.trim]; the
    conversion of a string or an object to a number (the part of [ToNumber]
    that parses text or calls into the object); and [<] on two operands that
    are not both numbers.  A string is a sequence of character codes. *)

Section Engine.

Variable Math_exp : number -> number.
Variable toLowerCase : string -> string.
Variable trim : string -> string.
Variable ToNumber_other : heap -> value -> number.
Variable lessThan_other : heap -> value -> value -> bool.

Definition gaussianMF (x mean sigma : number) : completion number :=
  Normal (Math_exp (Fin (-(1#2)) * Num.pow ((x - mean) / sigma) 2))%num.

(** *** String similarity *)

(** One cell of the edit-distance matrix: the minimum of deletion,
    insertion and substitution. *)
Definition lev_cell (up left diag : nat) (cost : nat) : nat :=
  Nat.min (Nat.min (up + 1) (left + 1)) (diag + cost).

(** Cells [1 ..] of row [i], from row [i-1] ([prev], starting at the cell
    above-left) and the cell to the left. *)
Fixpoint lev_fill (c1 : ascii) (s2 : list ascii) (prev : list nat) (left : nat)
  : list nat :=
  match s2, prev with
  | c2 :: s2', diag :: ((up :: _) as prev') =>
      let cost := if Ascii.eqb c1 c2 then 0%nat else 1%nat in
      let v := lev_cell up left diag cost in
      v :: lev_fill c1 s2' prev' v
  | _, _ => []
  end.

(** Rows [1 ..] of the matrix; [i] is the index of the row being filled and
    [prev] the row above.  Returns the last row. *)
Fixpoint lev_rows (s1 s2 : list ascii) (i : nat) (prev : list nat) : list nat :=
  match s1 with
  | [] => prev
  | c1 :: s1' => lev_rows s1' s2 (S i) (i :: lev_fill c1 s2 prev i)
  end.

(** [matrix[s1.length][s2.length]]. *)
Definition levenshtein (s1 s2 : list ascii) : nat :=
  List.last (lev_rows s1 s2 1 (seq 0 (S (length s2)))) 0%nat.

Definition calculateStringSimilarity (str1 str2 : string) : number :=
  let s1 := trim (toLowerCase str1) in
  let s2 := trim (toLowerCase str2) in
  if (String.length s1 =? 0)%nat && (String.length s2 =? 0)%nat then Fin 1
  else if (String.length s1 =? 0)%nat || (String.length s2 =? 0)%nat then Fin 0
  else if String.eqb s1 s2 then Fin 1
  else
    let maxLength := Nat.max (String.length s1) (String.length s2) in
    (Fin 1 - Num.of_nat (levenshtein (list_ascii_of_string s1)
                                     (list_ascii_of_string s2))
             / Num.of_nat maxLength)%num.

(** *** Array similarity *)

Record options : Type := {
  caseSensitive : bool;
  partial : bool;
  threshold : number
}.

(** The defaults of the destructured [options] argument. *)
Definition default_options : options :=
  {| caseSensitive := false; partial := true; threshold := Fin (7#10) |}.

(** Similarity of one source item with one target item. *)
Definition itemSimilarity (cs : bool) (s t : value) : number :=
  match s, t with
  | VStr a, VStr b =>
      calculateStringSimilarity (if cs then a else toLowerCase a)
                                (if cs then b else toLowerCase b)
  | VNum a, VNum b =>
      let maxDiff := Num.max (Num.abs a) (Num.abs b) in
      let diff := Num.abs (a - b)%num in
      if (maxDiff =? Fin 0)%num then Fin 1
      else Num.max (Fin 0) (Fin 1 - diff / maxDiff)%num
  | _, _ => if strict_eq s t then Fin 1 else Fin 0
  end.

Definition similarityMatrix (cs : bool) (source target : list value)
  : list (list number) :=
  map (fun s => map (fun t => itemSimilarity cs s t) target) source.

(** [row[j]]; an index out of range reads [undefined], which behaves as NaN
    in the comparisons and sums that follow. *)
Definition cell_at (row : list number) (j : nat) : number := nth j row NaN.

(** The rows the greedy pass works on. *)
Definition primaryArray (processLargerFirst : bool) (target : list value)
    (matrix : list (list number)) : list (list number) :=
  if processLargerFirst then matrix
  else map (fun row => imap (fun j _ => cell_at row j) target) matrix.

(** The inner loop over [j]: the first column with the largest score above
    the starting bound, if any. *)
Fixpoint bestMatch (row : list number) (j : nat)
    (bestMatchIdx : option nat) (bestMatchScore : number)
  : option nat * number :=
  match row with
  | [] => (bestMatchIdx, bestMatchScore)
  | x :: row' =>
      if (x >? bestMatchScore)%num then bestMatch row' (S j) (Some j) x
      else bestMatch row' (S j) bestMatchIdx bestMatchScore
  end.

Record matching : Type := {
  rows : list (list number);
  totalSimilarity : number;
  matchCount : nat
}.

(** [primaryArray[k].splice(idx, 1)] for every row long enough. *)
Definition removeColumn (idx : nat) (rs : list (list number))
  : list (list number) :=
  map (fun r => if (idx <? length r)%nat then delete idx r else r) rs.

(** One iteration of the outer loop, for row [i]. *)
Definition matchRow (thr : number) (st : matching) (i : nat) : matching :=
  match nth i (rows st) [] with
  | [] => st
  | row =>
      match bestMatch row 0 None (thr - Fin (1#100))%num with
      | (Some idx, score) =>
          {| rows := removeColumn idx (rows st);
             totalSimilarity := (totalSimilarity st + score)%num;
             matchCount := S (matchCount st) |}
      | (None, _) => st
      end
  end.

Definition greedyMatch (thr : number) (primary : list (list number)) : matching :=
  fold_left (matchRow thr)
            (seq 0 (length primary))
            {| rows := primary; totalSimilarity := Fin 0; matchCount := 0 |}.

Definition calculateArraySimilarity (h : heap) (sourceArray targetArray : value)
    (opts : options) : number :=
  match as_array h sourceArray, as_array h targetArray with
  | Some source, Some target =>
      if (length source =? 0)%nat && (length target =? 0)%nat then Fin 1
      else if (length source =? 0)%nat || (length target =? 0)%nat then Fin 0
      else
        let matrix := similarityMatrix (caseSensitive opts) source target in
        let processLargerFirst := (length target <? length source)%nat in
        let st := greedyMatch (threshold opts)
                    (primaryArray processLargerFirst target matrix) in
        let maxPossibleMatches := Nat.min (length source) (length target) in
        if (maxPossibleMatches =? 0)%nat then Fin 0
        else
          let matchQuality :=
            if (0 <? matchCount st)%nat
            then (totalSimilarity st / Num.of_nat (matchCount st))%num
            else Fin 0 in
          let coverage :=
            (Num.of_nat (matchCount st) / Num.of_nat maxPossibleMatches)%num in
          (matchQuality * Fin (2#5) + coverage * Fin (3#5))%num
  | _, _ => Fin 0
  end.

(** *** Fuzzy score *)

Definition default_fuzzyFactor : number := Fin (1#5).

Definition calculateFuzzyScore (h : heap) (v targetValue : value)
    (fuzzyFactor : number) (membershipType : string) : completion number :=
  match v, targetValue with
  | VUndefined, _ | VNull, _ => Normal (Fin 0)
  | VNum x, VNum target =>
      if String.eqb membershipType "triangular" then
        let a := (target * (Fin 1 - fuzzyFactor))%num in
        let b := target in
        let c := (target * (Fin 1 + fuzzyFactor))%num in
        triangularMF x a b c
      else if String.eqb membershipType "trapezoidal" then
        let a2 := (target * (Fin 1 - fuzzyFactor))%num in
        let b2 := (target * (Fin 1 - fuzzyFactor / Fin 2))%num in
        let c2 := (target * (Fin 1 + fuzzyFactor / Fin 2))%num in
        let d2 := (target * (Fin 1 + fuzzyFactor))%num in
        trapezoidalMF x a2 b2 c2 d2
      else if String.eqb membershipType "gaussian" then
        let mean := target in
        let sigma := (target * fuzzyFactor)%num in
        gaussianMF x mean sigma
      else
        let maxDiff := Num.max (target * fuzzyFactor)%num (Fin 1) in
        let actualDiff := Num.abs (x - target)%num in
        Normal (Num.max (Fin 0) (Fin 1 - actualDiff / maxDiff)%num)
  | VStr s, VStr t => Normal (calculateStringSimilarity s t)
  | VBool _, VBool _ =>
      Normal (if strict_eq v targetValue then Fin 1 else Fin 0)
  | _, _ =>
      match as_array h v, as_array h targetValue with
      | Some _, Some _ =>
          Normal (calculateArraySimilarity h v targetValue default_options)
      | _, _ => Normal (if strict_eq v targetValue then Fin 1 else Fin 0)
      end
  end.

(** *** Sorting

    [Array.prototype.sort] with a comparator is modelled as a stable
    insertion sort: an element moves past a neighbour only when the
    comparator returns a number greater than zero (a NaN result counts as
    zero).  For a comparator that is not a consistent order the language
    leaves the result to the engine; the model then fixes this one. *)

Fixpoint sort_insert {A : Type} (cmp : A -> A -> number) (x : A) (l : list A)
  : list A :=
  match l with
  | [] => [x]
  | y :: l' => if (cmp x y >? Fin 0)%num then y :: sort_insert cmp x l'
               else x :: l
  end.

Definition js_sort {A : Type} (cmp : A -> A -> number) (l : list A) : list A :=
  foldr (sort_insert cmp) [] l.

(** [reduce((sum, w) => sum + w, 0)]. *)
Definition sum (l : list number) : number :=
  fold_left (fun acc w => (acc + w)%num) l (Fin 0).

(** *** Weight consensus *)

Definition calculateMedian (arr : list number) : number :=
  let sorted := js_sort (fun a b => (a - b)%num) arr in
  let mid := (length sorted / 2)%nat in
  if (length sorted mod 2 =? 0)%nat
  then ((cell_at sorted (mid - 1) + cell_at sorted mid) / Fin 2)%num
  else cell_at sorted mid.

Definition default_fuzzyThreshold : number := Fin (1#5).

Definition removeFuzzyOutliers (values : list number) (fuzzyThreshold : number)
  : list number :=
  if (length values <=? 2)%nat then values
  else
    let sorted := js_sort (fun a b => (a - b)%num) values in
    let mid := (length sorted / 2)%nat in
    let medianValue :=
      if (length sorted mod 2 =? 0)%nat
      then ((cell_at sorted (mid - 1) + cell_at sorted mid) / Fin 2)%num
      else cell_at sorted mid in
    let deviations := map (fun v => Num.abs (v - medianValue)%num) sorted in
    let mad := calculateMedian deviations in
    List.filter (fun v =>
              let deviation := Num.abs (v - medianValue)%num in
              if (mad =? Fin 0)%num then (v =? medianValue)%num
              else
                let normalMembership :=
                  Num.max (Fin 0)
                    (Fin 1 - deviation / (fuzzyThreshold * mad * Fin (7413#5000)))%num in
                (normalMembership >? Fin (1#2))%num)
           values.

(** [o[key]]. *)
Fixpoint dict_get (o : dict) (key : string) : option number :=
  match o with
  | [] => None
  | (k, w) :: o' => if String.eqb k key then Some w else dict_get o' key
  end.

(** [allCriteria.add(key)] on an insertion-ordered set. *)
Definition set_add (acc : list string) (key : string) : list string :=
  if existsb (String.eqb key) acc then acc else acc ++ [key].

Definition allCriteria (initialWeights : list dict) : list string :=
  fold_left (fun acc hrWeights => fold_left set_add (map fst hrWeights) acc)
            initialWeights [].

(** The proposals for one criterion: the truthy entries, in evaluator order.
    An evaluator without an own entry proposes the inherited member when
    the criterion names one. *)
Definition proposalsFor (initialWeights : list dict) (criterion : string)
  : list number :=
  omap (fun hrWeights =>
          match dict_get hrWeights criterion with
          | Some w => if Num.truthy w then Some w else None
          | None => if inherited criterion then Some NaN else None
          end)
       initialWeights.

(** The object [weightsByAttribute], as its entries in the order of
    [Object.keys]. *)
Definition weightsByAttribute (initialWeights : list dict)
  : list (string * list number) :=
  map (fun criterion => (criterion, proposalsFor initialWeights criterion))
      (ownKeys (allCriteria initialWeights)).

(** The aggregated weight of each criterion, before normalisation. *)
Definition aggregateWeights (byAttribute : list (string * list number)) : dict :=
  map (fun '(criterion, weights) =>
         let filteredWeights := removeFuzzyOutliers weights default_fuzzyThreshold in
         (criterion, (sum filteredWeights / Num.of_nat (length filteredWeights))%num))
      byAttribute.

Definition normalizeWeights (finalWeights : dict) : dict :=
  let totalWeight := sum (map snd finalWeights) in
  if (totalWeight >? Fin 0)%num
  then map (fun '(key, w) => (key, (w / totalWeight)%num)) finalWeights
  else finalWeights.

Definition applyDelphiTechnique (initialWeights : list dict) : dict :=
  normalizeWeights (aggregateWeights (weightsByAttribute initialWeights)).

(** *** Weighted sum model *)

Record scoreResult : Type := {
  score : number;
  confidence : number
}.

(** [confidenceScores[key] || 1.0]: an inherited member is truthy and is
    kept. *)
Definition confidenceFor (confidenceScores : gmap string number) (key : string)
  : number :=
  match confidenceScores !! key with
  | Some c => if Num.truthy c then c else Fin 1
  | None => if inherited key then NaN else Fin 1
  end.

Record wsmState : Type := {
  wsm_score : number;
  wsm_totalWeight : number;
  wsm_totalConfidence : number
}.

(** [attributes[key]] when it is not [undefined]: an own entry, or the
    member the object inherits under that name. *)
Definition definedAttribute (attributes : gmap string number) (key : string)
  : option number :=
  match attributes !! key with
  | Some attributeValue => Some attributeValue
  | None => if inherited key then Some NaN else None
  end.

(** The body of the loop over [Object.entries(weights)]. *)
Definition wsmStep (attributes confidenceScores : gmap string number)
    (st : wsmState) (entry : string * number) : wsmState :=
  let '(key, weight) := entry in
  match definedAttribute attributes key with
  | Some attributeValue =>
      let confidence := confidenceFor confidenceScores key in
      let adjustedWeight := (weight * confidence)%num in
      {| wsm_score := (wsm_score st + attributeValue * adjustedWeight)%num;
         wsm_totalWeight := (wsm_totalWeight st + adjustedWeight)%num;
         wsm_totalConfidence := (wsm_totalConfidence st + confidence)%num |}
  | None => st
  end.

Definition applyWSM (attributes : gmap string number) (weights : dict)
    (confidenceScores : gmap string number) : scoreResult :=
  let st := fold_left (wsmStep attributes confidenceScores) weights
              {| wsm_score := Fin 0; wsm_totalWeight := Fin 0;
                 wsm_totalConfidence := Fin 0 |} in
  {| score := if (wsm_totalWeight st >? Fin 0)%num
              then (wsm_score st / wsm_totalWeight st)%num else Fin 0;
     confidence := if (0 <? length weights)%nat
                   then (wsm_totalConfidence st / Num.of_nat (length weights))%num
                   else Fin 1 |}.

(** *** Hard criteria filter *)

(** A candidate document: its [attributes] map and its other properties. *)
Record candidate : Type := {
  attributes : gmap string value;
  fields : gmap string value
}.

(** The body of the loop over [Object.entries(criteria)]: [false] when the
    loop returns [false] at this entry, [true] when it goes on. *)
Definition checkCriterion (h : heap) (c : candidate)
    (thresholdTolerance : number) (entry : string * value) : bool :=
  let '(key, threshold) := entry in
  match attributes c !! key with
  | None | Some VUndefined => false
  | Some candidateValue =>
      match candidateValue, threshold with
      | VNum v, VNum t =>
          let fuzzyThreshold := (t * (Fin 1 - thresholdTolerance))%num in
          negb (v <? fuzzyThreshold)%num
      | _, _ => negb (lessThan_other h candidateValue threshold)
      end
  end.

Definition default_thresholdTolerance : number := Fin (1#10).

Definition applyHardCriteriaFilter (h : heap) (candidates : list candidate)
    (criteria : list (string * value)) (thresholdTolerance : number)
  : list candidate :=
  List.filter (fun c => forallb (checkCriterion h c thresholdTolerance) criteria)
              candidates.

(** *** Ranking *)

(** [o[key]] on the own properties of an object. *)
Definition getProp (props : gmap string value) (key : string) : value :=
  default VUndefined (props !! key).

(** [v || d]. *)
Definition orElse (v d : value) : value := if truthy v then v else d.

(** The operand of an arithmetic operator, as a number. *)
Definition ToNumber (h : heap) (v : value) : number :=
  match v with
  | VNum n => n
  | VUndefined => NaN
  | VNull => Fin 0
  | VBool b => if b then Fin 1 else Fin 0
  | VStr _ | VRef _ => ToNumber_other h v
  end.

(** The object literal built for one candidate:
    [{...candidate, finalScore: .., confidenceScore: ..}]. *)
Definition copyCandidate (props : gmap string value) : gmap string value :=
  <["confidenceScore" := orElse (getProp props "confidence") (VNum (Fin 1))]>
    (<["finalScore" := orElse (getProp props "finalScore") (VNum (Fin 0))]> props).

(** Allocation of a new cell at an unused location. *)
Definition alloc (h : heap) (c : cell) : heap * loc :=
  let l := fresh (dom h) in (<[l := c]> h, l).

(** [candidates.map(..)]: one new object per element.  The result is [None]
    when an element is not a reference to an object, which the model does
    not cover. *)
Fixpoint copyAll (h : heap) (vs : list value) : option (heap * list loc) :=
  match vs with
  | [] => Some (h, [])
  | VRef l :: vs' =>
      match h !! l with
      | Some (Obj props) =>
          let '(h1, l1) := alloc h (Obj (copyCandidate props)) in
          match copyAll h1 vs' with
          | Some (h2, ls) => Some (h2, l1 :: ls)
          | None => None
          end
      | _ => None
      end
  | _ :: _ => None
  end.

(** The property [key] of the object at [l], as an arithmetic operand. *)
Definition numProp (h : heap) (l : loc) (key : string) : number :=
  match h !! l with
  | Some (Obj props) => ToNumber h (getProp props key)
  | _ => NaN
  end.

(** The comparator passed to [sort]. *)
Definition compareCandidates (h : heap) (a b : loc) : number :=
  if (Num.abs (numProp h b "finalScore" - numProp h a "finalScore")
      <? Fin (1#20))%num
  then (numProp h b "confidenceScore" - numProp h a "confidenceScore")%num
  else (numProp h b "finalScore" - numProp h a "finalScore")%num.

(** The body of the [forEach]: sets [percentile] and [rank] on the object. *)
Definition annotate (n : nat) (h : heap) (entry : nat * loc) : heap :=
  let '(index, l) := entry in
  match h !! l with
  | Some (Obj props) =>
      <[l := Obj (<["rank" := VNum (Num.of_nat index + Fin 1)%num]>
                   (<["percentile" :=
                        VNum (Fin 100 * (Fin 1 - Num.of_nat index / Num.of_nat n))%num]>
                      props))]> h
  | _ => h
  end.

(** [rankCandidates(candidates)]: the heap after the call and the returned
    array. *)
Definition rankCandidates (h : heap) (candidates : value) : option (heap * value) :=
  match as_array h candidates with
  | None => None
  | Some vs =>
      match copyAll h vs with
      | None => None
      | Some (h1, ls) =>
          let '(h2, rankedCandidates) := alloc h1 (Arr (VRef <$> ls)) in
          let sorted := js_sort (compareCandidates h2) ls in
          let h3 := <[rankedCandidates := Arr (VRef <$> sorted)]> h2 in
          let h4 := fold_left (annotate (length sorted))
                              (zip (seq 0 (length sorted)) sorted) h3 in
          Some (h4, VRef rankedCandidates)
      end
  end.

End Engine.

(** ** More of the engine: stage aggregation, alpha cut and OWA *)

(** [stageWeights[stage]] when it is truthy: an own weight that is neither
    zero nor NaN, or the member the object inherits under that name. *)
Definition truthyWeight (stageWeights : gmap string number) (stage : string)
  : option number :=
  match stageWeights !! stage with
  | Some weight => if Num.truthy weight then Some weight else None
  | None => if inherited stage then Some NaN else None
  end.

(** The body of the loop over [Object.entries(stageScores)]: a stage counts
    when [stageWeights[stage]] is truthy. *)
Definition stageStep (stageWeights stageConfidences : gmap string number)
    (st : wsmState) (entry : string * number) : wsmState :=
  let '(stage, stageScore) := entry in
  match truthyWeight stageWeights stage with
  | Some weight =>
      let confidence := confidenceFor stageConfidences stage in
      let adjustedWeight := (weight * confidence)%num in
      {| wsm_score := (wsm_score st + stageScore * adjustedWeight)%num;
         wsm_totalWeight := (wsm_totalWeight st + adjustedWeight)%num;
         wsm_totalConfidence := (wsm_totalConfidence st + confidence)%num |}
  | None => st
  end.

Definition aggregateStageScores (stageScores : dict)
    (stageWeights stageConfidences : gmap string number) : scoreResult :=
  let st := fold_left (stageStep stageWeights stageConfidences) stageScores
              {| wsm_score := Fin 0; wsm_totalWeight := Fin 0;
                 wsm_totalConfidence := Fin 0 |} in
  {| score := if (wsm_totalWeight st >? Fin 0)%num
              then (wsm_score st / wsm_totalWeight st)%num else Fin 0;
     confidence := if (0 <? size stageWeights)%nat
                   then (wsm_totalConfidence st / Num.of_nat (size stageWeights))%num
                   else Fin 1 |}.

Definition default_alphaCutThreshold : number := Fin (1#2).

(** [applyAlphaCut]: the entries of [attributes] whose confidence reaches the
    threshold, in their order.  An entry is kept by the assignment
    [filteredAttributes[key] = value], which creates no entry under the name
    [__proto__]: there the assignment reaches the prototype setter of the
    new object. *)
Definition applyAlphaCut {A : Type} (attributes : list (string * A))
    (confidenceScores : gmap string number) (alphaCutThreshold : number)
  : list (string * A) :=
  List.filter (fun entry =>
                 (confidenceFor confidenceScores (fst entry) >=? alphaCutThreshold)%num
                 && negb (String.eqb (fst entry) "__proto__"))
              attributes.

(** [weights[key] || 0]: an inherited member is truthy and is kept. *)
Definition weightOrZero (weights : gmap string number) (key : string) : number :=
  match weights !! key with
  | Some w => if Num.truthy w then w else Fin 0
  | None => if inherited key then NaN else Fin 0
  end.

Record owaState : Type := {
  owa_score : number;
  owa_totalAppliedWeight : number
}.

(** The body of the [forEach] over the sorted pairs. *)
Definition owaStep (weights : gmap string number) (owaWeights : list number)
    (st : owaState) (item : nat * (string * number)) : owaState :=
  let '(index, (key, v)) := item in
  let criterionWeight := weightOrZero weights key in
  let owaWeight := if (index <? length owaWeights)%nat
                   then cell_at owaWeights index else Fin 0 in
  {| owa_score := (owa_score st + v * criterionWeight * owaWeight)%num;
     owa_totalAppliedWeight :=
       (owa_totalAppliedWeight st + criterionWeight * owaWeight)%num |}.

Definition applyOWA (attributes : dict) (weights : gmap string number)
    (owaWeights : list number) : number :=
  let sortedPairs := js_sort (fun a b => (snd b - snd a)%num) attributes in
  let st := fold_left (owaStep weights owaWeights)
                      (zip (seq 0 (length sortedPairs)) sortedPairs)
                      {| owa_score := Fin 0; owa_totalAppliedWeight := Fin 0 |} in
  if (owa_totalAppliedWeight st >? Fin 0)%num
  then (owa_score st / owa_totalAppliedWeight st)%num else Fin 0.

(** The OWA weights the final-score route prepares for a strategy profile
    and a number of stages, before and after its normalisation. *)
Definition owaStrategyWeights (strategyProfile : string) (stageCount : nat)
  : list number :=
  let n := Num.of_nat stageCount in
  if String.eqb strategyProfile "optimistic" then
    map (fun i => ((n - Num.of_nat i) / ((n * (n + Fin 1)) / Fin 2))%num)
        (seq 0 stageCount)
  else if String.eqb strategyProfile "pessimistic" then
    map (fun i => ((Num.of_nat i + Fin 1) / ((n * (n + Fin 1)) / Fin 2))%num)
        (seq 0 stageCount)
  else replicate stageCount (Fin 1 / n)%num.

Definition normalizeOwaWeights (owaWeights : list number) : list number :=
  let totalOwaWeight := sum owaWeights in
  if negb (totalOwaWeight =? Fin 1)%num
  then map (fun w => (w / totalOwaWeight)%num) owaWeights
  else owaWeights.

Definition prepareOwaWeights (strategyProfile : string)
    (customOwaWeights : option (list number)) (stageCount : nat) : list number :=
  normalizeOwaWeights
    (match customOwaWeights with
     | Some custom =>
         if String.eqb strategyProfile "custom" then custom
         else owaStrategyWeights strategyProfile stageCount
     | None => owaStrategyWeights strategyProfile stageCount
     end).

(** * The engine in binary64 arithmetic

    The source computes in IEEE 754 binary64: every result is rounded to the
    nearest representable number and a result too large becomes an infinity.
    The functions below are embedded line by line as above, over
    [SpecFloat] at precision 53 and maximal exponent 1024. *)

Module Binary64.

Abbreviation float := SpecFloat.spec_float.

Definition prec : Z := 53%Z.
Definition emax : Z := 1024%Z.

Definition add : float -> float -> float := SpecFloat.SFadd prec emax.
Definition sub : float -> float -> float := SpecFloat.SFsub prec emax.
Definition mul : float -> float -> float := SpecFloat.SFmul prec emax.
Definition div : float -> float -> float := SpecFloat.SFdiv prec emax.
Definition opp : float -> float := SpecFloat.SFopp.
Definition ltb : float -> float -> bool := SpecFloat.SFltb.
Definition leb : float -> float -> bool := SpecFloat.SFleb.
Definition gtb (x y : float) : bool := ltb y x.

Definition nan : float := SpecFloat.S754_nan.
Definition infinity : float := SpecFloat.S754_infinity false.

(** An integer as a number, rounded when it has more than 53 bits. *)
Definition of_Z (z : Z) : float := SpecFloat.binary_normalize prec emax z 0%Z false.

(** The decimal literal [m * 10^e].  With a negative exponent it is the
    quotient of two integers, which is the nearest number when both are
    represented exactly ([m] below [2^53] and [e] at least [-22]). *)
Definition decimal (m e : Z) : float :=
  match e with
  | Zneg p => div (of_Z m) (of_Z (10 ^ Zpos p)%Z)
  | _ => of_Z (m * 10 ^ e)%Z
  end.

(** Truthiness of a number: both zeros and NaN are falsy. *)
Definition truthy (x : float) : bool :=
  match x with
  | SpecFloat.S754_zero _ | SpecFloat.S754_nan => false
  | _ => true
  end.

Definition triangularMF (x a b c : float) : completion float :=
  if leb x a then Normal (of_Z 0)
  else if gtb x a && leb x b then Normal (div (sub x a) (sub b a))
  else if gtb x b && leb x c then Normal (div (sub c x) (sub c b))
  else Normal (of_Z 0).

Definition trapezoidalMF (x a b c d : float) : completion float :=
  if leb x a then Normal (of_Z 0)
  else if gtb x a && leb x b then Normal (div (sub x a) (sub b a))
  else if gtb x b && leb x c then Normal (of_Z 1)
  else if gtb x c && leb x d then Normal (div (sub d x) (sub d c))
  else Normal (of_Z 0).

(** The numeric branch of the check of one criterion in
    [applyHardCriteriaFilter]: [false] when the candidate is excluded. *)
Definition checkNumeric (candidateValue threshold thresholdTolerance : float)
  : bool :=
  let fuzzyThreshold := mul threshold (sub (of_Z 1) thresholdTolerance) in
  negb (ltb candidateValue fuzzyThreshold).

Record scoreResult : Type := {
  score : float;
  confidence : float
}.

(** [confidenceScores[key] || 1.0]. *)
Definition confidenceFor (confidenceScores : gmap string float) (key : string)
  : float :=
  match confidenceScores !! key with
  | Some c => if truthy c then c else of_Z 1
  | None => if inherited key then nan else of_Z 1
  end.

Definition definedAttribute (attributes : gmap string float) (key : string)
  : option float :=
  match attributes !! key with
  | Some attributeValue => Some attributeValue
  | None => if inherited key then Some nan else None
  end.

Record wsmState : Type := {
  wsm_score : float;
  wsm_totalWeight : float;
  wsm_totalConfidence : float
}.

Definition wsmStep (attributes confidenceScores : gmap string float)
    (st : wsmState) (entry : string * float) : wsmState :=
  let '(key, weight) := entry in
  match definedAttribute attributes key with
  | Some attributeValue =>
      let confidence := confidenceFor confidenceScores key in
      let adjustedWeight := mul weight confidence in
      {| wsm_score := add (wsm_score st) (mul attributeValue adjustedWeight);
         wsm_totalWeight := add (wsm_totalWeight st) adjustedWeight;
         wsm_totalConfidence := add (wsm_totalConfidence st) confidence |}
  | None => st
  end.

Definition applyWSM (attributes : gmap string float)
    (weights : list (string * float)) (confidenceScores : gmap string float)
  : scoreResult :=
  let st := fold_left (wsmStep attributes confidenceScores) weights
              {| wsm_score := of_Z 0; wsm_totalWeight := of_Z 0;
                 wsm_totalConfidence := of_Z 0 |} in
  {| score := if gtb (wsm_totalWeight st) (of_Z 0)
              then div (wsm_score st) (wsm_totalWeight st) else of_Z 0;
     confidence := if (0 <? length weights)%nat
                   then div (wsm_totalConfidence st)
                            (of_Z (Z.of_nat (length weights)))
                   else of_Z 1 |}.

(** A weight map with every weight multiplied by [k]. *)
Definition scaleWeights (k : float) (weights : list (string * float))
  : list (string * float) :=
  map (fun entry => (fst entry, mul (snd entry) k)) weights.

End Binary64.

(** * Statements of the specification

    Definitions that follow the words of the specification, to be compared
    with the embedded code. *)

(** The mean of the per-criterion confidences over all declared weight
    keys, as the specification words the confidence of the weighted sum. *)
Definition declaredMeanConfidence (weights : dict)
    (confidenceScores : gmap string number) : number :=
  (sum (map (fun entry => confidenceFor confidenceScores (fst entry)) weights)
   / Num.of_nat (length weights))%num.

(** The confidences the loop of the weighted sum adds up: those of the
    declared keys whose attribute is present. *)
Definition matchedConfidences (attributes : gmap string number) (weights : dict)
    (confidenceScores : gmap string number) : list number :=
  map (fun entry => confidenceFor confidenceScores (fst entry))
      (List.filter (fun entry => bool_decide (is_Some (attributes !! fst entry)))
                   weights).

(** A weight map with every weight multiplied by [k]. *)
Definition scaleWeights (k : number) (weights : dict) : dict :=
  map (fun entry => (fst entry, (snd entry * k)%num)) weights.

(** * Observations and scenarios *)

(** The elements of the array [v] in the heap [h]. *)
Definition elementsOf (h : heap) (v : value) : list value :=
  default [] (as_array h v).

(** The property [key] of the object [v] in the heap [h]. *)
Definition propOf (h : heap) (v : value) (key : string) : value :=
  match v with
  | VRef l => match h !! l with
              | Some (Obj props) => getProp props key
              | _ => VUndefined
              end
  | _ => VUndefined
  end.

(** The numeric property [key] of the object [v]. *)
Definition numberOf (h : heap) (v : value) (key : string) : number :=
  match propOf h v key with
  | VNum n => n
  | _ => NaN
  end.

(** Four evaluators proposing [0.5, 0.5, 0.5, 0.9] for the one criterion. *)
Definition proposals_one_criterion : list dict :=
  [ [("experience"%string, Fin (1#2))];
    [("experience"%string, Fin (1#2))];
    [("experience"%string, Fin (1#2))];
    [("experience"%string, Fin (9#10))] ].

(** The same proposals next to a second criterion. *)
Definition proposals_two_criteria : list dict :=
  [ [("experience"%string, Fin (1#2)); ("skills"%string, Fin (3#10))];
    [("experience"%string, Fin (1#2)); ("skills"%string, Fin (3#10))];
    [("experience"%string, Fin (1#2))];
    [("experience"%string, Fin (9#10))] ].

(** The two candidates of the ranking scenario, with the score stored under
    [scoreKey], in an array at location 0. *)
Definition ranking_scenario (scoreKey : string) : heap :=
  {[ 0%nat := Arr [VRef 1; VRef 2];
     1%nat := Obj {[ "id"%string := VNum (Fin 1);
                     scoreKey := VNum (Fin (85#100));
                     "confidence"%string := VNum (Fin (9#10)) ]};
     2%nat := Obj {[ "id"%string := VNum (Fin 2);
                     scoreKey := VNum (Fin (83#100));
                     "confidence"%string := VNum (Fin (95#100)) ]} ]}.

(** An entry of a candidate list: a reference to an object of the heap. *)
Definition isCandidate (h : heap) (v : value) : Prop :=
  exists l props, v = VRef l /\ h !! l = Some (Obj props).

(** The properties the ranker sets on its entries. *)
Definition rankerKeys : list string :=
  ["finalScore"; "confidenceScore"; "percentile"; "rank"]%string.

(** The object at [out] in [h'] is a copy of the entry [v] of [h]: a new
    object with the properties of the entry, apart from the four the ranker
    sets, of which the score and the confidence score are those of the
    entry or their defaults. *)
Definition entryCopies (h h' : heap) (out : loc) (v : value) : Prop :=
  (out ∉ dom h) /\
  exists l props props',
    v = VRef l /\ h !! l = Some (Obj props) /\
    h' !! out = Some (Obj props') /\
    (forall key, key ∉ rankerKeys -> props' !! key = props !! key) /\
    props' !! "finalScore"%string
      = Some (orElse (getProp props "finalScore") (VNum (Fin 0))) /\
    props' !! "confidenceScore"%string
      = Some (orElse (getProp props "confidence") (VNum (Fin 1))).

(** The cell [c'] is the cell [c] up to the two properties the ranker's
    last pass writes. *)
Definition annotated (c c' : cell) : Prop :=
  match c, c' with
  | Obj props, Obj props' =>
      forall key, key <> "rank"%string -> key <> "percentile"%string ->
                  props' !! key = props !! key
  | Arr es, Arr es' => es = es'
  | _, _ => False
  end.

(** A value that is not a non-finite number. *)
Definition finiteValue (v : value) : Prop :=
  match v with
  | VNum n => Num.finite n
  | _ => True
  end.

(** A similarity score that does not exceed one. *)
Definition atMostOne (x : number) : Prop := (x >? Fin 1)%num = false.

(** The runtime's string services on ASCII text, to run the scenarios. *)
Definition ascii_lower (c : ascii) : ascii :=
  let n := nat_of_ascii c in
  if (65 <=? n)%nat && (n <=? 90)%nat then ascii_of_nat (n + 32) else c.

Fixpoint ascii_toLowerCase (s : string) : string :=
  match s with
  | EmptyString => EmptyString
  | String c s' => String (ascii_lower c) (ascii_toLowerCase s')
  end.

Definition ascii_space (c : ascii) : bool :=
  let n := nat_of_ascii c in
  (n =? 32)%nat || ((9 <=? n)%nat && (n <=? 13)%nat).

Fixpoint trim_start (s : list ascii) : list ascii :=
  match s with
  | c :: s' => if ascii_space c then trim_start s' else s
  | [] => []
  end.

Definition ascii_trim (s : string) : string :=
  string_of_list_ascii
    (rev (trim_start (rev (trim_start (list_ascii_of_string s))))).

(** An array of mixed items at location 0, and an array holding NaN at
    location 1. *)
Definition arrays_scenario : heap :=
  {[ 0%nat := Arr [VStr "React"; VNum (Fin (5#2)); VBool true; VStr "node js"; VRef 0];
     1%nat := Arr [VNum NaN] ]}.

(** Every cell [t] of the row is at most [max i (k + t)]: the bound of the
    cell of row [i] and column [k + t] of the edit-distance matrix. *)
Definition cellsBounded (i k : nat) (row : list nat) : Prop :=
  forall t v, row !! t = Some v -> (v <= Nat.max i (k + t))%nat.

(** A similarity score: a finite number of the unit interval. *)
Definition unitScore (x : number) : Prop :=
  exists q, x = Fin q /\ 0 <= q <= 1.

(** The state of the greedy pass after [i] rows of a matrix with [m]
    columns: at most one match per row and per column, every row shortened
    by the matched columns, and a total of at most one per match. *)
Definition greedyInvariant (m i : nat) (st : matching) : Prop :=
  (matchCount st <= i)%nat /\ (matchCount st <= m)%nat /\
  Forall (fun r => length r = (m - matchCount st)%nat) (rows st) /\
  Forall (Forall unitScore) (rows st) /\
  exists total, totalSimilarity st = Fin total /\
                0 <= total <= inject_Z (Z.of_nat (matchCount st)).

(** A finite number of the interval [[lo, hi]]. *)
Definition within (lo hi : Q) (x : number) : Prop :=
  exists q, x = Fin q /\ lo <= q <= hi.

(** A finite number that is not negative. *)
Definition nonNegative (x : number) : Prop :=
  exists q, x = Fin q /\ 0 <= q.



(** The rational a finite number stands for. *)
Definition rationalOf (x : number) : Q :=
  match x with
  | Fin q => q
  | _ => 0
  end.

(** The exact total of a list of finite numbers. *)
Definition exactTotal (l : list number) : Q :=
  foldr (fun x acc => rationalOf x + acc) 0 l.

(** The sum of [f i] over the indices [i] of a list. *)
Definition sumOver (f : nat -> Q) (l : list nat) : Q :=
  foldr (fun i acc => f i + acc) 0 l.

(** A natural number as a rational. *)
Definition natQ (n : nat) : Q := inject_Z (Z.of_nat n).

(** A threshold that, when numeric, is finite and not negative. *)
Definition nonNegativeThreshold (threshold : value) : Prop :=
  match threshold with
  | VNum n => nonNegative n
  | _ => True
  end.

(** Two candidates whose scores are further apart than the tie window, the
    lower one first. *)
Definition spread_scenario : heap :=
  {[ 0%nat := Arr [VRef 1; VRef 2];
     1%nat := Obj {[ "id"%string := VNum (Fin 1);
                     "finalScore"%string := VNum (Fin (5#10));
                     "confidence"%string := VNum (Fin (9#10)) ]};
     2%nat := Obj {[ "id"%string := VNum (Fin 2);
                     "finalScore"%string := VNum (Fin (9#10));
                     "confidence"%string := VNum (Fin (2#10)) ]} ]}.

(** A magnitude that binary64 still holds: a sum or a difference of at most
    this size does not overflow. *)
Definition maxSpan : Q := inject_Z (10 ^ 308).

(** The total confidence after [n] entries of confidences within [[0,1]]:
    at most one per entry. *)
Definition confidenceTotalBound (n : nat) (st : wsmState) : Prop :=
  exists C, wsm_totalConfidence st = Fin C /\ 0 <= C <= natQ n.

(** A step that binary64 still resolves: a product of two factors of at
    least this magnitude does not underflow to zero. *)
Definition minStep : Q := 1 / inject_Z (10 ^ 150).

(** * Properties *)

(** ** Arithmetic on finite numbers *)

Lemma ltb_Fin (a b : Q) : (Fin a <? Fin b)%num = true <-> a < b.
Proof.
  simpl. rewrite negb_true_iff. split.
  - intros H. apply Qnot_le_lt. intros Hle. apply Qle_bool_iff in Hle. congruence.
  - intros H. destruct (Qle_bool b a) eqn:E; [|reflexivity].
    apply Qle_bool_iff in E. lra.
Qed.

Lemma ltb_Fin_false (a b : Q) : (Fin a <? Fin b)%num = false <-> b <= a.
Proof.
  rewrite <- not_true_iff_false, ltb_Fin. split; intros H; lra.
Qed.

Lemma leb_Fin (a b : Q) : (Fin a <=? Fin b)%num = true <-> a <= b.
Proof. simpl. apply Qle_bool_iff. Qed.

Lemma leb_Fin_false (a b : Q) : (Fin a <=? Fin b)%num = false <-> b < a.
Proof.
  rewrite <- not_true_iff_false, leb_Fin. split; intros H; lra.
Qed.

Lemma gtb_Fin (a b : Q) : (Fin a >? Fin b)%num = true <-> b < a.
Proof. unfold Num.gtb. apply ltb_Fin. Qed.

Lemma eqb_Fin (a b : Q) : (Fin a =? Fin b)%num = true <-> a == b.
Proof. simpl. apply Qeq_bool_iff. Qed.

Lemma div_Fin (a b : Q) : ~ b == 0 -> (Fin a / Fin b)%num = Fin (a / b).
Proof.
  intros Hb. simpl. destruct (Qeq_bool b 0) eqn:E; [|reflexivity].
  apply Qeq_bool_iff in E. contradiction.
Qed.

(** A finite quotient of finite numbers has a non-zero divisor. *)
Lemma div_Fin_inv (a b r : Q) : (Fin a / Fin b)%num = Fin r -> ~ b == 0.
Proof.
  simpl. destruct (Qeq_bool b 0) eqn:E.
  - destruct (Num.sgn a); discriminate.
  - intros _ Hb. apply Qeq_bool_iff in Hb. congruence.
Qed.

(** A ratio [p / q] with [0 <= p <= q] and [0 < q] is a degree. *)
Lemma ratio_unit (p q : Q) : 0 <= p -> p <= q -> 0 < q -> 0 <= p / q <= 1.
Proof.
  intros Hp Hpq Hq. split.
  - apply Qle_shift_div_l; lra.
  - apply Qle_shift_div_r; lra.
Qed.

(** ** Membership functions *)

(** The rising or falling edge of a membership function: a finite degree. *)
Lemma edge_degree (p q : Q) :
  0 <= p -> p <= q -> 0 < q ->
  exists r, (Fin p / Fin q)%num = Fin r /\ 0 <= r <= 1.
Proof.
  intros Hp Hpq Hq. exists (p / q). split.
  - apply div_Fin. lra.
  - now apply ratio_unit.
Qed.

Ltac num_cases :=
  repeat match goal with
  | H : (Fin _ <=? Fin _)%num = true |- _ => apply leb_Fin in H
  | H : (Fin _ <=? Fin _)%num = false |- _ => apply leb_Fin_false in H
  | H : (Fin _ >? Fin _)%num = true |- _ => apply gtb_Fin in H
  | H : (Fin _ <? Fin _)%num = true |- _ => apply ltb_Fin in H
  | H : (Fin _ <? Fin _)%num = false |- _ => apply ltb_Fin_false in H
  | H : _ && _ = true |- _ => apply andb_true_iff in H; destruct H
  end.

Lemma triangular_degree (x a b c : Q) :
  exists r, triangularMF x a b c = Normal (Fin r) /\ 0 <= r <= 1.
Proof.
  unfold triangularMF.
  destruct (Fin x <=? Fin a)%num eqn:E1; [exists 0; split; [reflexivity|lra]|].
  destruct ((Fin x >? Fin a)%num && (Fin x <=? Fin b)%num) eqn:E2.
  { num_cases.
    destruct (edge_degree (x + - a) (b + - a)) as (r & Hr & Hb); try lra.
    exists r. split; [|exact Hb]. simpl in *. congruence. }
  destruct ((Fin x >? Fin b)%num && (Fin x <=? Fin c)%num) eqn:E3.
  { num_cases.
    destruct (edge_degree (c + - x) (c + - b)) as (r & Hr & Hb); try lra.
    exists r. split; [|exact Hb]. simpl in *. congruence. }
  exists 0; split; [reflexivity|lra].
Qed.

Lemma trapezoidal_degree (x a b c d : Q) :
  exists r, trapezoidalMF x a b c d = Normal (Fin r) /\ 0 <= r <= 1.
Proof.
  unfold trapezoidalMF.
  destruct (Fin x <=? Fin a)%num eqn:E1; [exists 0; split; [reflexivity|lra]|].
  destruct ((Fin x >? Fin a)%num && (Fin x <=? Fin b)%num) eqn:E2.
  { num_cases.
    destruct (edge_degree (x + - a) (b + - a)) as (r & Hr & Hb); try lra.
    exists r. split; [|exact Hb]. simpl in *. congruence. }
  destruct ((Fin x >? Fin b)%num && (Fin x <=? Fin c)%num) eqn:E3;
    [exists 1; split; [reflexivity|lra]|].
  destruct ((Fin x >? Fin c)%num && (Fin x <=? Fin d)%num) eqn:E4.
  { num_cases.
    destruct (edge_degree (d + - x) (d + - c)) as (r & Hr & Hb); try lra.
    exists r. split; [|exact Hb]. simpl in *. congruence. }
  exists 0; split; [reflexivity|lra].
Qed.

(** In exact arithmetic, for all [x] and all shape parameters, in any order,
    the triangular and the trapezoidal membership functions return a finite
    number of [[0,1]]: no divisor is zero. *)
Lemma membership_degree_exact (x a b c d : Q) :
  (exists r, triangularMF x a b c = Normal (Fin r) /\ 0 <= r <= 1) /\
  (exists r, trapezoidalMF x a b c d = Normal (Fin r) /\ 0 <= r <= 1).
Proof. split; [apply triangular_degree | apply trapezoidal_degree]. Qed.

(** C9 fails in the arithmetic of the code.  With the left foot at [-1e308]
    and the peak at [1e308] the difference of the two overflows to an
    infinity; at [x = 1e308] the rising edge of the triangular and of the
    trapezoidal function divides that infinity by itself, and the call
    returns NaN, which is no degree of [[0,1]]. *)
Theorem membership_overflow_is_nan :
  let big := Binary64.decimal 1 308 in
  Binary64.sub big (Binary64.opp big) = Binary64.infinity /\
  Binary64.triangularMF big (Binary64.opp big) big (Binary64.decimal 15 307)
    = Normal Binary64.nan /\
  Binary64.trapezoidalMF big (Binary64.opp big) big (Binary64.decimal 12 307)
      (Binary64.decimal 15 307)
    = Normal Binary64.nan.
Proof. cbv zeta. repeat split; vm_compute; reflexivity. Qed.

(** ** The order of the extended numbers *)

Lemma leb_ltb_trans (x c a : number) :
  (x <=? c)%num = true -> (c <? a)%num = true -> (x <=? a)%num = true.
Proof.
  destruct x as [x| | |], c as [c| | |], a as [a| | |];
    try (simpl; intros; solve [discriminate | reflexivity]).
  rewrite !leb_Fin, ltb_Fin. lra.
Qed.

Lemma leb_true_ltb_false (x a : number) :
  (x <=? a)%num = true -> (a <? x)%num = false.
Proof.
  destruct x as [x| | |], a as [a| | |];
    try (simpl; intros; solve [discriminate | reflexivity]).
  simpl. intros ->. reflexivity.
Qed.

(** With the bounds out of order ([c < a]) the triangular function keeps
    its rising edge on [(a, b]] and is zero elsewhere, also for arguments
    that are not finite. *)
Lemma triangular_out_of_order (x a b c : number) :
  (c <? a)%num = true ->
  triangularMF x a b c =
    Normal (if (a <? x)%num && (x <=? b)%num
            then (x - a) / (b - a) else Fin 0)%num.
Proof.
  intros Hca. unfold triangularMF, Num.gtb.
  destruct (x <=? a)%num eqn:E1.
  - rewrite (leb_true_ltb_false x a E1). reflexivity.
  - destruct ((a <? x)%num && (x <=? b)%num) eqn:E2; [reflexivity|].
    destruct ((b <? x)%num && (x <=? c)%num) eqn:E3; [|reflexivity].
    apply andb_true_iff in E3. destruct E3 as [_ Hxc].
    rewrite (leb_ltb_trans x c a Hxc Hca) in E1. discriminate E1.
Qed.

Section MembershipProperties.

Variable Math_exp : number -> number.

(** C1 (amended).  A call whose shape parameters are out of order is not
    rejected: for all arguments, finite or not, the triangular function with
    [c < a] and the gaussian function with [sigma <= 0] raise no error and
    return a number.  The triangular function with [c < a] returns zero for
    every [x] outside [(a, b]], and on [(a, b]] the value of its rising
    edge, the quotient [(x - a) / (b - a)] as the code computes it. *)
Theorem invalid_shape_returns_number (x a b c mean sigma : number) :
  (c <? a)%num = true -> (sigma <=? Fin 0)%num = true ->
  triangularMF x a b c =
    Normal (if (a <? x)%num && (x <=? b)%num
            then (x - a) / (b - a) else Fin 0)%num /\
  (forall msg, triangularMF x a b c <> Throw msg) /\
  (exists r, gaussianMF Math_exp x mean sigma = Normal r) /\
  (forall msg, gaussianMF Math_exp x mean sigma <> Throw msg).
Proof.
  intros Hca _. pose proof (triangular_out_of_order x a b c Hca) as Htri.
  split; [exact Htri|]. split.
  - intros msg H. rewrite Htri in H. discriminate H.
  - split; [eexists; reflexivity|]. intros msg H. discriminate H.
Qed.

End MembershipProperties.

(** C1 (as stated) fails: with [a = 3 > c = 1] the triangular function
    returns the number [0], and with [sigma = -1] the gaussian function
    returns the value of [Math.exp]; neither call throws. *)
Lemma invalid_shape_not_rejected :
  triangularMF 2 3 2 1 = Normal (Fin 0) /\
  gaussianMF (fun y => y) 1 0 (-1) = Normal (Fin (-(1#2) * ((1 - 0) / -1 * ((1 - 0) / -1 * 1)))) /\
  ~ (exists msg, triangularMF 2 3 2 1 = Throw msg).
Proof.
  split; [reflexivity|]. split; [reflexivity|].
  intros [msg H]. discriminate H.
Qed.

Lemma invalid_shape_returns_number_witness :
  (Fin 1 <? Fin 3)%num = true /\ (Fin (-1) <=? Fin 0)%num = true /\
  triangularMF (Fin 2) (Fin 3) (Fin 2) (Fin 1) = Normal (Fin 0) /\
  (forall msg, triangularMF (Fin 2) (Fin 3) (Fin 2) (Fin 1) <> Throw msg) /\
  (exists r, gaussianMF (fun y => y) (Fin 2) (Fin 0) (Fin (-1)) = Normal r) /\
  (forall msg, gaussianMF (fun y => y) (Fin 2) (Fin 0) (Fin (-1)) <> Throw msg).
Proof.
  split; [reflexivity|]. split; [reflexivity|].
  apply (invalid_shape_returns_number (fun y => y)
           (Fin 2) (Fin 3) (Fin 2) (Fin 1) (Fin 0) (Fin (-1))); reflexivity.
Defined.

(** ** Fuzzy score *)

Section FuzzyScoreProperties.

Variable Math_exp : number -> number.
Variable toLowerCase : string -> string.
Variable trim : string -> string.

(** C5.  Scoring the value 6 against the target 5 with fuzzy factor 0.3 and
    the triangular kind derives the shape [a = 3.5], [b = 5], [c = 6.5] and
    returns [(6.5 - 6) / (6.5 - 5) = 1/3]. *)
Theorem fuzzy_score_triangular_example (h : heap) :
  let target := Fin 5 in
  let f := Fin (3#10) in
  let a := (target * (Fin 1 - f))%num in
  let c := (target * (Fin 1 + f))%num in
  a ≡ Fin (7#2) /\ c ≡ Fin (13#2) /\
  calculateFuzzyScore Math_exp toLowerCase trim h (VNum (Fin 6)) (VNum target) f
      "triangular"
    = triangularMF (Fin 6) a target c /\
  exists r,
    calculateFuzzyScore Math_exp toLowerCase trim h (VNum (Fin 6)) (VNum target) f
      "triangular" = Normal (Fin r) /\
    r == ((13#2) - 6) / ((13#2) - 5) /\ r == 1#3.
Proof.
  cbv zeta. split; [reflexivity|]. split; [reflexivity|]. split; [reflexivity|].
  eexists. split; [vm_compute; reflexivity|]. split; reflexivity.
Qed.

End FuzzyScoreProperties.

(** ** Hard criteria filter *)

Section HardFilterProperties.

Variable lessThan_other : heap -> value -> value -> bool.

(** The numeric check of one (attribute, threshold) pair. *)
Lemma checkCriterion_numeric (h : heap) (c : candidate) (key : string)
    (v t tol : Q) :
  attributes c !! key = Some (VNum (Fin v)) ->
  checkCriterion lessThan_other h c (Fin tol) (key, VNum (Fin t)) = true
  <-> t * (1 - tol) <= v.
Proof.
  intros Hv. unfold checkCriterion. rewrite Hv.
  rewrite negb_true_iff.
  change (Fin t * (Fin 1 - Fin tol))%num with (Fin (t * (1 + - tol))).
  rewrite ltb_Fin_false. split; intros H; lra.
Qed.

End HardFilterProperties.

(** The scenario of the specification: threshold 5 and tolerance 0.1 exclude
    4.4 and include 4.6. *)
Example hard_filter_scenario :
  let cand x := {| attributes := {[ "yearsOfExperience"%string := VNum (Fin x) ]};
                   fields := ∅ |} in
  let lt := fun (_ : heap) (_ _ : value) => false in
  map attributes
      (applyHardCriteriaFilter lt ∅ [cand (44#10); cand (46#10)]
         [("yearsOfExperience"%string, VNum (Fin 5))] default_thresholdTolerance)
  = [attributes (cand (46#10))].
Proof. vm_compute. reflexivity. Qed.

(** C3 fails in the code for a negative threshold.  With threshold [-5] and
    tolerance 0.1 the relaxed threshold is [-4.5], above the threshold: the
    value [-4.8], which is at least [-5], does not pass the check, and the
    filter excludes the candidate.  The exact and the binary64 arithmetic
    agree on this input. *)
Theorem hard_filter_negative_threshold_raises_bar :
  let c := {| attributes := {[ "score"%string := VNum (Fin (-(24#5))) ]};
              fields := ∅ |} in
  let lt := fun (_ : heap) (_ _ : value) => false in
  -5 <= -(24#5) /\
  checkCriterion lt ∅ c (Fin (1#10)) ("score"%string, VNum (Fin (-5))) = false /\
  applyHardCriteriaFilter lt ∅ [c] [("score"%string, VNum (Fin (-5)))]
      default_thresholdTolerance = [] /\
  Binary64.mul (Binary64.of_Z (-5))
      (Binary64.sub (Binary64.of_Z 1) (Binary64.decimal 1 (-1)))
    = Binary64.decimal (-45) (-1) /\
  Binary64.checkNumeric (Binary64.decimal (-48) (-1)) (Binary64.of_Z (-5))
      (Binary64.decimal 1 (-1)) = false.
Proof.
  cbv zeta. split; [lra|]. repeat split; vm_compute; reflexivity.
Qed.

(** ** Weighted sum model *)

(** On a key that names no inherited member, the attribute is defined
    exactly when the object has an own entry. *)
Lemma definedAttribute_own (attributes : gmap string number) (key : string) :
  inherited key = false -> definedAttribute attributes key = attributes !! key.
Proof.
  intros Hkey. unfold definedAttribute. rewrite Hkey.
  destruct (attributes !! key); reflexivity.
Qed.

Lemma wsm_totalConfidence_fold (attributes conf : gmap string number)
    (weights : dict) (st : wsmState) :
  Forall (fun entry => inherited (fst entry) = false) weights ->
  wsm_totalConfidence (fold_left (wsmStep attributes conf) weights st)
  = fold_left (fun a w => (a + w)%num)
              (matchedConfidences attributes weights conf)
              (wsm_totalConfidence st).
Proof.
  intros Hkeys. revert st.
  induction Hkeys as [|[key w] ws Hkey _ IH]; intros st; [reflexivity|].
  cbn [fold_left]. rewrite IH.
  unfold matchedConfidences, wsmStep. cbn [List.filter fst].
  rewrite (definedAttribute_own attributes key Hkey).
  destruct (attributes !! key) as [x|] eqn:E.
  - rewrite bool_decide_eq_true_2 by eauto. reflexivity.
  - rewrite bool_decide_eq_false_2 by (intros [? ?]; discriminate). reflexivity.
Qed.

Lemma matchedConfidences_all (attributes conf : gmap string number)
    (weights : dict) :
  (forall key w, In (key, w) weights -> is_Some (attributes !! key)) ->
  matchedConfidences attributes weights conf
  = map (fun entry => confidenceFor conf (fst entry)) weights.
Proof.
  intros Hall. unfold matchedConfidences. f_equal.
  induction weights as [|[key w] ws IH]; [reflexivity|].
  cbn [List.filter fst].
  rewrite bool_decide_eq_true_2 by (apply (Hall key w); left; reflexivity).
  f_equal. apply IH. intros k' w' Hin. apply (Hall k' w'). right. exact Hin.
Qed.

(** C4 (amended).  For declared keys that name no member inherited from
    [Object.prototype], the confidence returned by the aggregator is the sum
    of the confidences (each [1.0] when not supplied, or supplied as a falsy
    number) of the declared keys whose attribute is present, added in the
    order of the keys, divided by the number of all declared keys, and [1.0]
    when no key is declared: a declared key whose attribute is absent counts
    in the divisor and adds nothing to the sum.  When every declared key has
    its attribute, this is the mean of the confidences over the declared
    keys. *)
Theorem wsm_confidence_matched_over_declared
    (attributes : gmap string number) (weights : dict)
    (confidenceScores : gmap string number) :
  Forall (fun entry => inherited (fst entry) = false) weights ->
  confidence (applyWSM attributes weights confidenceScores)
  = (if (0 <? length weights)%nat
     then (sum (matchedConfidences attributes weights confidenceScores)
           / Num.of_nat (length weights))%num
     else Fin 1) /\
  ((forall key w, In (key, w) weights -> is_Some (attributes !! key)) ->
   weights <> [] ->
   confidence (applyWSM attributes weights confidenceScores)
   = declaredMeanConfidence weights confidenceScores).
Proof.
  intros Hkeys.
  assert (H : confidence (applyWSM attributes weights confidenceScores)
    = (if (0 <? length weights)%nat
       then (sum (matchedConfidences attributes weights confidenceScores)
             / Num.of_nat (length weights))%num
       else Fin 1)).
  { unfold applyWSM. cbn [confidence].
    rewrite wsm_totalConfidence_fold by exact Hkeys. reflexivity. }
  split; [exact H|].
  intros Hall Hne. rewrite H. unfold declaredMeanConfidence.
  rewrite matchedConfidences_all by exact Hall.
  destruct weights; [congruence|]. reflexivity.
Qed.

(** C4 (as stated) fails when a declared key has no attribute: with the
    keys [a] and [b] declared, only [a] present and no confidence supplied,
    the aggregator returns the confidence [1/2], while the mean of the
    confidences over the declared keys is [1]. *)
Lemma wsm_confidence_not_declared_mean :
  confidence (applyWSM {[ "a"%string := Fin (1#2) ]}
                       [("a"%string, Fin 1); ("b"%string, Fin 1)] ∅) ≡ Fin (1#2) /\
  declaredMeanConfidence [("a"%string, Fin 1); ("b"%string, Fin 1)] ∅ ≡ Fin 1 /\
  ~ (confidence (applyWSM {[ "a"%string := Fin (1#2) ]}
                          [("a"%string, Fin 1); ("b"%string, Fin 1)] ∅)
     ≡ declaredMeanConfidence [("a"%string, Fin 1); ("b"%string, Fin 1)] ∅).
Proof.
  split; [vm_compute; reflexivity|]. split; [vm_compute; reflexivity|].
  vm_compute. discriminate.
Qed.

(** A declared key that names an inherited member finds that member in the
    attribute object: with the only key [constructor] declared and nothing
    supplied, the key counts as matched and the confidence is NaN. *)
Example wsm_inherited_key_scenario :
  confidence (applyWSM ∅ [("constructor"%string, Fin 1)] ∅) = NaN /\
  Binary64.confidence
    (Binary64.applyWSM ∅ [("constructor"%string, Binary64.of_Z 1)] ∅)
  = Binary64.nan.
Proof. split; vm_compute; reflexivity. Qed.

Lemma wsm_confidence_matched_over_declared_witness :
  let attributes : gmap string number := {[ "a"%string := Fin (1#2) ]} in
  let weights : dict := [("a"%string, Fin 1)] in
  Forall (fun entry => inherited (fst entry) = false) weights /\
  (forall key w, In (key, w) weights -> is_Some (attributes !! key)) /\
  weights <> [] /\
  confidence (applyWSM attributes weights ∅) = declaredMeanConfidence weights ∅.
Proof.
  cbv zeta.
  assert (Hk : Forall (fun entry : string * number => inherited (fst entry) = false)
                      [("a"%string, Fin 1)]).
  { repeat constructor. }
  assert (H : forall key w, In (key, w) [("a"%string, Fin 1)] ->
                is_Some (({[ "a"%string := Fin (1#2) ]} : gmap string number) !! key)).
  { intros key w [Heq|[]]. inversion Heq. eexists. reflexivity. }
  split; [exact Hk|]. split; [exact H|]. split; [discriminate|].
  apply (wsm_confidence_matched_over_declared
           {[ "a"%string := Fin (1#2) ]} [("a"%string, Fin 1)] ∅ Hk);
    [exact H | discriminate].
Defined.

(** *** Scaling by a positive factor *)


Lemma mul_pos (x : number) (k : Q) :
  0 < k -> (x * Fin k)%num = match x with Fin a => Fin (a * k) | _ => x end.
Proof.
  intros Hk. assert (Hs : Num.sgn k = Gt) by (apply Qgt_alt; lra).
  destruct x; simpl; unfold Num.scale_inf; rewrite ?Hs; reflexivity.
Qed.

#[local] Instance sgn_proper : Proper (Qeq ==> eq) Num.sgn.
Proof. intros a b H. unfold Num.sgn. now rewrite H. Qed.

#[local] Instance add_proper : Proper ((≡) ==> (≡) ==> (≡)) Num.add.
Proof.
  intros [a| | |] [a'| | |] Ha [b| | |] [b'| | |] Hb;
    try contradiction; try exact I.
  unfold equiv, number_equiv in *. simpl in *. now rewrite Ha, Hb.
Qed.

#[local] Instance mul_proper : Proper ((≡) ==> (≡) ==> (≡)) Num.mul.
Proof.
  intros [a| | |] [a'| | |] Ha [b| | |] [b'| | |] Hb;
    try contradiction; try exact I;
    unfold equiv, number_equiv in *; simpl in *; unfold Num.scale_inf;
    try (rewrite Ha); try (rewrite Hb); try reflexivity;
    try (destruct (Num.sgn _); exact I).
Qed.

#[local] Instance div_proper : Proper ((≡) ==> (≡) ==> (≡)) Num.div.
Proof.
  intros [a| | |] [a'| | |] Ha [b| | |] [b'| | |] Hb;
    try contradiction; try exact I;
    unfold equiv, number_equiv in *; simpl in *;
    try (rewrite (sgn_proper _ _ Hb); destruct (Num.sgn _); exact I);
    try reflexivity.
  assert (Hz : Qeq_bool b 0 = Qeq_bool b' 0).
  { destruct (Qeq_bool b 0) eqn:E, (Qeq_bool b' 0) eqn:E'; try reflexivity.
    - apply Qeq_bool_iff in E. apply Qeq_bool_neq in E'. exfalso. apply E'.
      now rewrite <- Hb.
    - apply Qeq_bool_iff in E'. apply Qeq_bool_neq in E. exfalso. apply E.
      now rewrite Hb. }
  rewrite Hz, (sgn_proper _ _ Ha).
  destruct (Qeq_bool b' 0); [destruct (Num.sgn a'); exact I|].
  simpl. now rewrite Ha, Hb.
Qed.

#[local] Instance gtb_proper : Proper ((≡) ==> (≡) ==> eq) Num.gtb.
Proof.
  intros [a| | |] [a'| | |] Ha [b| | |] [b'| | |] Hb;
    try contradiction; try reflexivity.
  unfold equiv, number_equiv in *. simpl in *. now rewrite Ha, Hb.
Qed.

Section Scaling.

Variable k : Q.
Hypothesis Hk : 0 < k.









End Scaling.




(** ** Weight consensus *)

(** C6.  On the four proposals [0.5, 0.5, 0.5, 0.9] for one criterion the
    median is 0.5 and the median absolute deviation is 0, so only the values
    equal to the median are kept and the outlier 0.9 is dropped; the
    consensus weight of the criterion is 0.5, and after renormalisation the
    weights of all criteria sum to 1 (the lone criterion then weighs 1),
    also next to a second criterion. *)
Theorem delphi_outlier_scenario :
  proposalsFor proposals_one_criterion "experience"
    = [Fin (1#2); Fin (1#2); Fin (1#2); Fin (9#10)] /\
  calculateMedian [Fin (1#2); Fin (1#2); Fin (1#2); Fin (9#10)] ≡ Fin (1#2) /\
  calculateMedian
    (map (fun v => Num.abs (v - Fin (1#2))%num)
         [Fin (1#2); Fin (1#2); Fin (1#2); Fin (9#10)]) ≡ Fin 0 /\
  removeFuzzyOutliers [Fin (1#2); Fin (1#2); Fin (1#2); Fin (9#10)]
                      default_fuzzyThreshold
    = [Fin (1#2); Fin (1#2); Fin (1#2)] /\
  (exists w, aggregateWeights (weightsByAttribute proposals_one_criterion)
               = [("experience"%string, w)] /\ w ≡ Fin (1#2)) /\
  (exists w, applyDelphiTechnique proposals_one_criterion
               = [("experience"%string, w)] /\ w ≡ Fin 1) /\
  sum (map snd (applyDelphiTechnique proposals_one_criterion)) ≡ Fin 1 /\
  (exists w w', aggregateWeights (weightsByAttribute proposals_two_criteria)
               = [("experience"%string, w); ("skills"%string, w')]
               /\ w ≡ Fin (1#2) /\ w' ≡ Fin (3#10)) /\
  sum (map snd (applyDelphiTechnique proposals_two_criteria)) ≡ Fin 1.
Proof.
  split; [reflexivity|].
  split; [vm_compute; reflexivity|].
  split; [vm_compute; reflexivity|].
  split; [vm_compute; reflexivity|].
  split; [eexists; split; [vm_compute; reflexivity | vm_compute; reflexivity]|].
  split; [eexists; split; [vm_compute; reflexivity | vm_compute; reflexivity]|].
  split; [vm_compute; reflexivity|].
  split; [|vm_compute; reflexivity].
  do 2 eexists. split; [vm_compute; reflexivity|].
  split; vm_compute; reflexivity.
Qed.

(** ** Ranking *)

Section RankingScenario.

Variable ToNumber_other : heap -> value -> number.

(** C2 (amended).  Ranking the two candidates (id 1: score 0.85, confidence
    0.9; id 2: score 0.83, confidence 0.95) places id 2 first, by the
    tie-break on confidence, with rank 1 and percentile 100, and id 1 second
    with rank 2 and percentile [100 * (1 - 1/2) = 50]; this holds with the
    score stored under [finalScore], which the ranker reads, and under
    [score], which it does not. *)
Theorem ranking_scenario_result (scoreKey : string) :
  scoreKey = "finalScore"%string \/ scoreKey = "score"%string ->
  exists h' ranked winner loser,
    rankCandidates ToNumber_other (ranking_scenario scoreKey) (VRef 0)
      = Some (h', ranked) /\
    elementsOf h' ranked = [winner; loser] /\
    propOf h' winner "id" = VNum (Fin 2) /\
    propOf h' loser "id" = VNum (Fin 1) /\
    numberOf h' winner "rank" ≡ Fin 1 /\
    numberOf h' loser "rank" ≡ Fin 2 /\
    numberOf h' winner "percentile" ≡ Fin 100 /\
    numberOf h' loser "percentile" ≡ Fin 50.
Proof.
  intros [-> | ->].
  - do 4 eexists. split; [vm_compute; reflexivity|].
    repeat split; vm_compute; reflexivity.
  - do 4 eexists. split; [vm_compute; reflexivity|].
    repeat split; vm_compute; reflexivity.
Qed.

End RankingScenario.

(** C2 (as stated) fails on the percentile of the loser: the second of two
    entries gets [100 * (1 - 1/2) = 50], not 0. *)
Lemma ranking_loser_percentile_is_50 :
  match rankCandidates (fun _ _ => NaN) (ranking_scenario "finalScore") (VRef 0) with
  | Some (h', ranked) =>
      exists winner loser,
        elementsOf h' ranked = [winner; loser] /\
        propOf h' loser "id" = VNum (Fin 1) /\
        numberOf h' loser "percentile" ≡ Fin 50 /\
        ~ (numberOf h' loser "percentile" ≡ Fin 0)
  | None => False
  end.
Proof.
  vm_compute. do 2 eexists. split; [reflexivity|].
  split; [reflexivity|]. split; [reflexivity | discriminate].
Qed.

Lemma ranking_scenario_result_witness :
  ("finalScore"%string = "finalScore"%string \/ "finalScore"%string = "score"%string) /\
  exists h' ranked winner loser,
    rankCandidates (fun _ _ => NaN) (ranking_scenario "finalScore") (VRef 0)
      = Some (h', ranked) /\
    elementsOf h' ranked = [winner; loser] /\
    propOf h' winner "id" = VNum (Fin 2) /\
    propOf h' loser "id" = VNum (Fin 1) /\
    numberOf h' winner "rank" ≡ Fin 1 /\
    numberOf h' loser "rank" ≡ Fin 2 /\
    numberOf h' winner "percentile" ≡ Fin 100 /\
    numberOf h' loser "percentile" ≡ Fin 50.
Proof.
  split; [left; reflexivity|].
  apply (ranking_scenario_result (fun _ _ => NaN) "finalScore").
  left; reflexivity.
Defined.

(** *** The ranker on an arbitrary list *)

Lemma sort_insert_perm {A : Type} (cmp : A -> A -> number) (x : A) (l : list A) :
  sort_insert cmp x l ≡ₚ x :: l.
Proof.
  induction l as [|y l IH]; [reflexivity|]. cbn [sort_insert].
  destruct (cmp x y >? Fin 0)%num; [|reflexivity].
  rewrite IH. apply perm_swap.
Qed.

Lemma js_sort_perm {A : Type} (cmp : A -> A -> number) (l : list A) :
  js_sort cmp l ≡ₚ l.
Proof.
  induction l as [|x l IH]; [reflexivity|].
  unfold js_sort in *. cbn [foldr]. rewrite sort_insert_perm. now rewrite IH.
Qed.

Lemma alloc_spec (h : heap) (c : cell) :
  exists l, alloc h c = (<[l := c]> h, l) /\ l ∉ dom h.
Proof.
  exists (fresh (dom h)). split; [reflexivity|]. apply is_fresh.
Qed.

Lemma copyAll_spec (h0 : heap) (vs : list value) :
  Forall (isCandidate h0) vs ->
  forall h : heap, h0 ⊆ h ->
  exists (h1 : heap) (ls : list loc),
    copyAll h vs = Some (h1, ls) /\
    h ⊆ h1 /\
    NoDup ls /\
    Forall2 (fun l1 v => (l1 ∉ dom h) /\ exists l props,
               v = VRef l /\ h0 !! l = Some (Obj props) /\
               h1 !! l1 = Some (Obj (copyCandidate props))) ls vs.
Proof.
  induction 1 as [|v vs (l & props & -> & Hl) _ IH]; intros h Hsub.
  - exists h, []. repeat split; try constructor. reflexivity.
  - cbn [copyAll].
    assert (Hl' : h !! l = Some (Obj props)).
    { eapply lookup_weaken; eassumption. }
    rewrite Hl'.
    destruct (alloc_spec h (Obj (copyCandidate props))) as (l1 & -> & Hfresh).
    assert (Hsub1 : h ⊆ <[l1 := Obj (copyCandidate props)]> h).
    { apply insert_subseteq. now apply not_elem_of_dom. }
    destruct (IH (<[l1 := Obj (copyCandidate props)]> h)) as
      (h1 & ls & -> & Hsub2 & Hnd & Hcopies).
    { etrans; eassumption. }
    exists h1, (l1 :: ls). split; [reflexivity|].
    split; [etrans; eassumption|].
    split.
    { constructor; [|exact Hnd]. intros Hin.
      destruct (proj1 (list_elem_of_lookup ls l1) Hin) as [i Hi].
      destruct (Forall2_lookup_l _ _ _ _ _ Hcopies Hi) as (v & _ & Hnin & _).
      apply Hnin. rewrite dom_insert. set_solver. }
    constructor.
    + split; [exact Hfresh|].
      exists l, props. split; [reflexivity|]. split; [exact Hl|].
      eapply lookup_weaken; [|exact Hsub2]. apply lookup_insert_eq.
    + eapply Forall2_impl; [exact Hcopies|]. cbn.
      intros l' v' [Hl1 Hrest]. split; [|exact Hrest].
      intros Hin. apply Hl1. rewrite dom_insert. apply elem_of_union_r, Hin.
Qed.

Lemma annotated_refl (c : cell) : annotated c c.
Proof. destruct c; simpl; auto. Qed.

Lemma annotated_trans (c1 c2 c3 : cell) :
  annotated c1 c2 -> annotated c2 c3 -> annotated c1 c3.
Proof.
  destruct c1, c2, c3; simpl; try tauto; try congruence.
  intros H12 H23 key Hr Hp. rewrite H23, H12; auto.
Qed.

(** One step of the last pass touches only the cell of its entry, and keeps
    every cell up to the two properties it writes. *)
Lemma annotate_step (n : nat) (h : heap) (entry : nat * loc) (l : loc) :
  (l <> snd entry -> annotate n h entry !! l = h !! l) /\
  (forall c, h !! l = Some c ->
     exists c', annotate n h entry !! l = Some c' /\ annotated c c').
Proof.
  destruct entry as [index l0]. unfold annotate. cbn [snd].
  destruct (h !! l0) as [[props|es]|] eqn:E.
  - split.
    + intros Hne. now rewrite lookup_insert_ne.
    + intros c Hc. destruct (decide (l0 = l)) as [->|Hne].
      * rewrite lookup_insert_eq. eexists. split; [reflexivity|].
        rewrite E in Hc. injection Hc as <-. simpl. intros key Hr Hp.
        rewrite !lookup_insert_ne by congruence. reflexivity.
      * rewrite lookup_insert_ne by exact Hne. exists c. split; [exact Hc|].
        apply annotated_refl.
  - split; [reflexivity|]. intros c Hc. exists c. split; [exact Hc|].
    apply annotated_refl.
  - split; [reflexivity|]. intros c Hc. exists c. split; [exact Hc|].
    apply annotated_refl.
Qed.

Lemma annotate_fold (n : nat) (entries : list (nat * loc)) (h : heap) (l : loc) :
  (l ∉ entries.*2 -> fold_left (annotate n) entries h !! l = h !! l) /\
  (forall c, h !! l = Some c ->
     exists c', fold_left (annotate n) entries h !! l = Some c' /\ annotated c c').
Proof.
  revert h. induction entries as [|entry entries IH]; intros h.
  - split; [reflexivity|]. intros c Hc. exists c. split; [exact Hc|].
    apply annotated_refl.
  - cbn [fold_left]. destruct (IH (annotate n h entry)) as [IH1 IH2].
    destruct (annotate_step n h entry l) as [S1 S2]. split.
    + intros Hnin. rewrite fmap_cons, not_elem_of_cons in Hnin.
      destruct Hnin as [Hne Hnin]. rewrite IH1 by exact Hnin. now apply S1.
    + intros c Hc. destruct (S2 c Hc) as (c1 & Hc1 & Ha1).
      destruct (IH2 c1 Hc1) as (c2 & Hc2 & Ha2).
      exists c2. split; [exact Hc2|]. eapply annotated_trans; eassumption.
Qed.

Lemma zip_seq_snd {A : Type} (l : list A) (start : nat) :
  (zip (seq start (length l)) l).*2 = l.
Proof.
  revert start. induction l as [|x l IH]; intros start; [reflexivity|].
  cbn. f_equal. apply IH.
Qed.

Lemma copyCandidate_lookup (props : gmap string value) :
  (forall key, key ∉ rankerKeys -> copyCandidate props !! key = props !! key) /\
  copyCandidate props !! "finalScore"%string
    = Some (orElse (getProp props "finalScore") (VNum (Fin 0))) /\
  copyCandidate props !! "confidenceScore"%string
    = Some (orElse (getProp props "confidence") (VNum (Fin 1))).
Proof.
  unfold copyCandidate. split; [|split].
  - intros key Hkey. unfold rankerKeys in Hkey.
    rewrite !not_elem_of_cons in Hkey. destruct Hkey as (H1 & H2 & _).
    rewrite !lookup_insert_ne by congruence. reflexivity.
  - rewrite lookup_insert_ne by discriminate. apply lookup_insert_eq.
  - apply lookup_insert_eq.
Qed.

Section RankerProperties.

Variable ToNumber_other : heap -> value -> number.

(** C10.  For every list of candidates the ranker returns a new list of the
    same length whose entries are new objects, each a copy of one input
    entry, the originals of the entries forming a permutation of the input;
    every cell of the heap that existed before the call, the input list and
    its entries among them, is unchanged. *)
Theorem rankCandidates_new_permuted_copies (h : heap) (candidates : loc)
    (vs : list value) :
  h !! candidates = Some (Arr vs) ->
  Forall (isCandidate h) vs ->
  exists (h' : heap) (ranked : loc) (outs : list loc) (origins : list value),
    rankCandidates ToNumber_other h (VRef candidates) = Some (h', VRef ranked) /\
    (ranked ∉ dom h) /\
    h' !! ranked = Some (Arr (VRef <$> outs)) /\
    length outs = length vs /\
    origins ≡ₚ vs /\
    Forall2 (entryCopies h h') outs origins /\
    NoDup outs /\
    (forall l, l ∈ dom h -> h' !! l = h !! l) /\
    h' !! candidates = Some (Arr vs).
Proof.
  intros Harr Hvs.
  destruct (copyAll_spec h vs Hvs h) as (h1 & ls & Hcopy & Hsub & Hnd & Hcopies);
    [reflexivity|].
  destruct (alloc_spec h1 (Arr (VRef <$> ls))) as (ranked & Halloc & Hranked).
  set (h2 := <[ranked := Arr (VRef <$> ls)]> h1) in *.
  set (sorted := js_sort (compareCandidates ToNumber_other h2) ls).
  set (h3 := <[ranked := Arr (VRef <$> sorted)]> h2).
  set (h4 := fold_left (annotate (length sorted))
                       (zip (seq 0 (length sorted)) sorted) h3).
  assert (Hperm : sorted ≡ₚ ls) by apply js_sort_perm.
  assert (Hdom : dom h ⊆ dom h1) by (apply subseteq_dom; exact Hsub).
  assert (Hnew : forall l, l ∈ ls -> (l ∉ dom h) /\ l ∈ dom h1).
  { intros l Hin.
    destruct (proj1 (list_elem_of_lookup ls l) Hin) as [i Hi].
    destruct (Forall2_lookup_l _ _ _ _ _ Hcopies Hi)
      as (v & _ & Hnin & l0 & p & _ & _ & Hl).
    split; [exact Hnin|]. apply elem_of_dom. eauto. }
  assert (Hranked_ls : ranked ∉ sorted).
  { rewrite Hperm. intros Hin. apply Hranked. now apply Hnew. }
  assert (Hsnd : (zip (seq 0 (length sorted)) sorted).*2 = sorted)
    by apply zip_seq_snd.
  assert (Hh3 : forall l, l <> ranked -> h3 !! l = h1 !! l).
  { intros l Hne. unfold h3, h2. now rewrite !lookup_insert_ne. }
  assert (Hold : forall l, l ∈ dom h -> h4 !! l = h !! l).
  { intros l Hl.
    assert (Hne : l <> ranked) by (intros ->; apply Hranked, Hdom, Hl).
    assert (Hnin : l ∉ sorted).
    { rewrite Hperm. intros Hin. now apply (Hnew l Hin). }
    unfold h4. rewrite (proj1 (annotate_fold _ _ h3 l)) by (now rewrite Hsnd).
    rewrite Hh3 by exact Hne.
    apply elem_of_dom in Hl. destruct Hl as [c Hc].
    rewrite Hc. eapply lookup_weaken; eassumption. }
  destruct (Permutation_Forall2 (symmetry Hperm) Hcopies)
    as (origins & Hperm' & Hcopies').
  exists h4, ranked, sorted, origins.
  split.
  { unfold rankCandidates. cbn [as_array]. rewrite Harr, Hcopy, Halloc.
    reflexivity. }
  split; [intros Hin; apply Hranked, Hdom, Hin|].
  split.
  { unfold h4. rewrite (proj1 (annotate_fold _ _ h3 ranked)) by (now rewrite Hsnd).
    unfold h3. apply lookup_insert_eq. }
  split.
  { rewrite (Permutation_length Hperm). eapply Forall2_length. exact Hcopies. }
  split; [symmetry; exact Hperm'|].
  split.
  { eapply Forall2_impl; [exact Hcopies'|]. cbn.
    intros out v (Hout & l & props & -> & Hl & Hobj).
    split; [exact Hout|].
    assert (Hne : out <> ranked).
    { intros ->. apply Hranked. apply elem_of_dom. eauto. }
    assert (H3 : h3 !! out = Some (Obj (copyCandidate props))).
    { rewrite Hh3 by exact Hne. exact Hobj. }
    destruct (proj2 (annotate_fold (length sorted)
                       (zip (seq 0 (length sorted)) sorted) h3 out) _ H3)
      as (c' & Hc' & Hann).
    destruct c' as [props'|es]; [|contradiction].
    simpl in Hann.
    destruct (copyCandidate_lookup props) as (Hother & Hfs & Hcs).
    exists l, props, props'. split; [reflexivity|]. split; [exact Hl|].
    split; [exact Hc'|]. split; [|split].
    - intros key Hkey. rewrite <- Hother by exact Hkey.
      unfold rankerKeys in Hkey. rewrite !not_elem_of_cons in Hkey.
      apply Hann; tauto.
    - rewrite Hann by discriminate. exact Hfs.
    - rewrite Hann by discriminate. exact Hcs. }
  split; [rewrite Hperm; exact Hnd|].
  split; [exact Hold|].
  rewrite Hold by (apply elem_of_dom; eauto). exact Harr.
Qed.

End RankerProperties.

Lemma rankCandidates_new_permuted_copies_witness :
  let h := ranking_scenario "finalScore" in
  h !! 0%nat = Some (Arr [VRef 1; VRef 2]) /\
  Forall (isCandidate h) [VRef 1; VRef 2] /\
  exists (h' : heap) (ranked : loc) (outs : list loc) (origins : list value),
    rankCandidates (fun _ _ => NaN) h (VRef 0) = Some (h', VRef ranked) /\
    (ranked ∉ dom h) /\
    h' !! ranked = Some (Arr (VRef <$> outs)) /\
    length outs = length [VRef 1; VRef 2] /\
    origins ≡ₚ [VRef 1; VRef 2] /\
    Forall2 (entryCopies h h') outs origins /\
    NoDup outs /\
    (forall l, l ∈ dom h -> h' !! l = h !! l) /\
    h' !! 0%nat = Some (Arr [VRef 1; VRef 2]).
Proof.
  cbv zeta.
  assert (H0 : ranking_scenario "finalScore" !! 0%nat = Some (Arr [VRef 1; VRef 2]))
    by reflexivity.
  assert (Hc : Forall (isCandidate (ranking_scenario "finalScore")) [VRef 1; VRef 2]).
  { repeat constructor; eexists _, _; (split; [reflexivity|]); reflexivity. }
  split; [exact H0|]. split; [exact Hc|].
  exact (rankCandidates_new_permuted_copies (fun _ _ => NaN)
           (ranking_scenario "finalScore") 0%nat [VRef 1; VRef 2] H0 Hc).
Defined.

(** ** Array similarity *)

Section SimilarityProperties.

Variable toLowerCase : string -> string.
Variable trim : string -> string.

Lemma of_nat_div (a b : nat) :
  b <> 0%nat ->
  exists q, (Num.of_nat a / Num.of_nat b)%num = Fin q /\ 0 <= q.
Proof.
  intros Hb. unfold Num.of_nat.
  assert (Hpos : 0 < inject_Z (Z.of_nat b)).
  { change 0 with (inject_Z 0). rewrite <- Zlt_Qlt. lia. }
  assert (Hnn : 0 <= inject_Z (Z.of_nat a)).
  { change 0 with (inject_Z 0). rewrite <- Zle_Qle. lia. }
  eexists. split; [apply div_Fin; lra|].
  apply Qle_shift_div_l; lra.
Qed.

Lemma stringSimilarity_atMostOne (s t : string) :
  atMostOne (calculateStringSimilarity toLowerCase trim s t).
Proof.
  unfold calculateStringSimilarity, atMostOne.
  set (s1 := trim (toLowerCase s)). set (s2 := trim (toLowerCase t)).
  destruct ((String.length s1 =? 0)%nat && (String.length s2 =? 0)%nat) eqn:E1;
    [reflexivity|].
  destruct ((String.length s1 =? 0)%nat || (String.length s2 =? 0)%nat) eqn:E2;
    [reflexivity|].
  destruct (String.eqb s1 s2); [reflexivity|].
  apply orb_false_iff in E2. destruct E2 as [E2 _]. apply Nat.eqb_neq in E2.
  destruct (of_nat_div
              (levenshtein (list_ascii_of_string s1) (list_ascii_of_string s2))
              (Nat.max (String.length s1) (String.length s2)))
    as (q & -> & Hq); [lia|].
  apply ltb_Fin_false. lra.
Qed.

Lemma stringSimilarity_self (s : string) :
  calculateStringSimilarity toLowerCase trim s s = Fin 1.
Proof.
  unfold calculateStringSimilarity.
  set (s1 := trim (toLowerCase s)).
  destruct (String.length s1 =? 0)%nat; [reflexivity|]. cbn [andb orb].
  now rewrite String.eqb_refl.
Qed.

Lemma max_zero_atMostOne (q : Q) :
  q <= 1 -> atMostOne (Num.max (Fin 0) (Fin q)).
Proof.
  intros Hq. unfold atMostOne, Num.max.
  destruct (Fin 0 <? Fin q)%num; apply ltb_Fin_false; lra.
Qed.

Lemma itemSimilarity_atMostOne (cs : bool) (s t : value) :
  finiteValue s -> finiteValue t ->
  atMostOne (itemSimilarity toLowerCase trim cs s t).
Proof.
  intros Hs Ht.
  destruct s as [| |b|[a| | |]|a|l]; try contradiction;
    destruct t as [| |b'|[a'| | |]|a'|l']; try contradiction;
    cbn [itemSimilarity];
    try (destruct (strict_eq _ _); reflexivity);
    try apply stringSimilarity_atMostOne.
  set (m := Num.max (Num.abs (Fin a)) (Num.abs (Fin a'))).
  assert (Hm : exists q, m = Fin q /\ 0 <= q).
  { unfold m, Num.max, Num.abs.
    destruct (Fin (Qabs a) <? Fin (Qabs a'))%num; eexists; split;
      try reflexivity; apply Qabs_nonneg. }
  destruct Hm as (q & -> & Hq).
  destruct (Fin q =? Fin 0)%num eqn:E; [reflexivity|].
  assert (Hq0 : ~ q == 0).
  { intros H. apply eqb_Fin in H. congruence. }
  cbn [Num.abs Num.sub Num.neg Num.add].
  rewrite div_Fin by exact Hq0.
  apply max_zero_atMostOne.
  assert (0 <= Qabs (a + - a') / q).
  { apply Qle_shift_div_l; [lra|]. pose proof (Qabs_nonneg (a + - a')). lra. }
  lra.
Qed.

Lemma max_zero_pos (q : Q) : 0 < q -> Num.max (Fin 0) (Fin q) = Fin q.
Proof.
  intros Hq. unfold Num.max.
  now rewrite (proj2 (ltb_Fin 0 q) Hq).
Qed.

Lemma max_same (p : Q) : Num.max (Fin p) (Fin p) = Fin p.
Proof.
  unfold Num.max. destruct (Fin p <? Fin p)%num; reflexivity.
Qed.

Lemma itemSimilarity_self (cs : bool) (v : value) :
  finiteValue v -> itemSimilarity toLowerCase trim cs v v ≡ Fin 1.
Proof.
  intros Hv. destruct v as [| |b|[a| | |]|a|l]; try contradiction;
    cbn [itemSimilarity strict_eq].
  - reflexivity.
  - reflexivity.
  - now rewrite Bool.eqb_reflx.
  - cbn [Num.abs Num.sub Num.neg Num.add]. rewrite max_same.
    destruct (Fin (Qabs a) =? Fin 0)%num eqn:E; [reflexivity|].
    assert (Hq0 : ~ Qabs a == 0).
    { intros H. apply eqb_Fin in H. congruence. }
    rewrite div_Fin by exact Hq0. cbn [Num.neg Num.add].
    assert (Hz : Qabs (a + - a) / Qabs a == 0).
    { assert (Ha : a + - a == 0) by ring. rewrite Ha.
      change (Qabs 0) with 0. unfold Qdiv. ring. }
    rewrite max_zero_pos by lra.
    change (1 + - (Qabs (a + - a) / Qabs a) == 1). lra.
  - now rewrite stringSimilarity_self.
  - now rewrite Nat.eqb_refl.
Qed.

End SimilarityProperties.

(** *** The greedy pass on a matrix with a unit diagonal *)

Lemma bestMatch_keeps (row : list number) (j idx : nat) (s : number) :
  s ≡ Fin 1 -> Forall atMostOne row ->
  bestMatch row j (Some idx) s = (Some idx, s).
Proof.
  intros Hs Hrow. revert j. induction Hrow as [|x row Hx _ IH]; intros j.
  - reflexivity.
  - cbn [bestMatch]. rewrite (gtb_proper x x (reflexivity x) s (Fin 1) Hs).
    unfold atMostOne in Hx. rewrite Hx. apply IH.
Qed.

Lemma bestMatch_head (x : number) (row : list number) (bound : number) :
  x ≡ Fin 1 -> (Fin 1 >? bound)%num = true -> Forall atMostOne row ->
  bestMatch (x :: row) 0 None bound = (Some 0%nat, x).
Proof.
  intros Hx Hb Hrow. cbn [bestMatch].
  rewrite (gtb_proper x (Fin 1) Hx bound bound (reflexivity bound)), Hb.
  now apply bestMatch_keeps.
Qed.

Lemma of_nat_S (i : nat) (x : number) :
  x ≡ Fin 1 -> (Num.of_nat i + x)%num ≡ Num.of_nat (S i).
Proof.
  destruct x as [q| | |]; try contradiction. intros Hq.
  unfold Num.of_nat. change (inject_Z (Z.of_nat i) + q == inject_Z (Z.of_nat (S i))).
  change (q == 1) in Hq.
  rewrite Nat2Z.inj_succ. unfold Z.succ. rewrite inject_Z_plus, Hq. reflexivity.
Qed.

Section Greedy.

Variable n : nat.
Variable M : list (list number).
Variable bound : number.

Hypothesis M_rows : length M = n.
Hypothesis M_cols : Forall (fun row => length row = n) M.
Hypothesis M_diag :
  forall i row, M !! i = Some row -> exists x, row !! i = Some x /\ x ≡ Fin 1.
Hypothesis M_bounded : Forall (Forall atMostOne) M.
Hypothesis bound_below_one : (Fin 1 >? bound - Fin (1#100))%num = true.

Lemma removeColumn_drop (i : nat) :
  (i < n)%nat -> removeColumn 0 (drop i <$> M) = drop (S i) <$> M.
Proof.
  intros Hi. unfold removeColumn. rewrite <- list_fmap_compose.
  apply Forall_fmap_ext. eapply Forall_impl; [exact M_cols|]. cbn.
  intros row Hlen.
  destruct (drop i row) as [|x r] eqn:E.
  - apply (f_equal length) in E. rewrite length_drop in E. simpl in E. lia.
  - cbn. replace (S i) with (i + 1)%nat by lia.
    rewrite <- drop_drop, E. reflexivity.
Qed.

Lemma matchRow_diag (st : matching) (i : nat) :
  (i < n)%nat ->
  rows st = drop i <$> M ->
  exists x, x ≡ Fin 1 /\
    matchRow bound st i =
      {| rows := drop (S i) <$> M;
         totalSimilarity := (totalSimilarity st + x)%num;
         matchCount := S (matchCount st) |}.
Proof.
  intros Hi Hrows.
  destruct (lookup_lt_is_Some_2 M i) as [row Hrow]; [lia|].
  destruct (M_diag i row Hrow) as (x & Hx & Hx1).
  assert (Hb : Forall atMostOne row).
  { apply (proj1 (Forall_forall _ _) M_bounded).
    eapply list_elem_of_lookup_2. exact Hrow. }
  exists x. split; [exact Hx1|].
  unfold matchRow. rewrite Hrows.
  assert (Hnth : nth i (drop i <$> M) [] = x :: drop (S i) row).
  { rewrite <- (drop_S row x i Hx).
    apply nth_lookup_Some. rewrite list_lookup_fmap, Hrow. reflexivity. }
  rewrite Hnth.
  rewrite bestMatch_head; [|exact Hx1|exact bound_below_one|].
  - rewrite removeColumn_drop by exact Hi. reflexivity.
  - apply Forall_drop. exact Hb.
Qed.

Lemma greedy_loop (m i : nat) (st : matching) :
  (i + m = n)%nat ->
  rows st = drop i <$> M ->
  matchCount st = i ->
  totalSimilarity st ≡ Num.of_nat i ->
  let st' := fold_left (matchRow bound) (seq i m) st in
  matchCount st' = n /\ totalSimilarity st' ≡ Num.of_nat n.
Proof.
  revert i st. induction m as [|m IH]; intros i st Him Hrows Hcount Htotal.
  - cbn. split; [lia|]. replace n with i by lia. exact Htotal.
  - cbn [seq fold_left].
    destruct (matchRow_diag st i) as (x & Hx & ->); [lia|exact Hrows|].
    apply IH.
    + lia.
    + reflexivity.
    + cbn. now rewrite Hcount.
    + cbn [totalSimilarity]. rewrite Htotal. now apply of_nat_S.
Qed.

Lemma greedy_full :
  matchCount (greedyMatch bound M) = n /\
  totalSimilarity (greedyMatch bound M) ≡ Num.of_nat n.
Proof.
  unfold greedyMatch. rewrite M_rows. apply greedy_loop.
  - lia.
  - cbn [rows]. symmetry. etrans; [|apply list_fmap_id].
    apply list_fmap_ext. intros ? row _. reflexivity.
  - reflexivity.
  - reflexivity.
Qed.

End Greedy.

Lemma imap_cells (row : list number) {A : Type} (target : list A) :
  length row = length target ->
  imap (fun j _ => cell_at row j) target = row.
Proof.
  intros Hlen. apply list_eq. intros i. rewrite list_lookup_imap.
  destruct (target !! i) as [t|] eqn:E; cbn.
  - destruct (lookup_lt_is_Some_2 row i) as [y Hy].
    { rewrite Hlen. eapply lookup_lt_Some. exact E. }
    rewrite Hy. f_equal. unfold cell_at. now apply nth_lookup_Some.
  - symmetry. apply lookup_ge_None. rewrite Hlen. now apply lookup_ge_None.
Qed.

Lemma primaryArray_rows (b : bool) (target : list value)
    (matrix : list (list number)) :
  Forall (fun row => length row = length target) matrix ->
  primaryArray b target matrix = matrix.
Proof.
  intros Hrows. unfold primaryArray. destruct b; [reflexivity|].
  etrans; [|apply list_fmap_id]. apply Forall_fmap_ext.
  eapply Forall_impl; [exact Hrows|]. cbn. intros row Hlen.
  now apply imap_cells.
Qed.

Lemma of_nat_ratio (n : nat) :
  n <> 0%nat -> (Num.of_nat n / Num.of_nat n)%num ≡ Fin 1.
Proof.
  intros Hn. unfold Num.of_nat.
  assert (Hpos : 0 < inject_Z (Z.of_nat n)).
  { change 0 with (inject_Z 0). rewrite <- Zlt_Qlt. lia. }
  rewrite div_Fin by lra.
  change (inject_Z (Z.of_nat n) / inject_Z (Z.of_nat n) == 1). field. lra.
Qed.

Section ArraySelfSimilarity.

Variable toLowerCase : string -> string.
Variable trim : string -> string.

(** The similarity matrix of a list with itself. *)
Lemma self_matrix_shape (cs : bool) (items : list value) :
  Forall finiteValue items ->
  let M := similarityMatrix toLowerCase trim cs items items in
  length M = length items /\
  Forall (fun row => length row = length items) M /\
  (forall i row, M !! i = Some row -> exists x, row !! i = Some x /\ x ≡ Fin 1) /\
  Forall (Forall atMostOne) M.
Proof.
  intros Hfin M. unfold M, similarityMatrix.
  split; [apply length_map|]. split; [|split].
  - apply Forall_forall. intros row Hrow.
    apply list_elem_of_fmap in Hrow. destruct Hrow as (s & -> & _).
    apply length_map.
  - intros i row Hrow.
    change (map ?f ?l) with (f <$> l) in Hrow.
    rewrite list_lookup_fmap in Hrow.
    destruct (items !! i) as [v|] eqn:E; [|discriminate].
    injection Hrow as <-.
    exists (itemSimilarity toLowerCase trim cs v v). split.
    + change (map ?f ?l) with (f <$> l). rewrite list_lookup_fmap, E. reflexivity.
    + apply itemSimilarity_self.
      apply (proj1 (Forall_forall _ _) Hfin). eapply list_elem_of_lookup_2, E.
  - apply Forall_forall. intros row Hrow.
    apply list_elem_of_fmap in Hrow. destruct Hrow as (s & -> & Hs).
    apply Forall_forall. intros x Hx.
    apply list_elem_of_fmap in Hx. destruct Hx as (t & -> & Ht).
    apply itemSimilarity_atMostOne; apply (proj1 (Forall_forall _ _) Hfin);
      assumption.
Qed.

(** C8 (amended).  For every non-empty array whose numbers are finite, the
    similarity of the array with itself under the default options is 1. *)
Theorem array_self_similarity (h : heap) (X : value) (items : list value) :
  as_array h X = Some items ->
  items <> [] ->
  Forall finiteValue items ->
  calculateArraySimilarity toLowerCase trim h X X default_options ≡ Fin 1.
Proof.
  intros HX Hne Hfin. unfold calculateArraySimilarity. rewrite HX.
  assert (Hn : length items <> 0%nat) by (destruct items; [congruence|discriminate]).
  rewrite (proj2 (Nat.eqb_neq _ _) Hn). cbn [andb orb].
  rewrite Nat.ltb_irrefl, Nat.min_id, (proj2 (Nat.eqb_neq _ _) Hn).
  destruct (self_matrix_shape false items Hfin) as (Hrows & Hcols & Hdiag & Hle).
  cbn [caseSensitive threshold default_options].
  rewrite primaryArray_rows by exact Hcols.
  destruct (greedy_full (length items) _ (Fin (7#10)) Hrows Hcols Hdiag Hle)
    as [Hcount Htotal]; [reflexivity|].
  rewrite Hcount, (proj2 (Nat.ltb_lt 0 (length items))) by lia.
  rewrite Htotal, !of_nat_ratio by exact Hn.
  reflexivity.
Qed.

End ArraySelfSimilarity.

(** The scenarios of the specification for the string similarity. *)
Example string_similarity_scenarios :
  calculateStringSimilarity ascii_toLowerCase ascii_trim "React" " react " = Fin 1 /\
  calculateStringSimilarity ascii_toLowerCase ascii_trim EmptyString EmptyString
    = Fin 1 /\
  calculateStringSimilarity ascii_toLowerCase ascii_trim "a" EmptyString = Fin 0 /\
  calculateStringSimilarity ascii_toLowerCase ascii_trim "kitten" "sitting"
    ≡ Fin (1 - (3#7)).
Proof. repeat split; vm_compute; reflexivity. Qed.

(** C8 (as stated) fails on an array that holds NaN: the similarity of NaN
    with itself is NaN, no score above the threshold is found, and the
    similarity of the array with itself is 0. *)
Lemma array_self_similarity_nan :
  as_array arrays_scenario (VRef 1) = Some [VNum NaN] /\
  itemSimilarity ascii_toLowerCase ascii_trim false (VNum NaN) (VNum NaN) = NaN /\
  calculateArraySimilarity ascii_toLowerCase ascii_trim arrays_scenario
    (VRef 1) (VRef 1) default_options ≡ Fin 0 /\
  ~ (calculateArraySimilarity ascii_toLowerCase ascii_trim arrays_scenario
       (VRef 1) (VRef 1) default_options ≡ Fin 1).
Proof.
  split; [reflexivity|]. split; [reflexivity|].
  split; [vm_compute; reflexivity | vm_compute; discriminate].
Qed.

Lemma array_self_similarity_witness :
  let items := [VStr "React"; VNum (Fin (5#2)); VBool true; VStr "node js"; VRef 0] in
  as_array arrays_scenario (VRef 0) = Some items /\
  items <> [] /\
  Forall finiteValue items /\
  calculateArraySimilarity ascii_toLowerCase ascii_trim arrays_scenario
    (VRef 0) (VRef 0) default_options ≡ Fin 1.
Proof.
  cbv zeta.
  assert (Hf : Forall finiteValue
                 [VStr "React"; VNum (Fin (5#2)); VBool true; VStr "node js"; VRef 0%nat])
    by (repeat constructor).
  split; [reflexivity|]. split; [discriminate|]. split; [exact Hf|].
  apply (array_self_similarity ascii_toLowerCase ascii_trim arrays_scenario (VRef 0)
           [VStr "React"; VNum (Fin (5#2)); VBool true; VStr "node js"; VRef 0%nat]).
  - reflexivity.
  - discriminate.
  - exact Hf.
Defined.

(** * Further properties of the engine *)

(** ** Shape of the membership functions *)

Lemma div_same (q : Q) : 0 < q -> (Fin q / Fin q)%num ≡ Fin 1.
Proof.
  intros Hq. rewrite div_Fin by lra.
  change (q / q == 1). field. lra.
Qed.

(** A well-ordered triangle [a < b < c] has feet of degree 0 at [a] and [c]
    and a peak of degree 1 at [b].  The span of the rising edge is bounded,
    so that the subtraction of the code stays finite. *)
Theorem triangular_feet_and_peak (a b c : Q) :
  a < b -> b < c -> b - a <= maxSpan ->
  triangularMF a a b c = Normal (Fin 0) /\
  (exists r, triangularMF b a b c = Normal (Fin r) /\ r == 1) /\
  (exists r, triangularMF c a b c = Normal (Fin r) /\ r == 0).
Proof.
  intros Hab Hbc _. unfold triangularMF, Num.gtb. split; [|split].
  - rewrite (proj2 (leb_Fin a a)) by lra. reflexivity.
  - rewrite (proj2 (leb_Fin_false b a)) by lra.
    rewrite (proj2 (ltb_Fin a b)), (proj2 (leb_Fin b b)) by lra. cbn [andb].
    cbn [Num.sub Num.neg Num.add]. rewrite div_Fin by lra.
    eexists. split; [reflexivity|]. field. lra.
  - rewrite (proj2 (leb_Fin_false c a)) by lra.
    rewrite (proj2 (ltb_Fin a c)), (proj2 (leb_Fin_false c b)) by lra. cbn [andb].
    rewrite (proj2 (ltb_Fin b c)), (proj2 (leb_Fin c c)) by lra. cbn [andb].
    cbn [Num.sub Num.neg Num.add]. rewrite div_Fin by lra.
    eexists. split; [reflexivity|]. field. lra.
Qed.

Lemma triangular_feet_and_peak_witness :
  1 < 2 /\ 2 < 4 /\ 2 - 1 <= maxSpan /\
  triangularMF 1 1 2 4 = Normal (Fin 0) /\
  (exists r, triangularMF 2 1 2 4 = Normal (Fin r) /\ r == 1) /\
  (exists r, triangularMF 4 1 2 4 = Normal (Fin r) /\ r == 0).
Proof.
  split; [reflexivity|]. split; [reflexivity|].
  split; [vm_compute; discriminate|].
  apply (triangular_feet_and_peak 1 2 4);
    [reflexivity | reflexivity | vm_compute; discriminate].
Defined.

(** The value of the triangular function on each of its pieces. *)
Lemma triangular_rising (x a b c : Q) :
  a < x -> x <= b -> triangularMF x a b c = Normal (Fin ((x + - a) / (b + - a))).
Proof.
  intros H1 H2. unfold triangularMF, Num.gtb.
  rewrite (proj2 (leb_Fin_false x a)) by lra.
  rewrite (proj2 (ltb_Fin a x)), (proj2 (leb_Fin x b)) by lra. cbn [andb].
  cbn [Num.sub Num.neg Num.add]. now rewrite div_Fin by lra.
Qed.

Lemma triangular_falling (x a b c : Q) :
  a < x -> b < x -> x <= c ->
  triangularMF x a b c = Normal (Fin ((c + - x) / (c + - b))).
Proof.
  intros H1 H2 H3. unfold triangularMF, Num.gtb.
  rewrite (proj2 (leb_Fin_false x a)) by lra.
  rewrite (proj2 (ltb_Fin a x)), (proj2 (leb_Fin_false x b)) by lra. cbn [andb].
  rewrite (proj2 (ltb_Fin b x)), (proj2 (leb_Fin x c)) by lra. cbn [andb].
  cbn [Num.sub Num.neg Num.add]. now rewrite div_Fin by lra.
Qed.

Lemma triangular_left (x a b c : Q) :
  x <= a -> triangularMF x a b c = Normal (Fin 0).
Proof.
  intros H. unfold triangularMF. now rewrite (proj2 (leb_Fin x a)) by lra.
Qed.

Lemma Qdiv_le_mono (p q d : Q) : 0 < d -> p <= q -> p / d <= q / d.
Proof.
  intros Hd Hpq. apply Qle_shift_div_l; [exact Hd|].
  assert (H : p / d * d == p) by (field; lra). rewrite H. exact Hpq.
Qed.

(** On a well-ordered triangle the degree is finite, does not decrease from
    the left foot to the peak and does not increase from the peak to the
    right foot.  The spans of the two edges are bounded, so that the
    subtractions of the code stay finite. *)
Theorem triangular_monotone (x y a b c : Q) :
  a < b -> b < c -> x <= y -> b - a <= maxSpan -> c - b <= maxSpan ->
  exists rx ry,
    triangularMF x a b c = Normal (Fin rx) /\
    triangularMF y a b c = Normal (Fin ry) /\
    (y <= b -> rx <= ry) /\
    (b <= x -> ry <= rx).
Proof.
  intros Hab Hbc Hxy _ _.
  destruct (Qlt_le_dec a x) as [Hax|Hxa].
  - destruct (Qlt_le_dec b x) as [Hbx|Hxb].
    + (* both right of the peak *)
      destruct (Qlt_le_dec c x) as [Hcx|Hxc].
      * exists 0, 0. unfold triangularMF, Num.gtb.
        rewrite (proj2 (leb_Fin_false x a)), (proj2 (leb_Fin_false y a)) by lra.
        rewrite (proj2 (leb_Fin_false x b)), (proj2 (leb_Fin_false y b)) by lra.
        rewrite (proj2 (leb_Fin_false x c)), (proj2 (leb_Fin_false y c)) by lra.
        rewrite !andb_false_r. repeat split; intros; lra.
      * destruct (Qlt_le_dec c y) as [Hcy|Hyc].
        -- exists ((c + - x) / (c + - b)), 0.
           split; [apply triangular_falling; lra|]. split.
           { unfold triangularMF, Num.gtb.
             rewrite (proj2 (leb_Fin_false y a)) by lra.
             rewrite (proj2 (leb_Fin_false y b)) by lra.
             rewrite (proj2 (leb_Fin_false y c)) by lra.
             rewrite !andb_false_r. reflexivity. }
           split; [intros; lra|]. intros _.
           apply Qle_shift_div_l; lra.
        -- exists ((c + - x) / (c + - b)), ((c + - y) / (c + - b)).
           split; [apply triangular_falling; lra|].
           split; [apply triangular_falling; lra|].
           split; [intros; lra|]. intros _. apply Qdiv_le_mono; lra.
    + destruct (Qlt_le_dec b y) as [Hby|Hyb].
      * (* x on the rising edge, y beyond the peak *)
        destruct (triangular_degree y a b c) as (ry & Hy & Hry).
        exists ((x + - a) / (b + - a)), ry.
        split; [apply triangular_rising; lra|]. split; [exact Hy|].
        split; [intros; lra|]. intros Hbx.
        assert (Hx1 : (x + - a) / (b + - a) == 1) by (field_simplify_eq; lra).
        rewrite Hx1. lra.
      * exists ((x + - a) / (b + - a)), ((y + - a) / (b + - a)).
        split; [apply triangular_rising; lra|].
        split; [apply triangular_rising; lra|].
        split; [intros _; apply Qdiv_le_mono; lra|].
        intros Hbx.
        assert (Hx1 : (x + - a) / (b + - a) == 1) by (field_simplify_eq; lra).
        assert (Hy1 : (y + - a) / (b + - a) == 1) by (field_simplify_eq; lra).
        rewrite Hx1, Hy1. lra.
  - destruct (triangular_degree y a b c) as (ry & Hy & Hry).
    exists 0, ry. split; [apply triangular_left; lra|]. split; [exact Hy|].
    split; [intros; lra|]. intros; lra.
Qed.

Lemma triangular_monotone_witness :
  1 < 2 /\ 2 < 4 /\ (3#2) <= 2 /\ 2 - 1 <= maxSpan /\ 4 - 2 <= maxSpan /\
  exists rx ry,
    triangularMF (3#2) 1 2 4 = Normal (Fin rx) /\
    triangularMF 2 1 2 4 = Normal (Fin ry) /\
    (2 <= 2 -> rx <= ry) /\
    (2 <= (3#2) -> ry <= rx).
Proof.
  split; [reflexivity|]. split; [reflexivity|]. split; [discriminate|].
  split; [vm_compute; discriminate|]. split; [vm_compute; discriminate|].
  apply (triangular_monotone (3#2) 2 1 2 4);
    [reflexivity | reflexivity | discriminate
    | vm_compute; discriminate | vm_compute; discriminate].
Defined.

(** A trapezoid has degree 1 on its whole plateau: at every [x] of
    [[b, c]] that lies right of the left foot, the left end [b] of the
    plateau included, where the code takes the rising edge.  The span of
    that edge is bounded, so that the subtraction of the code stays
    finite. *)
Theorem trapezoidal_plateau (x a b c d : Q) :
  a < x -> b <= x -> x <= c -> b - a <= maxSpan ->
  exists r, trapezoidalMF x a b c d = Normal (Fin r) /\ r == 1.
Proof.
  intros Hax Hbx Hxc _. unfold trapezoidalMF, Num.gtb.
  rewrite (proj2 (leb_Fin_false x a)) by lra.
  rewrite (proj2 (ltb_Fin a x)) by lra. cbn [andb].
  destruct (Fin x <=? Fin b)%num eqn:E.
  - num_cases. cbn [Num.sub Num.neg Num.add]. rewrite div_Fin by lra.
    eexists. split; [reflexivity|]. field_simplify_eq; lra.
  - num_cases. rewrite (proj2 (ltb_Fin b x)), (proj2 (leb_Fin x c)) by lra.
    exists 1. split; reflexivity.
Qed.

Lemma trapezoidal_plateau_witness :
  1 < 2 /\ 2 <= 2 /\ 2 <= 3 /\ 2 - 1 <= maxSpan /\
  exists r, trapezoidalMF 2 1 2 3 4 = Normal (Fin r) /\ r == 1.
Proof.
  split; [reflexivity|]. split; [discriminate|]. split; [discriminate|].
  split; [vm_compute; discriminate|].
  apply (trapezoidal_plateau 2 1 2 3 4);
    [reflexivity | discriminate | discriminate | vm_compute; discriminate].
Defined.

Section ScorerProperties.

Variable Math_exp : number -> number.
Variable toLowerCase : string -> string.
Variable trim : string -> string.

(** A membership kind that is none of the three named shapes is scored by
    the linear decay [max(0, 1 - |x - target| / max(target * f, 1))]: for a
    finite value, target and fuzzy factor the score is a finite number of
    [[0,1]], it is 1 at the target, and it is 0 once the distance to the
    target reaches the divisor.  The distance is bounded, so that the
    subtraction of the code stays finite. *)
Theorem simple_score_bounded (h : heap) (x target f : Q) (kind : string) :
  kind <> "triangular"%string -> kind <> "trapezoidal"%string ->
  kind <> "gaussian"%string ->
  Qabs (x - target) <= maxSpan ->
  exists r,
    calculateFuzzyScore Math_exp toLowerCase trim h (VNum (Fin x)) (VNum (Fin target))
      (Fin f) kind = Normal (Fin r) /\
    0 <= r <= 1 /\
    (x == target -> r == 1) /\
    (target * f <= Qabs (x - target) -> 1 <= Qabs (x - target) -> r == 0).
Proof.
  intros H1 H2 H3 _. cbn [calculateFuzzyScore].
  rewrite (proj2 (String.eqb_neq _ _) H1), (proj2 (String.eqb_neq _ _) H2),
    (proj2 (String.eqb_neq _ _) H3).
  cbn [Num.mul Num.sub Num.neg Num.add Num.abs].
  assert (Hm : exists m, Num.max (Fin (target * f)) (Fin 1) = Fin m /\ 1 <= m /\
                         (m == 1 \/ m == target * f)).
  { unfold Num.max. destruct (Fin (target * f) <? Fin 1)%num eqn:E; num_cases.
    - exists 1. split; [reflexivity|]. split; [lra|]. left; reflexivity.
    - exists (target * f). split; [reflexivity|]. split; [lra|]. right; reflexivity. }
  destruct Hm as (m & -> & Hm1 & Hm).
  rewrite div_Fin by lra. cbn [Num.neg Num.add].
  set (d := Qabs (x + - target)).
  assert (Hd : 0 <= d) by apply Qabs_nonneg.
  assert (Hdm : 0 <= d / m) by (apply Qle_shift_div_l; lra).
  assert (Hxt : Qabs (x - target) == d) by reflexivity.
  unfold Num.max. destruct (Fin 0 <? Fin (1 + - (d / m)))%num eqn:E; num_cases.
  - exists (1 + - (d / m)).
    split; [reflexivity|]. split; [lra|]. split.
    + intros Heq. assert (Hd0 : d == 0).
      { unfold d. assert (Hz : x + - target == 0) by lra. rewrite Hz. reflexivity. }
      rewrite Hd0. unfold Qdiv. ring.
    + rewrite Hxt. intros Hfar Hone.
      assert (Hmd : m <= d) by (destruct Hm as [Hm|Hm]; rewrite Hm; assumption).
      assert (1 <= d / m) by (apply Qle_shift_div_l; lra). lra.
  - exists 0.
    split; [reflexivity|]. split; [lra|]. split; [|intros; reflexivity].
    intros Heq. assert (Hd0 : d == 0).
    { unfold d. assert (Hz : x + - target == 0) by lra. rewrite Hz. reflexivity. }
    exfalso. rewrite Hd0 in E. unfold Qdiv in E.
    assert (0 * / m == 0) by ring. lra.
Qed.

(** The square of the quotient inside the gaussian function does not depend
    on the sign of [sigma]. *)
Lemma gaussian_square_neg (d sigma : number) :
  (Num.pow (d / - sigma) 2 ≡ Num.pow (d / sigma) 2)%num.
Proof.
  destruct d as [d| | |], sigma as [s| | |]; try exact I;
    cbn [Num.neg Num.div Num.pow].
  - assert (Hz : Qeq_bool (- s) 0 = Qeq_bool s 0).
    { destruct (Qeq_bool s 0) eqn:E.
      - apply Qeq_bool_iff in E. apply Qeq_bool_iff. lra.
      - apply Qeq_bool_neq in E. destruct (Qeq_bool (- s) 0) eqn:E'; [|reflexivity].
        apply Qeq_bool_iff in E'. exfalso. apply E. lra. }
    rewrite Hz. destruct (Qeq_bool s 0) eqn:E.
    + reflexivity.
    + apply Qeq_bool_neq in E. cbn [Num.mul].
      unfold equiv, number_equiv. simpl. field. exact E.
  - reflexivity.
  - reflexivity.
  - unfold Num.sgn. destruct (Qcompare_spec s 0) as [H|H|H];
      destruct (Qcompare_spec (- s) 0) as [H'|H'|H']; try lra; reflexivity.
  - unfold Num.sgn. destruct (Qcompare_spec s 0) as [H|H|H];
      destruct (Qcompare_spec (- s) 0) as [H'|H'|H']; try lra; reflexivity.
Qed.

(** The square of a number is NaN or not negative. *)
Lemma square_sign (q : number) :
  Num.pow q 2 = NaN \/ (Fin 0 <=? Num.pow q 2)%num = true.
Proof.
  destruct q as [u| | |]; cbn [Num.pow Num.mul]; unfold Num.scale_inf, Num.sgn.
  - right. apply leb_Fin. nra.
  - right. reflexivity.
  - right. reflexivity.
  - left. reflexivity.
Qed.

(** The gaussian function applies [Math.exp] to an exponent that is NaN or
    not positive, whatever its arguments; the sign of [sigma] does not
    matter; and at the mean the exponent is zero for every [sigma] that is
    neither zero nor NaN. *)
Theorem gaussian_exponent (x mean sigma : number) :
  exists e e',
    gaussianMF Math_exp x mean sigma = Normal (Math_exp e) /\
    gaussianMF Math_exp x mean (- sigma)%num = Normal (Math_exp e') /\
    e' ≡ e /\
    (e = NaN \/ (e <=? Fin 0)%num = true) /\
    (Num.finite x -> x ≡ mean -> Num.truthy sigma = true -> e ≡ Fin 0).
Proof.
  unfold gaussianMF. do 2 eexists.
  split; [reflexivity|]. split; [reflexivity|]. split; [|split].
  - pose proof (gaussian_square_neg (x - mean)%num sigma) as Hsq.
    destruct (Num.pow ((x - mean) / - sigma) 2)%num as [u| | |],
             (Num.pow ((x - mean) / sigma) 2)%num as [v| | |];
      try contradiction; try exact I.
    unfold equiv, number_equiv in *. simpl in *. now rewrite Hsq.
  - destruct (square_sign ((x - mean) / sigma)%num) as [Hn|Hp].
    + left. rewrite Hn. reflexivity.
    + right. destruct (Num.pow ((x - mean) / sigma) 2)%num as [v| | |];
        try discriminate Hp.
      * apply leb_Fin in Hp. cbn [Num.mul]. apply leb_Fin. nra.
      * reflexivity.
  - intros Hfin Hxm Hs.
    destruct x as [x| | |]; try contradiction.
    destruct mean as [m| | |]; try contradiction.
    unfold equiv, number_equiv in Hxm. simpl in Hxm.
    destruct sigma as [s| | |]; try discriminate Hs.
    + simpl in Hs. apply negb_true_iff in Hs.
      cbn [Num.sub Num.neg Num.add Num.div]. rewrite Hs.
      apply Qeq_bool_neq in Hs.
      cbn [Num.pow Num.mul]. unfold equiv, number_equiv. simpl.
      assert (Hz : x + - m == 0) by lra. rewrite Hz. field. exact Hs.
    + reflexivity.
    + reflexivity.
Qed.

End ScorerProperties.

Lemma simple_score_bounded_witness :
  "simple"%string <> "triangular"%string /\ "simple"%string <> "trapezoidal"%string /\
  "simple"%string <> "gaussian"%string /\
  Qabs (6 - 5) <= maxSpan /\
  exists r,
    calculateFuzzyScore (fun y => y) ascii_toLowerCase ascii_trim ∅
      (VNum (Fin 6)) (VNum (Fin 5)) (Fin (1#5)) "simple" = Normal (Fin r) /\
    0 <= r <= 1 /\
    (6 == 5 -> r == 1) /\
    (5 * (1#5) <= Qabs (6 - 5) -> 1 <= Qabs (6 - 5) -> r == 0).
Proof.
  split; [discriminate|]. split; [discriminate|]. split; [discriminate|].
  split; [vm_compute; discriminate|].
  apply (simple_score_bounded (fun y => y) ascii_toLowerCase ascii_trim ∅ 6 5 (1#5)
           "simple"); [discriminate | discriminate | discriminate
                       | vm_compute; discriminate].
Defined.

(** ** Edit distance and string similarity *)

Lemma lev_fill_bounded (c1 : ascii) (s2 : list ascii) (prev : list nat)
    (left i k : nat) :
  cellsBounded i k prev -> cellsBounded (S i) (S k) (lev_fill c1 s2 prev left).
Proof.
  revert prev left k. induction s2 as [|c2 s2 IH]; intros prev left k Hprev.
  - intros t v Hv. destruct prev; discriminate Hv.
  - destruct prev as [|diag [|up rest]]; try (intros t v Hv; discriminate Hv).
    cbn [lev_fill]. intros t v Hv. destruct t as [|t].
    + injection Hv as <-. pose proof (Hprev 0%nat diag eq_refl) as Hd.
      unfold lev_cell. destruct (Ascii.eqb c1 c2); lia.
    + cbn in Hv. eapply (IH (up :: rest) _ (S k)) in Hv; [lia|].
      intros t' v' Hv'. pose proof (Hprev (S t') v' Hv'). lia.
Qed.

Lemma lev_fill_length (c1 : ascii) (s2 : list ascii) (prev : list nat) (left : nat) :
  length prev = S (length s2) -> length (lev_fill c1 s2 prev left) = length s2.
Proof.
  revert prev left. induction s2 as [|c2 s2 IH]; intros prev left Hlen.
  - destruct prev; reflexivity.
  - destruct prev as [|diag [|up rest]]; try discriminate Hlen.
    cbn [lev_fill length]. f_equal. apply IH. cbn in *. lia.
Qed.

Lemma lev_rows_bounded (s1 s2 : list ascii) (i : nat) (prev : list nat) :
  cellsBounded i 0 prev -> length prev = S (length s2) ->
  cellsBounded (i + length s1) 0 (lev_rows s1 s2 (S i) prev) /\
  length (lev_rows s1 s2 (S i) prev) = S (length s2).
Proof.
  revert i prev. induction s1 as [|c1 s1 IH]; intros i prev Hprev Hlen.
  - cbn. rewrite Nat.add_0_r. split; assumption.
  - cbn [lev_rows length].
    replace (i + S (length s1))%nat with (S i + length s1)%nat by lia.
    apply IH.
    + intros t v Hv. destruct t as [|t].
      * injection Hv as <-. lia.
      * cbn in Hv. apply (lev_fill_bounded c1 s2 prev (S i) i 0 Hprev) in Hv. lia.
    + cbn [length]. now rewrite lev_fill_length.
Qed.

(** The edit distance of two strings is at most the longer length. *)
Lemma levenshtein_le_max (s1 s2 : list ascii) :
  (levenshtein s1 s2 <= Nat.max (length s1) (length s2))%nat.
Proof.
  unfold levenshtein.
  destruct (lev_rows_bounded s1 s2 0 (seq 0 (S (length s2)))) as [Hb Hlen].
  - intros t v Hv. apply lookup_seq in Hv. lia.
  - apply length_seq.
  - set (r := lev_rows s1 s2 1 (seq 0 (S (length s2)))) in *.
    destruct (lookup_lt_is_Some_2 r (length s2)) as [v Hv]; [lia|].
    assert (Hlast : List.last r 0%nat = v).
    { rewrite <- (take_drop (length s2) r).
      rewrite (drop_S r v (length s2) Hv).
      rewrite drop_ge by lia. now rewrite last_last. }
    rewrite Hlast. pose proof (Hb _ _ Hv). cbn in *. lia.
Qed.

Lemma string_length_list (s : string) :
  length (list_ascii_of_string s) = String.length s.
Proof. induction s as [|c s IH]; [reflexivity|]. cbn. now rewrite IH. Qed.

Section StringSimilarityProperties.

Variable toLowerCase : string -> string.
Variable trim : string -> string.

(** The string similarity is always a finite number of [[0,1]]; it is 1
    when the two strings agree after lower-casing and trimming, and 0 when
    exactly one of them is then empty. *)
Theorem string_similarity_range (str1 str2 : string) :
  let s1 := trim (toLowerCase str1) in
  let s2 := trim (toLowerCase str2) in
  exists r,
    calculateStringSimilarity toLowerCase trim str1 str2 = Fin r /\
    0 <= r <= 1 /\
    (s1 = s2 -> r == 1) /\
    ((s1 = EmptyString /\ s2 <> EmptyString) \/
     (s1 <> EmptyString /\ s2 = EmptyString) -> r == 0).
Proof.
  intros s1 s2. unfold calculateStringSimilarity. fold s1 s2.
  assert (Hlen0 : forall s, (String.length s =? 0)%nat = true <-> s = EmptyString).
  { intros s. rewrite Nat.eqb_eq. destruct s; cbn; split; congruence. }
  destruct (String.length s1 =? 0)%nat eqn:E1;
    destruct (String.length s2 =? 0)%nat eqn:E2; cbn [andb orb].
  - exists 1. split; [reflexivity|]. split; [lra|]. split; [reflexivity|].
    apply Hlen0 in E1, E2. intros [[_ H]|[H _]]; congruence.
  - exists 0. split; [reflexivity|]. split; [lra|].
    apply Hlen0 in E1. split; [|reflexivity].
    intros Heq. rewrite <- Heq, E1 in E2. discriminate.
  - exists 0. split; [reflexivity|]. split; [lra|].
    apply Hlen0 in E2. split; [|reflexivity].
    intros Heq. rewrite Heq, E2 in E1. discriminate.
  - assert (Hne1 : s1 <> EmptyString) by (intros H; apply Hlen0 in H; congruence).
    assert (Hne2 : s2 <> EmptyString) by (intros H; apply Hlen0 in H; congruence).
    destruct (String.eqb s1 s2) eqn:E.
    + exists 1. split; [reflexivity|]. split; [lra|]. split; [reflexivity|].
      intros [[H _]|[_ H]]; contradiction.
    + apply Nat.eqb_neq in E1.
      set (d := levenshtein (list_ascii_of_string s1) (list_ascii_of_string s2)).
      set (m := Nat.max (String.length s1) (String.length s2)).
      assert (Hd : (d <= m)%nat).
      { unfold d, m. rewrite <- !string_length_list. apply levenshtein_le_max. }
      assert (Hm : (0 < m)%nat) by (unfold m; lia).
      unfold Num.of_nat.
      assert (Hmq : 0 < inject_Z (Z.of_nat m)).
      { change 0 with (inject_Z 0). rewrite <- Zlt_Qlt. lia. }
      assert (Hdq : 0 <= inject_Z (Z.of_nat d) <= inject_Z (Z.of_nat m)).
      { split; [change 0 with (inject_Z 0)|]; rewrite <- Zle_Qle; lia. }
      rewrite div_Fin by lra. cbn [Num.sub Num.neg Num.add].
      eexists. split; [reflexivity|].
      pose proof (ratio_unit _ _ (proj1 Hdq) (proj2 Hdq) Hmq) as Hr.
      split; [lra|]. split.
      * intros Heq. apply String.eqb_neq in E. contradiction.
      * intros [[H _]|[_ H]]; contradiction.
Qed.

End StringSimilarityProperties.

(** ** Range of the array similarity *)

Lemma bestMatch_spec (row : list number) (j : nat) (idx : option nat) (s : number) :
  bestMatch row j idx s = (idx, s) \/
  exists t x, bestMatch row j idx s = (Some (j + t)%nat, x) /\ row !! t = Some x.
Proof.
  revert j idx s. induction row as [|x row IH]; intros j idx s.
  - left. reflexivity.
  - cbn [bestMatch]. destruct (x >? s)%num.
    + destruct (IH (S j) (Some j) x) as [H|(t & y & H & Hy)].
      * right. exists 0%nat, x. rewrite H, Nat.add_0_r. split; reflexivity.
      * right. exists (S t), y. rewrite H. split; [f_equal; f_equal; lia|exact Hy].
    + destruct (IH (S j) idx s) as [H|(t & y & H & Hy)].
      * left. exact H.
      * right. exists (S t), y. rewrite H. split; [f_equal; f_equal; lia|exact Hy].
Qed.

Lemma nth_nil_or_elem {A : Type} (l : list (list A)) (i : nat) :
  nth i l [] = [] \/ nth i l [] ∈ l.
Proof.
  destruct (l !! i) as [x|] eqn:E.
  - right. rewrite (nth_lookup_Some l i [] x E). eapply list_elem_of_lookup_2, E.
  - left. apply nth_overflow. now apply lookup_ge_None.
Qed.

Lemma Forall_delete_unit (idx : nat) (r : list number) :
  Forall unitScore r -> Forall unitScore (delete idx r).
Proof.
  intros H. apply Forall_forall. intros x Hx.
  apply (proj1 (Forall_forall _ _) H). eapply list_elem_of_delete_inv, Hx.
Qed.

Lemma matchRow_invariant (thr : number) (m i : nat) (st : matching) :
  greedyInvariant m i st -> greedyInvariant m (S i) (matchRow thr st i).
Proof.
  intros (Hi & Hm & Hlen & Hunit & T & HT & HTb).
  assert (Hsame : greedyInvariant m (S i) st).
  { split; [lia|]. split; [exact Hm|]. split; [exact Hlen|]. split; [exact Hunit|].
    exists T. split; assumption. }
  unfold matchRow.
  destruct (nth_nil_or_elem (rows st) i) as [Hnil|Hin]; [now rewrite Hnil|].
  destruct (nth i (rows st) []) as [|x row] eqn:Erow; [exact Hsame|].
  destruct (bestMatch_spec (x :: row) 0 None (thr - Fin (1#100))%num)
    as [->|(t & y & -> & Hy)]; [exact Hsame|].
  cbn [Nat.add].
  assert (Hrowlen : length (x :: row) = (m - matchCount st)%nat).
  { apply (proj1 (Forall_forall _ _) Hlen). exact Hin. }
  assert (Ht : (t < m - matchCount st)%nat).
  { rewrite <- Hrowlen. eapply lookup_lt_Some. exact Hy. }
  assert (Hyunit : unitScore y).
  { pose proof (proj1 (Forall_forall _ _) Hunit _ Hin) as Hrow.
    apply (proj1 (Forall_forall _ _) Hrow). eapply list_elem_of_lookup_2, Hy. }
  destruct Hyunit as (q & -> & Hq).
  split; [cbn; lia|]. split; [cbn; lia|]. cbn [rows matchCount totalSimilarity].
  split.
  { unfold removeColumn. apply Forall_fmap. eapply Forall_impl; [exact Hlen|].
    unfold compose. intros r Hr.
    assert (Htr : (t <? length r)%nat = true) by (apply Nat.ltb_lt; lia).
    rewrite Htr, length_delete by (apply lookup_lt_is_Some_2; lia). lia. }
  split.
  { unfold removeColumn. apply Forall_fmap. eapply Forall_impl; [exact Hunit|].
    unfold compose. intros r Hr. destruct (t <? length r)%nat; [|exact Hr].
    now apply Forall_delete_unit. }
  exists (T + q). rewrite HT. split; [reflexivity|].
  rewrite Nat2Z.inj_succ. unfold Z.succ. rewrite inject_Z_plus.
  change (inject_Z 1) with 1. lra.
Qed.

Lemma greedy_invariant_loop (thr : number) (m k i : nat) (st : matching) :
  greedyInvariant m i st ->
  greedyInvariant m (i + k) (fold_left (matchRow thr) (seq i k) st).
Proof.
  revert i st. induction k as [|k IH]; intros i st Hst.
  - cbn. now rewrite Nat.add_0_r.
  - cbn [seq fold_left]. replace (i + S k)%nat with (S i + k)%nat by lia.
    apply IH. now apply matchRow_invariant.
Qed.

Section ArraySimilarityRange.

Variable toLowerCase : string -> string.
Variable trim : string -> string.

Lemma itemSimilarity_unit (cs : bool) (s t : value) :
  finiteValue s -> finiteValue t ->
  unitScore (itemSimilarity toLowerCase trim cs s t).
Proof.
  intros Hs Ht.
  assert (H0 : unitScore (Fin 0)) by (exists 0; split; [reflexivity|lra]).
  assert (H1 : unitScore (Fin 1)) by (exists 1; split; [reflexivity|lra]).
  destruct s as [| |b|[a| | |]|a|l]; try contradiction;
    destruct t as [| |b'|[a'| | |]|a'|l']; try contradiction;
    cbn [itemSimilarity];
    try (destruct (strict_eq _ _); assumption).
  - set (m := Num.max (Num.abs (Fin a)) (Num.abs (Fin a'))).
    assert (Hm : exists q, m = Fin q /\ 0 <= q).
    { unfold m, Num.max, Num.abs.
      destruct (Fin (Qabs a) <? Fin (Qabs a'))%num; eexists; split;
        try reflexivity; apply Qabs_nonneg. }
    destruct Hm as (q & -> & Hq).
    destruct (Fin q =? Fin 0)%num eqn:E; [exact H1|].
    assert (Hq0 : ~ q == 0) by (intros H; apply eqb_Fin in H; congruence).
    cbn [Num.abs Num.sub Num.neg Num.add]. rewrite div_Fin by exact Hq0.
    cbn [Num.neg Num.add].
    assert (0 <= Qabs (a + - a') / q).
    { apply Qle_shift_div_l; [lra|]. pose proof (Qabs_nonneg (a + - a')). lra. }
    unfold Num.max. destruct (Fin 0 <? _)%num eqn:E'; [|exact H0].
    num_cases. eexists. split; [reflexivity|]. lra.
  - destruct (string_similarity_range toLowerCase trim
                (if cs then a else toLowerCase a)
                (if cs then a' else toLowerCase a')) as (r & -> & Hr & _).
    exists r. split; [reflexivity|exact Hr].
Qed.

(** The similarity of two arrays whose numbers are finite is itself a
    finite number of [[0,1]], whatever the options. *)
Theorem array_similarity_range (h : heap) (sourceArray targetArray : value)
    (source target : list value) (opts : options) :
  as_array h sourceArray = Some source ->
  as_array h targetArray = Some target ->
  Forall finiteValue source -> Forall finiteValue target ->
  exists r,
    calculateArraySimilarity toLowerCase trim h sourceArray targetArray opts = Fin r /\
    0 <= r <= 1.
Proof.
  intros Hs Ht Hfs Hft. unfold calculateArraySimilarity. rewrite Hs, Ht.
  destruct ((length source =? 0)%nat && (length target =? 0)%nat) eqn:E1;
    [exists 1; split; [reflexivity|lra]|].
  destruct ((length source =? 0)%nat || (length target =? 0)%nat) eqn:E2;
    [exists 0; split; [reflexivity|lra]|].
  apply orb_false_iff in E2. destruct E2 as [En Em].
  apply Nat.eqb_neq in En, Em.
  set (M := similarityMatrix toLowerCase trim (caseSensitive opts) source target).
  assert (Hcols : Forall (fun row => length row = length target) M).
  { apply Forall_forall. intros row Hrow. unfold M, similarityMatrix in Hrow.
    apply list_elem_of_fmap in Hrow. destruct Hrow as (s & -> & _). apply length_map. }
  assert (Hunit : Forall (Forall unitScore) M).
  { apply Forall_forall. intros row Hrow. unfold M, similarityMatrix in Hrow.
    apply list_elem_of_fmap in Hrow. destruct Hrow as (s & -> & Hin).
    apply Forall_forall. intros x Hx.
    apply list_elem_of_fmap in Hx. destruct Hx as (t & -> & Hint).
    apply itemSimilarity_unit.
    - apply (proj1 (Forall_forall _ _) Hfs). exact Hin.
    - apply (proj1 (Forall_forall _ _) Hft). exact Hint. }
  rewrite primaryArray_rows by exact Hcols.
  assert (HM : length M = length source) by apply length_map.
  destruct (greedy_invariant_loop (threshold opts) (length target) (length M) 0
              {| rows := M; totalSimilarity := Fin 0; matchCount := 0 |})
    as (Hi & Hm & _ & _ & T & HT & HTb).
  { split; [cbn; lia|]. split; [cbn; lia|]. cbn [rows matchCount].
    rewrite Nat.sub_0_r. split; [exact Hcols|]. split; [exact Hunit|].
    exists 0. split; [reflexivity|]. split; discriminate. }
  fold (greedyMatch (threshold opts) M) in Hi, Hm, HT, HTb.
  set (st := greedyMatch (threshold opts) M) in *.
  set (k := Nat.min (length source) (length target)).
  assert (Hk : (0 < k)%nat) by (unfold k; lia).
  rewrite (proj2 (Nat.eqb_neq k 0)) by lia.
  assert (Hck : (matchCount st <= k)%nat) by (unfold k; lia).
  assert (Hkq : 0 < inject_Z (Z.of_nat k)).
  { change 0 with (inject_Z 0). rewrite <- Zlt_Qlt. lia. }
  assert (Hcq : 0 <= inject_Z (Z.of_nat (matchCount st)) <= inject_Z (Z.of_nat k)).
  { split; [change 0 with (inject_Z 0)|]; rewrite <- Zle_Qle; lia. }
  unfold Num.of_nat. rewrite (div_Fin _ (inject_Z (Z.of_nat k))) by lra.
  pose proof (ratio_unit _ _ (proj1 Hcq) (proj2 Hcq) Hkq) as Hcov.
  destruct (0 <? matchCount st)%nat eqn:Ec.
  - apply Nat.ltb_lt in Ec.
    assert (Hcpos : 0 < inject_Z (Z.of_nat (matchCount st))).
    { change 0 with (inject_Z 0). rewrite <- Zlt_Qlt. lia. }
    rewrite HT, div_Fin by lra. cbn [Num.mul Num.add].
    pose proof (ratio_unit _ _ (proj1 HTb) (proj2 HTb) Hcpos) as Hq.
    eexists. split; [reflexivity|]. lra.
  - cbn [Num.mul Num.add]. eexists. split; [reflexivity|]. lra.
Qed.

End ArraySimilarityRange.

Lemma array_similarity_range_witness :
  let items := [VStr "React"; VNum (Fin (5#2)); VBool true; VStr "node js"; VRef 0] in
  as_array arrays_scenario (VRef 0) = Some items /\
  Forall finiteValue items /\
  exists r,
    calculateArraySimilarity ascii_toLowerCase ascii_trim arrays_scenario
      (VRef 0) (VRef 0) default_options = Fin r /\ 0 <= r <= 1.
Proof.
  cbv zeta.
  assert (Hf : Forall finiteValue
                 [VStr "React"; VNum (Fin (5#2)); VBool true; VStr "node js"; VRef 0%nat])
    by (repeat constructor).
  split; [reflexivity|]. split; [exact Hf|].
  apply (array_similarity_range ascii_toLowerCase ascii_trim arrays_scenario
           (VRef 0) (VRef 0) _ _ default_options eq_refl eq_refl Hf Hf).
Defined.
(** ** Range of the weighted sums *)

Lemma confidenceFor_within (confidenceScores : gmap string number) (key : string) :
  inherited key = false ->
  map_Forall (fun _ c => within 0 1 c) confidenceScores ->
  within 0 1 (confidenceFor confidenceScores key).
Proof.
  intros Hkey Hc. unfold confidenceFor. rewrite Hkey.
  destruct (confidenceScores !! key) as [c|] eqn:E.
  - destruct (Num.truthy c); [exact (Hc _ _ E)|].
    exists 1. split; [reflexivity|lra].
  - exists 1. split; [reflexivity|lra].
Qed.

Lemma natQ_succ (n : nat) : natQ (S n) == natQ n + 1.
Proof.
  unfold natQ. rewrite Nat2Z.inj_succ. unfold Z.succ. rewrite inject_Z_plus.
  reflexivity.
Qed.

Lemma wsm_confidence_fold (attributes confidenceScores : gmap string number)
    (weights : dict) (n : nat) (st : wsmState) :
  Forall (fun entry => inherited (fst entry) = false) weights ->
  map_Forall (fun _ c => within 0 1 c) confidenceScores ->
  confidenceTotalBound n st ->
  confidenceTotalBound (n + length weights)
    (fold_left (wsmStep attributes confidenceScores) weights st).
Proof.
  intros Hkeys Hc. revert n st.
  induction Hkeys as [|[key w] ws Hkey _ IH]; intros n st Hst.
  - cbn. now rewrite Nat.add_0_r.
  - cbn [fold_left length].
    replace (n + S (length ws))%nat with (S n + length ws)%nat by lia.
    apply IH. destruct Hst as (C & HC & Hb). unfold wsmStep.
    destruct (definedAttribute attributes key) as [v|].
    + destruct (confidenceFor_within confidenceScores key Hkey Hc) as (c & Hcf & Hcb).
      exists (C + c). cbn [wsm_totalConfidence]. rewrite HC, Hcf.
      split; [reflexivity|]. rewrite natQ_succ. lra.
    + exists C. split; [exact HC|]. rewrite natQ_succ. lra.
Qed.

(** The confidence the weighted sum returns lies in [[0,1]] when the
    confidences supplied do, whatever the attributes and the weights: each
    matched key adds at most one, and the total is divided by the number of
    declared keys.  The declared keys name no inherited member. *)
Theorem wsm_confidence_range (attributes : gmap string number)
    (weights : dict) (confidenceScores : gmap string number) :
  Forall (fun entry => inherited (fst entry) = false) weights ->
  map_Forall (fun _ c => within 0 1 c) confidenceScores ->
  within 0 1 (confidence (applyWSM attributes weights confidenceScores)).
Proof.
  intros Hkeys Hc.
  assert (H0 : confidenceTotalBound 0
                 {| wsm_score := Fin 0; wsm_totalWeight := Fin 0;
                    wsm_totalConfidence := Fin 0 |}).
  { exists 0. split; [reflexivity|]. split; discriminate. }
  pose proof (wsm_confidence_fold attributes confidenceScores weights 0%nat _
                Hkeys Hc H0) as (C & HC & Hb).
  cbn [Nat.add] in Hb. unfold applyWSM. cbn [confidence]. rewrite HC.
  destruct (0 <? length weights)%nat eqn:E.
  - apply Nat.ltb_lt in E. unfold Num.of_nat. fold (natQ (length weights)) in *.
    assert (Hn : 0 < natQ (length weights)).
    { unfold natQ. change 0 with (inject_Z 0). rewrite <- Zlt_Qlt. lia. }
    rewrite div_Fin by lra. eexists. split; [reflexivity|].
    apply ratio_unit; lra.
  - exists 1. split; [reflexivity|lra].
Qed.

Lemma wsm_confidence_range_witness :
  let attributes : gmap string number := {[ "a"%string := Fin 7 ]} in
  let weights : dict := [("a"%string, Fin 1); ("b"%string, Fin 2)] in
  let confidenceScores : gmap string number := {[ "a"%string := Fin (1#2) ]} in
  Forall (fun entry => inherited (fst entry) = false) weights /\
  map_Forall (fun _ c => within 0 1 c) confidenceScores /\
  within 0 1 (confidence (applyWSM attributes weights confidenceScores)).
Proof.
  cbv zeta.
  assert (Hk : Forall (fun entry : string * number => inherited (fst entry) = false)
                 [("a"%string, Fin 1); ("b"%string, Fin 2)])
    by (repeat constructor).
  assert (Hc : map_Forall (fun _ c => within 0 1 c)
                 ({[ "a"%string := Fin (1#2) ]} : gmap string number)).
  { apply map_Forall_singleton. exists (1#2). split; [reflexivity|]. split; discriminate. }
  split; [exact Hk|]. split; [exact Hc|].
  exact (wsm_confidence_range _ _ _ Hk Hc).
Defined.







(** ** Stage aggregation *)

(** On a stage that names no inherited member, the weight counts exactly
    when the own entry is truthy. *)
Lemma truthyWeight_own (stageWeights : gmap string number) (stage : string) :
  inherited stage = false ->
  truthyWeight stageWeights stage
  = match stageWeights !! stage with
    | Some w => if Num.truthy w then Some w else None
    | None => None
    end.
Proof. intros Hs. unfold truthyWeight. now rewrite Hs. Qed.

Lemma truthy_weightOrZero (stageWeights : gmap string number) (stage : string) :
  inherited stage = false ->
  Num.truthy (weightOrZero stageWeights stage)
  = match stageWeights !! stage with
    | Some w => Num.truthy w
    | None => false
    end.
Proof.
  intros Hs. unfold weightOrZero. rewrite Hs.
  destruct (stageWeights !! stage) as [w|]; [|reflexivity].
  destruct (Num.truthy w) eqn:E; [exact E|reflexivity].
Qed.

Lemma stage_fold_used (stageWeights stageConfidences : gmap string number)
    (stageScores : dict) (st : wsmState) :
  Forall (fun entry => inherited (fst entry) = false) stageScores ->
  fold_left (stageStep stageWeights stageConfidences)
    (List.filter (fun entry => Num.truthy (weightOrZero stageWeights (fst entry)))
                 stageScores) st
  = fold_left (stageStep stageWeights stageConfidences) stageScores st.
Proof.
  intros Hkeys. revert st.
  induction Hkeys as [|[stage v] ss Hkey _ IH]; intros st; [reflexivity|].
  cbn [fst] in Hkey.
  cbn [List.filter fst fold_left]. rewrite (truthy_weightOrZero _ _ Hkey).
  assert (Hstep : forall s,
            stageStep stageWeights stageConfidences s (stage, v)
            = match stageWeights !! stage with
              | Some w =>
                  if Num.truthy w then
                    stageStep stageWeights stageConfidences s (stage, v)
                  else s
              | None => s
              end).
  { intros s. unfold stageStep. rewrite (truthyWeight_own _ _ Hkey).
    destruct (stageWeights !! stage) as [w|]; [|reflexivity].
    destruct (Num.truthy w); reflexivity. }
  destruct (stageWeights !! stage) as [w|] eqn:E.
  - destruct (Num.truthy w) eqn:Et.
    + cbn [fold_left]. apply IH.
    + rewrite (Hstep st). apply IH.
  - rewrite (Hstep st). apply IH.
Qed.

(** A stage whose weight is missing, zero or NaN has no influence on the
    aggregate: leaving it out of the scores gives the same score and the
    same confidence.  The stages name no inherited member. *)
Theorem stage_without_weight_ignored (stageScores : dict)
    (stageWeights stageConfidences : gmap string number) :
  Forall (fun entry => inherited (fst entry) = false) stageScores ->
  aggregateStageScores
    (List.filter (fun entry => Num.truthy (weightOrZero stageWeights (fst entry)))
                 stageScores)
    stageWeights stageConfidences
  = aggregateStageScores stageScores stageWeights stageConfidences.
Proof.
  intros Hkeys. unfold aggregateStageScores. now rewrite stage_fold_used.
Qed.

Lemma stage_without_weight_ignored_witness :
  let stageScores : dict :=
    [("phoneScreen"%string, Fin (4#5)); ("codingInterview"%string, Fin (3#5))] in
  let stageWeights : gmap string number :=
    {[ "phoneScreen"%string := Fin (3#10); "codingInterview"%string := Fin 0 ]} in
  Forall (fun entry => inherited (fst entry) = false) stageScores /\
  aggregateStageScores
    (List.filter (fun entry => Num.truthy (weightOrZero stageWeights (fst entry)))
                 stageScores)
    stageWeights ∅
  = aggregateStageScores stageScores stageWeights ∅.
Proof.
  cbv zeta.
  assert (Hk : Forall (fun entry : string * number => inherited (fst entry) = false)
                 [("phoneScreen"%string, Fin (4#5));
                  ("codingInterview"%string, Fin (3#5))])
    by (repeat constructor).
  split; [exact Hk|].
  exact (stage_without_weight_ignored _ _ ∅ Hk).
Defined.



(** ** Alpha cut *)

Lemma geb_Fin (a b : Q) : (Fin a >=? Fin b)%num = true <-> b <= a.
Proof. unfold Num.geb. apply leb_Fin. Qed.



(** Raising the threshold of the alpha cut only removes entries. *)
Theorem alpha_cut_antitone {A : Type} (attributes : list (string * A))
    (confidenceScores : gmap string number) (low high : Q) :
  low <= high ->
  applyAlphaCut (applyAlphaCut attributes confidenceScores (Fin low))
      confidenceScores (Fin high)
    = applyAlphaCut attributes confidenceScores (Fin high).
Proof.
  intros Hlh. unfold applyAlphaCut.
  induction attributes as [|[key v] rest IH]; [reflexivity|].
  cbn [List.filter fst].
  destruct (negb (String.eqb key "__proto__")) eqn:Ep;
    rewrite ?andb_false_r, ?andb_true_r; [|exact IH].
  destruct (confidenceFor confidenceScores key >=? Fin high)%num eqn:Eh.
  - assert (El : (confidenceFor confidenceScores key >=? Fin low)%num = true).
    { destruct (confidenceFor confidenceScores key) as [c| | |];
        try discriminate Eh; try reflexivity.
      apply geb_Fin in Eh. apply geb_Fin. lra. }
    rewrite El. cbn [List.filter fst]. rewrite Eh, Ep. cbn [andb]. now rewrite IH.
  - destruct (confidenceFor confidenceScores key >=? Fin low)%num; [|exact IH].
    cbn [List.filter fst]. rewrite Eh. cbn [andb]. exact IH.
Qed.


Lemma alpha_cut_antitone_witness :
  (3#10) <= (9#10) /\
  applyAlphaCut
    (applyAlphaCut [("skills"%string, Fin (4#5)); ("education"%string, Fin (1#2))]
                   {[ "skills"%string := Fin (1#2) ]} (Fin (3#10)))
    {[ "skills"%string := Fin (1#2) ]} (Fin (9#10))
  = applyAlphaCut [("skills"%string, Fin (4#5)); ("education"%string, Fin (1#2))]
                  {[ "skills"%string := Fin (1#2) ]} (Fin (9#10)).
Proof.
  split; [discriminate|].
  apply (alpha_cut_antitone
           [("skills"%string, Fin (4#5)); ("education"%string, Fin (1#2))]
           {[ "skills"%string := Fin (1#2) ]} (3#10) (9#10)).
  discriminate.
Defined.

(** ** Sorting with a consistent comparator *)

(** When the sign of the comparator follows a transitive relation [before]
    on the elements at hand, the sorted list is a permutation in which every
    element stands before all later ones. *)
Lemma js_sort_sorted {A : Type} (cmp : A -> A -> number) (P : A -> Prop)
    (before : A -> A -> Prop) (l : list A) :
  (forall x y, P x -> P y -> (cmp x y >? Fin 0)%num = false -> before x y) ->
  (forall x y, P x -> P y -> (cmp x y >? Fin 0)%num = true -> before y x) ->
  (forall x y z, P x -> P y -> P z -> before x y -> before y z -> before x z) ->
  Forall P l ->
  StronglySorted before (js_sort cmp l).
Proof.
  intros Hle Hgt Htrans HP.
  assert (Hins : forall x s, P x -> Forall P s -> StronglySorted before s ->
                   StronglySorted before (sort_insert cmp x s)).
  { intros x s Hx. induction s as [|y s IH]; intros Hs Hsorted.
    - repeat constructor.
    - apply Forall_cons in Hs. destruct Hs as [Hy Hs].
      apply StronglySorted_inv in Hsorted. destruct Hsorted as [Hsorted Hall].
      cbn [sort_insert]. destruct (cmp x y >? Fin 0)%num eqn:E.
      + constructor; [now apply IH|].
        rewrite (sort_insert_perm cmp x s). constructor; [|exact Hall].
        now apply Hgt.
      + constructor; [now constructor|].
        constructor; [now apply Hle|].
        apply Forall_forall. intros z Hz.
        apply (Htrans x y z); auto.
        * apply (proj1 (Forall_forall _ _) Hs). exact Hz.
        * apply (proj1 (Forall_forall _ _) Hall). exact Hz. }
  induction HP as [|x l Hx HP IH]; [constructor|].
  unfold js_sort in *. cbn [foldr]. apply Hins; [exact Hx| |exact IH].
  fold (js_sort cmp l). now rewrite js_sort_perm.
Qed.

(** ** Ordered weighted average *)






Lemma sum_exact (l : list number) (q : Q) :
  Forall Num.finite l ->
  exists q', fold_left (fun acc w => (acc + w)%num) l (Fin q) = Fin q' /\
             q' == q + exactTotal l.
Proof.
  intros Hl. revert q. induction Hl as [|x l Hx _ IH]; intros q.
  - exists q. split; [reflexivity|]. cbn. lra.
  - destruct x as [a| | |]; try contradiction. cbn [fold_left Num.add].
    destruct (IH (q + a)) as (q' & -> & Hq'). exists q'. split; [reflexivity|].
    cbn [exactTotal foldr rationalOf]. fold (exactTotal l). lra.
Qed.

Lemma exactTotal_perm (l l' : list number) :
  l ≡ₚ l' -> exactTotal l == exactTotal l'.
Proof.
  induction 1 as [|x l l' _ IH|x y l|l l' l'' _ IH1 _ IH2]; cbn.
  - reflexivity.
  - fold (exactTotal l) (exactTotal l'). lra.
  - fold (exactTotal l). lra.
  - lra.
Qed.

Lemma owa_fold_uniform (w c : Q) (weights : gmap string number)
    (owaWeights : list number) (pairs : dict) (start : nat) (S0 W0 : Q) :
  Forall (fun entry => Num.finite (snd entry)) pairs ->
  Forall (fun entry => weightOrZero weights (fst entry) = Fin w) pairs ->
  Forall (fun o => o = Fin c) owaWeights ->
  (start + length pairs <= length owaWeights)%nat ->
  exists S1 W1,
    fold_left (owaStep weights owaWeights)
              (zip (seq start (length pairs)) pairs)
              {| owa_score := Fin S0; owa_totalAppliedWeight := Fin W0 |}
    = {| owa_score := Fin S1; owa_totalAppliedWeight := Fin W1 |} /\
    S1 == S0 + w * c * exactTotal (map snd pairs) /\
    W1 == W0 + inject_Z (Z.of_nat (length pairs)) * (w * c).
Proof.
  intros Hfin Hw Ho. revert start S0 W0.
  induction pairs as [|[key v] pairs IH]; intros start S0 W0 Hlen.
  - exists S0, W0. split; [reflexivity|]. cbn. split; ring.
  - apply Forall_cons in Hfin. destruct Hfin as [Hv Hfin].
    apply Forall_cons in Hw. destruct Hw as [Hk Hw].
    cbn [fst snd] in Hv, Hk. destruct v as [q| | |]; try contradiction.
    cbn [length] in Hlen.
    cbn [length seq zip zip_with fold_left]. unfold owaStep at 2.
    rewrite Hk, (proj2 (Nat.ltb_lt start (length owaWeights))) by lia.
    destruct (lookup_lt_is_Some_2 owaWeights start) as [o Hoq]; [lia|].
    unfold cell_at. rewrite (nth_lookup_Some _ _ NaN o Hoq).
    assert (Hoc : o = Fin c).
    { apply (proj1 (Forall_forall _ _) Ho). eapply list_elem_of_lookup_2, Hoq. }
    subst o. cbn [owa_score owa_totalAppliedWeight Num.add Num.mul].
    destruct (IH Hfin Hw (S start) (S0 + q * w * c) (W0 + w * c)) as
      (S1 & W1 & -> & HS1 & HW1); [lia|].
    exists S1, W1. split; [reflexivity|].
    cbn [map snd exactTotal foldr rationalOf]. fold (exactTotal (map snd pairs)).
    rewrite Nat2Z.inj_succ. unfold Z.succ. rewrite inject_Z_plus.
    change (inject_Z 1) with 1. split; [rewrite HS1|rewrite HW1]; ring.
Qed.

(** With the same positive weight on every criterion and the same positive
    positional weight on every rank (the balanced profile), the ordered
    weighted average of finite values is their plain mean. *)
Theorem owa_uniform_is_mean (w c : Q) (attributes : dict)
    (weights : gmap string number) (owaWeights : list number) :
  0 < w -> 0 < c -> attributes <> [] ->
  Forall (fun entry => Num.finite (snd entry)) attributes ->
  Forall (fun entry => weightOrZero weights (fst entry) = Fin w) attributes ->
  Forall (fun o => o = Fin c) owaWeights ->
  (length attributes <= length owaWeights)%nat ->
  applyOWA attributes weights owaWeights
  ≡ (sum (map snd attributes) / Num.of_nat (length attributes))%num.
Proof.
  intros Hw0 Hc0 Hne Hfin Hw Ho Hlen. unfold applyOWA.
  set (sortedPairs := js_sort (fun a b => (snd b - snd a)%num) attributes).
  assert (Hperm : sortedPairs ≡ₚ attributes) by apply js_sort_perm.
  assert (Hfin' : Forall (fun entry => Num.finite (snd entry)) sortedPairs)
    by (now rewrite Hperm).
  assert (Hw' : Forall (fun entry => weightOrZero weights (fst entry) = Fin w)
                       sortedPairs) by (now rewrite Hperm).
  assert (Hn : length sortedPairs = length attributes)
    by (now apply Permutation_length).
  destruct (owa_fold_uniform w c weights owaWeights sortedPairs 0 0 0 Hfin' Hw' Ho)
    as (S1 & W1 & -> & HS1 & HW1); [cbn; lia|].
  cbn [owa_score owa_totalAppliedWeight].
  assert (Hlenpos : 0 < inject_Z (Z.of_nat (length attributes))).
  { change 0 with (inject_Z 0). rewrite <- Zlt_Qlt.
    destruct attributes; [congruence|cbn; lia]. }
  rewrite Hn in HW1.
  assert (Hwc : 0 < w * c) by (apply Qmult_lt_0_compat; assumption).
  assert (Hnwc : 0 < inject_Z (Z.of_nat (length attributes)) * (w * c))
    by (apply Qmult_lt_0_compat; assumption).
  assert (HW1pos : 0 < W1) by (rewrite HW1; lra).
  rewrite (proj2 (gtb_Fin W1 0)) by exact HW1pos.
  rewrite div_Fin by lra.
  destruct (sum_exact (map snd attributes) 0) as (T & HT & HTq).
  { apply Forall_fmap. exact Hfin. }
  unfold sum. rewrite HT. unfold Num.of_nat. rewrite div_Fin by lra.
  change (S1 / W1 == T / inject_Z (Z.of_nat (length attributes))).
  rewrite HS1, HW1, HTq.
  rewrite (exactTotal_perm (map snd sortedPairs) (map snd attributes))
    by (now apply Permutation_map).
  field. split; lra.
Qed.

Lemma owa_uniform_is_mean_witness :
  let attributes : dict := [("a"%string, Fin (1#2)); ("b"%string, Fin (9#10))] in
  let weights : gmap string number := {[ "a"%string := Fin (1#2); "b"%string := Fin (1#2) ]} in
  let owaWeights := [Fin (1#2); Fin (1#2)] in
  0 < (1#2) /\ attributes <> [] /\
  Forall (fun entry => Num.finite (snd entry)) attributes /\
  Forall (fun entry => weightOrZero weights (fst entry) = Fin (1#2)) attributes /\
  Forall (fun o => o = Fin (1#2)) owaWeights /\
  (length attributes <= length owaWeights)%nat /\
  applyOWA attributes weights owaWeights
  ≡ (sum (map snd attributes) / Num.of_nat (length attributes))%num.
Proof.
  cbv zeta.
  assert (Hf : Forall (fun entry : string * number => Num.finite (snd entry))
                 [("a"%string, Fin (1#2)); ("b"%string, Fin (9#10))])
    by (repeat constructor).
  assert (Hw : Forall (fun entry : string * number =>
                         weightOrZero {[ "a"%string := Fin (1#2); "b"%string := Fin (1#2) ]}
                                      (fst entry) = Fin (1#2))
                 [("a"%string, Fin (1#2)); ("b"%string, Fin (9#10))])
    by (repeat constructor).
  assert (Ho : Forall (fun o => o = Fin (1#2)) [Fin (1#2); Fin (1#2)])
    by (repeat constructor).
  split; [reflexivity|]. split; [discriminate|]. split; [exact Hf|].
  split; [exact Hw|]. split; [exact Ho|]. split; [cbn; lia|].
  apply (owa_uniform_is_mean (1#2) (1#2) _ _ _); try assumption;
    [reflexivity|reflexivity|discriminate|cbn; lia].
Defined.




(** ** Strategy profiles of the final-score route *)

Lemma natQ_S (n : nat) : natQ (S n) == natQ n + 1.
Proof.
  unfold natQ. rewrite Nat2Z.inj_succ. unfold Z.succ. rewrite inject_Z_plus.
  reflexivity.
Qed.

Lemma natQ_nonneg (n : nat) : 0 <= natQ n.
Proof. unfold natQ. change 0 with (inject_Z 0). rewrite <- Zle_Qle. lia. Qed.

Lemma natQ_pos (n : nat) : (0 < n)%nat -> 0 < natQ n.
Proof.
  intros H. unfold natQ. change 0 with (inject_Z 0). rewrite <- Zlt_Qlt. lia.
Qed.

Lemma natQ_le (i n : nat) : (i <= n)%nat -> natQ i <= natQ n.
Proof. intros H. unfold natQ. rewrite <- Zle_Qle. lia. Qed.

Lemma exactTotal_map (f : nat -> Q) (l : list nat) :
  exactTotal (map (fun i => Fin (f i)) l) = sumOver f l.
Proof.
  induction l as [|i l IH]; [reflexivity|].
  cbn [map exactTotal sumOver foldr rationalOf].
  fold (exactTotal (map (fun i => Fin (f i)) l)). fold (sumOver f l).
  now rewrite IH.
Qed.

Lemma sum_map_Fin (f : nat -> Q) (l : list nat) :
  exists q, sum (map (fun i => Fin (f i)) l) = Fin q /\ q == sumOver f l.
Proof.
  destruct (sum_exact (map (fun i => Fin (f i)) l) 0) as (q & Hq & Hqe).
  - apply Forall_forall. intros x Hx. apply list_elem_of_fmap in Hx.
    destruct Hx as (i & -> & _). exact I.
  - exists q. split; [exact Hq|]. rewrite exactTotal_map in Hqe. lra.
Qed.

(** The descending weights: [sum over i in s .. s+k-1 of (N - i)]. *)
Lemma sumOver_descending (N D : Q) (s k : nat) :
  ~ D == 0 ->
  sumOver (fun i => (N + - natQ i) / D) (seq s k) * D
  == natQ k * N - natQ s * natQ k - natQ k * (natQ k - 1) / 2.
Proof.
  intros HD. revert s. induction k as [|k IH]; intros s.
  - cbn. unfold natQ. cbn. field.
  - cbn [seq sumOver foldr]. fold (sumOver (fun i => (N + - natQ i) / D) (seq (S s) k)).
    rewrite Qmult_plus_distr_l, IH, !natQ_S. field. exact HD.
Qed.

(** The ascending weights: [sum over i in s .. s+k-1 of (i + 1)]. *)
Lemma sumOver_ascending (D : Q) (s k : nat) :
  ~ D == 0 ->
  sumOver (fun i => (natQ i + 1) / D) (seq s k) * D
  == natQ s * natQ k + natQ k * (natQ k + 1) / 2.
Proof.
  intros HD. revert s. induction k as [|k IH]; intros s.
  - cbn. unfold natQ. cbn. field.
  - cbn [seq sumOver foldr]. fold (sumOver (fun i => (natQ i + 1) / D) (seq (S s) k)).
    rewrite Qmult_plus_distr_l, IH, !natQ_S. field. exact HD.
Qed.

Lemma sumOver_constant (c : Q) (l : list nat) :
  sumOver (fun _ => c) l == natQ (length l) * c.
Proof.
  induction l as [|i l IH].
  - cbn. unfold natQ. cbn. ring.
  - cbn [sumOver foldr length]. fold (sumOver (fun _ => c) l).
    rewrite IH, natQ_S. ring.
Qed.

Lemma replicate_map_seq {A : Type} (c : A) (s k : nat) :
  replicate k c = map (fun _ => c) (seq s k).
Proof.
  revert s. induction k as [|k IH]; intros s; [reflexivity|].
  cbn [replicate seq map]. f_equal. apply IH.
Qed.

(** The weights of a strategy profile in exact arithmetic, where they sum
    to 1 and the normalisation of the route changes nothing. *)
Lemma owa_profiles_exact (strategyProfile : string) (stageCount : nat) :
  (0 < stageCount)%nat ->
  let ws := owaStrategyWeights strategyProfile stageCount in
  length ws = stageCount /\
  Forall nonNegative ws /\
  sum ws ≡ Fin 1 /\
  prepareOwaWeights strategyProfile None stageCount = ws /\
  (forall i x y, ws !! i = Some (Fin x) -> ws !! S i = Some (Fin y) ->
     (strategyProfile = "optimistic"%string -> y < x) /\
     (strategyProfile = "pessimistic"%string -> x < y)).
Proof.
  intros Hn ws.
  set (n := natQ stageCount).
  set (D := n * (n + 1) / 2).
  assert (Hnpos : 0 < n) by (now apply natQ_pos).
  assert (HD : 0 < D).
  { unfold D. apply Qlt_shift_div_l; [lra|]. nra. }
  assert (HDne : ~ D == 0) by lra.
  assert (Hopt : String.eqb strategyProfile "optimistic" = true ->
                 ws = map (fun i => Fin ((n + - natQ i) / D)) (seq 0 stageCount)).
  { intros E. unfold ws, owaStrategyWeights. rewrite E. apply map_ext.
    intros i. cbn [Num.of_nat Num.sub Num.neg Num.add Num.mul].
    change (Fin (inject_Z (Z.of_nat stageCount) * (inject_Z (Z.of_nat stageCount) + 1))
            / Fin 2)%num with (Fin D).
    now rewrite div_Fin. }
  assert (Hpes : String.eqb strategyProfile "optimistic" = false ->
                 String.eqb strategyProfile "pessimistic" = true ->
                 ws = map (fun i => Fin ((natQ i + 1) / D)) (seq 0 stageCount)).
  { intros E E'. unfold ws, owaStrategyWeights. rewrite E, E'. apply map_ext.
    intros i. cbn [Num.of_nat Num.sub Num.neg Num.add Num.mul].
    change (Fin (inject_Z (Z.of_nat stageCount) * (inject_Z (Z.of_nat stageCount) + 1))
            / Fin 2)%num with (Fin D).
    now rewrite div_Fin. }
  assert (Hbal : String.eqb strategyProfile "optimistic" = false ->
                 String.eqb strategyProfile "pessimistic" = false ->
                 ws = map (fun _ => Fin (1 / n)) (seq 0 stageCount)).
  { intros E E'. unfold ws, owaStrategyWeights. rewrite E, E'.
    unfold Num.of_nat. rewrite div_Fin by (fold (natQ stageCount); fold n; lra).
    fold (natQ stageCount). fold n. apply replicate_map_seq. }
  assert (Hshape : exists f, ws = map (fun i => Fin (f i)) (seq 0 stageCount) /\
                     (forall i, (i < stageCount)%nat -> 0 <= f i) /\
                     sumOver f (seq 0 stageCount) == 1 /\
                     (forall i, (S i < stageCount)%nat ->
                        (strategyProfile = "optimistic"%string -> f (S i) < f i) /\
                        (strategyProfile = "pessimistic"%string -> f i < f (S i)))).
  { destruct (String.eqb strategyProfile "optimistic") eqn:E.
    - exists (fun i => (n + - natQ i) / D). split; [now apply Hopt|]. split; [|split].
      + intros i Hi. apply Qle_shift_div_l; [exact HD|].
        pose proof (natQ_le i stageCount (Nat.lt_le_incl _ _ Hi)). fold n in H. lra.
      + pose proof (sumOver_descending n D 0 stageCount HDne) as Hsum.
        fold n in Hsum.
        assert (H0 : natQ 0 == 0) by reflexivity. rewrite H0 in Hsum.
        assert (Hgoal : sumOver (fun i => (n + - natQ i) / D) (seq 0 stageCount) * D
                        == 1 * D).
        { rewrite Hsum. unfold D. field. }
        apply Qmult_inj_r in Hgoal; assumption.
      + intros i Hi. split.
        * intros _. rewrite natQ_S.
          apply Qlt_shift_div_r; [exact HD|].
          assert (Heq : (n + - natQ i) / D * D == n + - natQ i) by (field; lra).
          rewrite Heq. lra.
        * intros ->. discriminate E.
    - destruct (String.eqb strategyProfile "pessimistic") eqn:E'.
      + exists (fun i => (natQ i + 1) / D). split; [now apply Hpes|]. split; [|split].
        * intros i _. apply Qle_shift_div_l; [exact HD|].
          pose proof (natQ_nonneg i). lra.
        * pose proof (sumOver_ascending D 0 stageCount HDne) as Hsum.
          fold n in Hsum.
          assert (H0 : natQ 0 == 0) by reflexivity. rewrite H0 in Hsum.
          assert (Hgoal : sumOver (fun i => (natQ i + 1) / D) (seq 0 stageCount) * D
                          == 1 * D).
          { rewrite Hsum. unfold D. field. }
          apply Qmult_inj_r in Hgoal; assumption.
        * intros i Hi. split.
          -- intros ->. discriminate E.
          -- intros _. rewrite natQ_S.
             apply Qlt_shift_div_l; [exact HD|].
             assert (Heq : (natQ i + 1) / D * D == natQ i + 1) by (field; lra).
             rewrite Heq. lra.
      + exists (fun _ => 1 / n). split; [now apply Hbal|]. split; [|split].
        * intros i _. apply Qle_shift_div_l; lra.
        * rewrite sumOver_constant, length_seq. fold n. field. lra.
        * intros i _. split; intros ->; discriminate. }
  destruct Hshape as (f & Hws & Hf0 & Hsum & Hord).
  destruct (sum_map_Fin f (seq 0 stageCount)) as (q & Hq & Hqe).
  rewrite <- Hws in Hq.
  assert (Hsum1 : sum ws ≡ Fin 1).
  { rewrite Hq. change (q == 1). now rewrite Hqe. }
  split; [rewrite Hws; now rewrite length_map, length_seq|].
  split.
  { rewrite Hws. apply Forall_forall. intros x Hx.
    apply list_elem_of_fmap in Hx. destruct Hx as (i & -> & Hi).
    apply elem_of_seq in Hi. exists (f i). split; [reflexivity|].
    apply Hf0. lia. }
  split; [exact Hsum1|]. split.
  { unfold prepareOwaWeights, normalizeOwaWeights. fold ws. rewrite Hq.
    assert (Hq1 : (Fin q =? Fin 1)%num = true) by (apply eqb_Fin; now rewrite Hqe).
    now rewrite Hq1. }
  intros i x y Hx Hy. rewrite Hws in Hx, Hy.
  change (map ?g ?l) with (g <$> l) in Hx, Hy.
  rewrite list_lookup_fmap in Hx, Hy.
  destruct (seq 0 stageCount !! i) as [a|] eqn:Ea; [|discriminate].
  destruct (seq 0 stageCount !! S i) as [b|] eqn:Eb; [|discriminate].
  apply lookup_seq in Ea, Eb. destruct Ea as [-> Ha], Eb as [-> Hb].
  cbn in Hx, Hy. injection Hx as <-. injection Hy as <-.
  apply Hord. exact Hb.
Qed.

(** For at least one stage, the weights the final-score route prepares for
    a strategy profile are one finite weight per stage, none negative; the
    optimistic weights fall and the pessimistic weights rise with the rank;
    and in exact arithmetic they sum to 1. *)
Theorem owa_profiles_normalised (strategyProfile : string) (stageCount : nat) :
  (0 < stageCount)%nat ->
  let ws := prepareOwaWeights strategyProfile None stageCount in
  length ws = stageCount /\
  Forall nonNegative ws /\
  sum ws ≡ Fin 1 /\
  (forall i x y, ws !! i = Some (Fin x) -> ws !! S i = Some (Fin y) ->
     (strategyProfile = "optimistic"%string -> y < x) /\
     (strategyProfile = "pessimistic"%string -> x < y)).
Proof.
  intros Hn ws.
  destruct (owa_profiles_exact strategyProfile stageCount Hn)
    as (Hlen & Hpos & Hsum & Hprep & Hord).
  unfold ws. rewrite Hprep. repeat split; try assumption; now apply (Hord i x y).
Qed.

Lemma owa_profiles_normalised_witness :
  (0 < 3)%nat /\
  length (prepareOwaWeights "optimistic" None 3) = 3%nat /\
  sum (prepareOwaWeights "optimistic" None 3) ≡ Fin 1.
Proof.
  split; [lia|].
  destruct (owa_profiles_normalised "optimistic" 3) as (H1 & _ & H3 & _); [lia|].
  split; [exact H1|exact H3].
Defined.

(** ** Median and outlier removal *)

(** The median is the middle element of the sorted copy when the length is
    odd, and the mean of the two middle elements when it is even. *)
Lemma median_cases (l : list number) :
  l <> [] ->
  (length l mod 2 = 1%nat /\ exists x, x ∈ l /\ calculateMedian l = x) \/
  (length l mod 2 = 0%nat /\
   exists x y, x ∈ l /\ y ∈ l /\ calculateMedian l = ((x + y) / Fin 2)%num).
Proof.
  intros Hne. unfold calculateMedian.
  set (sorted := js_sort (fun a b => (a - b)%num) l).
  assert (Hperm : sorted ≡ₚ l) by apply js_sort_perm.
  assert (Hlen : length sorted = length l) by (now apply Permutation_length).
  assert (Hpos : (0 < length l)%nat) by (destruct l; [congruence|cbn; lia]).
  assert (Hcell : forall i, (i < length sorted)%nat ->
                    exists x, x ∈ l /\ cell_at sorted i = x).
  { intros i Hi. destruct (lookup_lt_is_Some_2 sorted i Hi) as [x Hx].
    exists x. split.
    - rewrite <- Hperm. eapply list_elem_of_lookup_2, Hx.
    - unfold cell_at. now apply nth_lookup_Some. }
  rewrite Hlen.
  pose proof (Nat.div_mod_eq (length l) 2) as Hdm.
  pose proof (Nat.mod_upper_bound (length l) 2 ltac:(lia)) as Hmod.
  destruct (length l mod 2 =? 0)%nat eqn:E.
  - apply Nat.eqb_eq in E. right. split; [exact E|].
    destruct (Hcell (length l / 2 - 1)%nat) as (x & Hx & ->); [lia|].
    destruct (Hcell (length l / 2)%nat) as (y & Hy & ->); [lia|].
    exists x, y. repeat split; assumption.
  - apply Nat.eqb_neq in E. left. split; [lia|].
    destruct (Hcell (length l / 2)%nat) as (x & Hx & ->); [lia|].
    exists x. split; [exact Hx|reflexivity].
Qed.

Lemma median_between (lo hi : Q) (l : list number) :
  l <> [] -> Forall (within lo hi) l -> within lo hi (calculateMedian l).
Proof.
  intros Hne Hl.
  destruct (median_cases l Hne) as [(_ & x & Hx & ->)|(_ & x & y & Hx & Hy & ->)].
  - apply (proj1 (Forall_forall _ _) Hl). exact Hx.
  - destruct (proj1 (Forall_forall _ _) Hl x Hx) as (a & -> & Ha).
    destruct (proj1 (Forall_forall _ _) Hl y Hy) as (b & -> & Hb).
    cbn [Num.add]. rewrite div_Fin by discriminate.
    eexists. split; [reflexivity|].
    split; [apply Qle_shift_div_l | apply Qle_shift_div_r]; lra.
Qed.

(** The median of values within [[lo, hi]] lies within [[lo, hi]]: it is
    finite and bounded by the smallest and the largest value.  The bounds
    are such that the sum of the two middle values does not overflow. *)
Theorem median_within (lo hi : Q) (l : list number) :
  l <> [] -> Forall (within lo hi) l ->
  - maxSpan <= 2 * lo -> 2 * hi <= maxSpan ->
  within lo hi (calculateMedian l).
Proof. intros Hne Hl _ _. now apply median_between. Qed.

Lemma median_within_witness :
  [Fin 3; Fin 1; Fin 2; Fin 8] <> [] /\
  Forall (within 1 8) [Fin 3; Fin 1; Fin 2; Fin 8] /\
  - maxSpan <= 2 * 1 /\ 2 * 8 <= maxSpan /\
  within 1 8 (calculateMedian [Fin 3; Fin 1; Fin 2; Fin 8]).
Proof.
  assert (H : Forall (within 1 8) [Fin 3; Fin 1; Fin 2; Fin 8]).
  { repeat constructor; eexists; (split; [reflexivity|split; discriminate]). }
  split; [discriminate|]. split; [exact H|].
  split; [vm_compute; discriminate|]. split; [vm_compute; discriminate|].
  apply (median_within 1 8);
    [discriminate | exact H | vm_compute; discriminate | vm_compute; discriminate].
Defined.

Lemma filter_all {A : Type} (p : A -> bool) (l : list A) :
  Forall (fun x => p x = true) l -> List.filter p l = l.
Proof.
  induction 1 as [|x l Hx _ IH]; [reflexivity|].
  cbn [List.filter]. now rewrite Hx, IH.
Qed.

(** Unanimous proposals are all kept: when every value equals the same
    finite number, outlier removal returns the list unchanged, whatever the
    fuzzy threshold.  The number is such that its double does not
    overflow. *)
Theorem unanimous_proposals_kept (v : Q) (values : list number)
    (fuzzyThreshold : number) :
  Forall (within v v) values ->
  - maxSpan <= 2 * v -> 2 * v <= maxSpan ->
  removeFuzzyOutliers values fuzzyThreshold = values.
Proof.
  intros Hv _ _. unfold removeFuzzyOutliers.
  destruct (length values <=? 2)%nat eqn:E; [reflexivity|].
  apply Nat.leb_gt in E.
  assert (Hne : values <> []) by (intros ->; cbn in E; lia).
  fold (calculateMedian values).
  change (if (length (js_sort (fun a b => (a - b)%num) values) mod 2 =? 0)%nat
          then ((cell_at (js_sort (fun a b => (a - b)%num) values)
                   (length (js_sort (fun a b => (a - b)%num) values) / 2 - 1)
                 + cell_at (js_sort (fun a b => (a - b)%num) values)
                     (length (js_sort (fun a b => (a - b)%num) values) / 2))
                / Fin 2)%num
          else cell_at (js_sort (fun a b => (a - b)%num) values)
                 (length (js_sort (fun a b => (a - b)%num) values) / 2))
    with (calculateMedian values).
  destruct (median_between v v values Hne Hv) as (m & -> & Hm).
  set (sorted := js_sort (fun a b => (a - b)%num) values).
  assert (Hperm : sorted ≡ₚ values) by apply js_sort_perm.
  set (deviations := map (fun x => Num.abs (x - Fin m)%num) sorted).
  assert (Hdev : Forall (within 0 0) deviations).
  { unfold deviations. apply Forall_forall. intros d Hd.
    apply list_elem_of_fmap in Hd. destruct Hd as (x & -> & Hx).
    rewrite Hperm in Hx.
    destruct (proj1 (Forall_forall _ _) Hv x Hx) as (q & -> & Hq).
    cbn [Num.sub Num.neg Num.add Num.abs]. eexists. split; [reflexivity|].
    assert (Hz : q + - m == 0) by lra. rewrite Hz.
    change (0 <= 0 <= 0). lra. }
  assert (Hdne : deviations <> []).
  { unfold deviations. intros H. apply (f_equal length) in H.
    rewrite length_map, (Permutation_length Hperm) in H. cbn in H. lia. }
  destruct (median_between 0 0 deviations Hdne Hdev) as (mad & -> & Hmad).
  assert (Hmad0 : (Fin mad =? Fin 0)%num = true) by (apply eqb_Fin; lra).
  apply filter_all. apply Forall_forall. intros x Hx. rewrite Hmad0.
  destruct (proj1 (Forall_forall _ _) Hv x Hx) as (q & -> & Hq).
  apply eqb_Fin. lra.
Qed.

Lemma unanimous_proposals_kept_witness :
  Forall (within (1#4) (1#4)) [Fin (1#4); Fin (2#8); Fin (1#4); Fin (1#4)] /\
  - maxSpan <= 2 * (1#4) /\ 2 * (1#4) <= maxSpan /\
  removeFuzzyOutliers [Fin (1#4); Fin (2#8); Fin (1#4); Fin (1#4)] default_fuzzyThreshold
  = [Fin (1#4); Fin (2#8); Fin (1#4); Fin (1#4)].
Proof.
  assert (H : Forall (within (1#4) (1#4)) [Fin (1#4); Fin (2#8); Fin (1#4); Fin (1#4)]).
  { repeat constructor; eexists; (split; [reflexivity|split; discriminate]). }
  split; [exact H|].
  split; [vm_compute; discriminate|]. split; [vm_compute; discriminate|].
  apply (unanimous_proposals_kept (1#4) _ default_fuzzyThreshold H);
    vm_compute; discriminate.
Defined.

Lemma median_finite (l : list number) :
  l <> [] -> Forall Num.finite l -> Num.finite (calculateMedian l).
Proof.
  intros Hne Hl.
  destruct (median_cases l Hne) as [(_ & x & Hx & ->)|(_ & x & y & Hx & Hy & ->)].
  - apply (proj1 (Forall_forall _ _) Hl). exact Hx.
  - pose proof (proj1 (Forall_forall _ _) Hl x Hx) as Ha.
    pose proof (proj1 (Forall_forall _ _) Hl y Hy) as Hb.
    destruct x as [a| | |], y as [b| | |]; try contradiction.
    cbn [Num.add]. rewrite div_Fin by discriminate. exact I.
Qed.

(** With an odd number of at least three finite proposals, outlier removal
    keeps the median proposal, so that its result is never empty.  The
    fuzzy threshold and the differences of distinct proposals have a
    magnitude of at least [minStep], so that the scaled deviation the code
    divides by does not underflow to zero. *)
Theorem odd_proposals_keep_median (values : list number) (fuzzyThreshold : Q) :
  length values mod 2 = 1%nat -> (3 <= length values)%nat ->
  Forall Num.finite values -> minStep <= Qabs fuzzyThreshold ->
  (forall x y, In (Fin x) values -> In (Fin y) values ->
     x == y \/ minStep <= Qabs (x - y)) ->
  exists x, In x values /\ calculateMedian values = x /\
            In x (removeFuzzyOutliers values (Fin fuzzyThreshold)).
Proof.
  intros Hodd Hlen Hfin Hmin _.
  assert (Hthr : ~ fuzzyThreshold == 0).
  { intros H. rewrite H in Hmin. revert Hmin. vm_compute. intros Hmin. now apply Hmin. }
  assert (Hne : values <> []) by (intros ->; cbn in Hlen; lia).
  destruct (median_cases values Hne) as [(_ & x & Hx & Hmed)|(Heven & _)];
    [|lia].
  exists x. split; [now apply list_elem_of_In|]. split; [exact Hmed|].
  unfold removeFuzzyOutliers.
  rewrite (proj2 (Nat.leb_gt (length values) 2)) by lia.
  change (if (length (js_sort (fun a b => (a - b)%num) values) mod 2 =? 0)%nat
          then ((cell_at (js_sort (fun a b => (a - b)%num) values)
                   (length (js_sort (fun a b => (a - b)%num) values) / 2 - 1)
                 + cell_at (js_sort (fun a b => (a - b)%num) values)
                     (length (js_sort (fun a b => (a - b)%num) values) / 2))
                / Fin 2)%num
          else cell_at (js_sort (fun a b => (a - b)%num) values)
                 (length (js_sort (fun a b => (a - b)%num) values) / 2))
    with (calculateMedian values).
  rewrite Hmed.
  pose proof (proj1 (Forall_forall _ _) Hfin x Hx) as Hxf.
  destruct x as [q| | |]; try contradiction.
  set (sorted := js_sort (fun a b => (a - b)%num) values).
  assert (Hperm : sorted ≡ₚ values) by apply js_sort_perm.
  set (deviations := map (fun y => Num.abs (y - Fin q)%num) sorted).
  assert (Hdfin : Forall Num.finite deviations).
  { unfold deviations. apply Forall_forall. intros d Hd.
    apply list_elem_of_fmap in Hd. destruct Hd as (y & -> & Hy).
    rewrite Hperm in Hy. pose proof (proj1 (Forall_forall _ _) Hfin y Hy) as Hyf.
    destruct y; try contradiction. exact I. }
  assert (Hdne : deviations <> []).
  { unfold deviations. intros H. apply (f_equal length) in H.
    rewrite length_map, (Permutation_length Hperm) in H. cbn in H. lia. }
  pose proof (median_finite deviations Hdne Hdfin) as Hmad.
  destruct (calculateMedian deviations) as [mad| | |]; try contradiction.
  apply filter_In. split; [now apply list_elem_of_In|].
  destruct (Fin mad =? Fin 0)%num eqn:E.
  - apply eqb_Fin. reflexivity.
  - assert (Hmad0 : ~ mad == 0) by (intros H; apply eqb_Fin in H; congruence).
    cbn [Num.sub Num.neg Num.add Num.abs Num.mul].
    assert (Hden : ~ fuzzyThreshold * mad * (7413 # 5000) == 0).
    { intros H. apply Qmult_integral in H. destruct H as [H|H]; [|discriminate H].
      apply Qmult_integral in H. tauto. }
    rewrite div_Fin by exact Hden. cbn [Num.neg Num.add].
    assert (Hz : Qabs (q + - q) / (fuzzyThreshold * mad * (7413 # 5000)) == 0).
    { assert (Hqq : q + - q == 0) by ring. rewrite Hqq.
      change (Qabs 0) with 0. unfold Qdiv. ring. }
    rewrite max_zero_pos by lra. apply gtb_Fin. lra.
Qed.

Lemma odd_proposals_keep_median_witness :
  let values := [Fin (1#10); Fin (1#2); Fin (9#10)] in
  length values mod 2 = 1%nat /\
  (3 <= length values)%nat /\
  Forall Num.finite values /\
  minStep <= Qabs (1#5) /\
  (forall x y, In (Fin x) values -> In (Fin y) values ->
     x == y \/ minStep <= Qabs (x - y)) /\
  exists x, In x values /\
            calculateMedian values = x /\
            In x (removeFuzzyOutliers values (Fin (1#5))).
Proof.
  cbv zeta.
  assert (H : Forall Num.finite [Fin (1#10); Fin (1#2); Fin (9#10)])
    by (repeat constructor).
  assert (Hgrid : forall x y,
            In (Fin x) [Fin (1#10); Fin (1#2); Fin (9#10)] ->
            In (Fin y) [Fin (1#10); Fin (1#2); Fin (9#10)] ->
            x == y \/ minStep <= Qabs (x - y)).
  { intros x y Hx Hy. cbn [In] in Hx, Hy.
    destruct Hx as [Hx|[Hx|[Hx|[]]]]; injection Hx as <-;
      destruct Hy as [Hy|[Hy|[Hy|[]]]]; injection Hy as <-;
      first [left; reflexivity | right; vm_compute; discriminate]. }
  split; [reflexivity|]. split; [cbn; lia|]. split; [exact H|].
  split; [vm_compute; discriminate|]. split; [exact Hgrid|].
  apply (odd_proposals_keep_median _ (1#5));
    [reflexivity | cbn; lia | exact H | vm_compute; discriminate | exact Hgrid].
Defined.

(** ** Normalisation and criteria of the consensus *)

Lemma exactTotal_div (ws : list number) (t : Q) :
  Forall Num.finite ws -> ~ t == 0 ->
  Forall Num.finite (map (fun w => (w / Fin t)%num) ws) /\
  exactTotal (map (fun w => (w / Fin t)%num) ws) == exactTotal ws / t.
Proof.
  intros Hws Ht. induction Hws as [|w ws Hw _ [IH1 IH2]].
  - split; [constructor|]. cbn. unfold Qdiv. ring.
  - destruct w as [q| | |]; try contradiction.
    cbn [map]. rewrite div_Fin by exact Ht. split; [constructor; [exact I|exact IH1]|].
    cbn [exactTotal foldr rationalOf].
    fold (exactTotal (map (fun w => (w / Fin t)%num) ws)). fold (exactTotal ws).
    rewrite IH2. field. exact Ht.
Qed.

(** When the aggregated weights are finite and their total is positive, the
    consensus returns each weight divided by the total, and the returned
    weights sum to 1; the criteria and their order are unchanged. *)
Theorem delphi_weights_sum_to_one (initialWeights : list dict) :
  let aggregated := aggregateWeights (weightsByAttribute initialWeights) in
  let total := sum (map snd aggregated) in
  Forall (fun entry => Num.finite (snd entry)) aggregated ->
  (total >? Fin 0)%num = true ->
  sum (map snd (applyDelphiTechnique initialWeights)) ≡ Fin 1 /\
  map fst (applyDelphiTechnique initialWeights) = map fst aggregated /\
  map snd (applyDelphiTechnique initialWeights)
    = map (fun w => (w / total)%num) (map snd aggregated).
Proof.
  intros aggregated total Hfin Hpos.
  unfold applyDelphiTechnique, normalizeWeights. fold aggregated. fold total.
  rewrite Hpos.
  assert (Hsnd : map snd (map (fun '(key, w) => (key, (w / total)%num)) aggregated)
                 = map (fun w => (w / total)%num) (map snd aggregated)).
  { rewrite !map_map. apply map_ext. intros [k w]. reflexivity. }
  assert (Hfst : map fst (map (fun '(key, w) => (key, (w / total)%num)) aggregated)
                 = map fst aggregated).
  { rewrite map_map. apply map_ext. intros [k w]. reflexivity. }
  split; [|split; assumption].
  rewrite Hsnd.
  assert (Hws : Forall Num.finite (map snd aggregated)).
  { apply Forall_fmap. exact Hfin. }
  destruct (sum_exact (map snd aggregated) 0 Hws) as (t & Ht & Hte).
  unfold total, sum in *. rewrite Ht in *. apply gtb_Fin in Hpos.
  destruct (exactTotal_div (map snd aggregated) t Hws) as [Hfin' Hdiv]; [lra|].
  destruct (sum_exact _ 0 Hfin') as (s & -> & Hse).
  change (s == 1). rewrite Hse, Hdiv. field_simplify_eq; lra.
Qed.

Lemma delphi_weights_sum_to_one_witness :
  Forall (fun entry => Num.finite (snd entry))
         (aggregateWeights (weightsByAttribute proposals_two_criteria)) /\
  (sum (map snd (aggregateWeights (weightsByAttribute proposals_two_criteria)))
     >? Fin 0)%num = true /\
  sum (map snd (applyDelphiTechnique proposals_two_criteria)) ≡ Fin 1.
Proof.
  assert (H1 : Forall (fun entry => Num.finite (snd entry))
                 (aggregateWeights (weightsByAttribute proposals_two_criteria)))
    by (repeat constructor).
  assert (H2 : (sum (map snd (aggregateWeights
                                (weightsByAttribute proposals_two_criteria)))
                >? Fin 0)%num = true) by reflexivity.
  split; [exact H1|]. split; [exact H2|].
  apply (delphi_weights_sum_to_one proposals_two_criteria H1 H2).
Defined.

Lemma set_add_spec (acc : list string) (key k : string) :
  In k (set_add acc key) <-> In k acc \/ k = key.
Proof.
  unfold set_add. destruct (existsb (String.eqb key) acc) eqn:E.
  - apply existsb_exists in E. destruct E as (x & Hx & Heq).
    apply String.eqb_eq in Heq. subst x. split; [tauto|].
    intros [H| ->]; assumption.
  - rewrite in_app_iff. cbn. split; [intros [H|[H|[]]]; auto|].
    intros [H| ->]; auto.
Qed.

Lemma set_add_NoDup (acc : list string) (key : string) :
  List.NoDup acc -> List.NoDup (set_add acc key).
Proof.
  intros Hnd. unfold set_add. destruct (existsb (String.eqb key) acc) eqn:E;
    [exact Hnd|].
  apply NoDup_ListNoDup. apply NoDup_app. split; [now apply NoDup_ListNoDup|].
  split; [|apply NoDup_singleton].
  intros x Hx Hx'. apply list_elem_of_singleton in Hx'. subst x.
  assert (Hex : existsb (String.eqb key) acc = true).
  { apply existsb_exists. exists key. split; [now apply list_elem_of_In|].
    apply String.eqb_refl. }
  congruence.
Qed.

Lemma allCriteria_fold (initialWeights : list dict) (acc : list string) :
  let result := fold_left (fun acc hrWeights => fold_left set_add (map fst hrWeights) acc)
                          initialWeights acc in
  (List.NoDup acc -> List.NoDup result) /\
  (forall k, In k result <->
     In k acc \/ exists hrWeights w, In hrWeights initialWeights /\ In (k, w) hrWeights).
Proof.
  revert acc. induction initialWeights as [|hr rest IH]; intros acc.
  - cbn. split; [auto|]. intros k. split; [auto|]. intros [H|(? & ? & [] & _)]. exact H.
  - cbn [fold_left].
    assert (Hinner : forall keys acc0,
              (List.NoDup acc0 -> List.NoDup (fold_left set_add keys acc0)) /\
              (forall k, In k (fold_left set_add keys acc0) <-> In k acc0 \/ In k keys)).
    { induction keys as [|key keys IHk]; intros acc0.
      - cbn. split; [auto|]. intros k. tauto.
      - cbn [fold_left]. destruct (IHk (set_add acc0 key)) as [H1 H2]. split.
        + intros Hnd. apply H1. now apply set_add_NoDup.
        + intros k. rewrite H2, set_add_spec. cbn. intuition congruence. }
    destruct (Hinner (map fst hr) acc) as [Hn1 Hm1].
    destruct (IH (fold_left set_add (map fst hr) acc)) as [Hn2 Hm2].
    split; [auto|]. intros k. rewrite Hm2, Hm1. split.
    + intros [[H|H]|(hr' & w & Hin & Hkw)].
      * left. exact H.
      * right. apply in_map_iff in H. destruct H as ([k' w] & <- & Hin).
        exists hr, w. split; [left; reflexivity|exact Hin].
      * right. exists hr', w. split; [right; exact Hin|exact Hkw].
    + intros [H|(hr' & w & [<-|Hin] & Hkw)].
      * left. left. exact H.
      * left. right. apply in_map_iff. exists (k, w). split; [reflexivity|exact Hkw].
      * right. exists hr', w. split; assumption.
Qed.

Lemma insertIndex_perm (key : string) (sorted : list string) :
  insertIndex key sorted ≡ₚ key :: sorted.
Proof.
  induction sorted as [|other rest IH]; [reflexivity|].
  cbn [insertIndex].
  destruct (default 0%N (arrayIndex key) <=? default 0%N (arrayIndex other))%N;
    [reflexivity|].
  rewrite IH. apply perm_swap.
Qed.

Lemma sortIndices_perm (keys : list string) :
  foldr insertIndex [] keys ≡ₚ keys.
Proof.
  induction keys as [|key keys IH]; [reflexivity|].
  cbn [foldr]. rewrite insertIndex_perm. now rewrite IH.
Qed.

Lemma filter_split_perm {A : Type} (p : A -> bool) (l : list A) :
  List.filter p l ++ List.filter (fun x => negb (p x)) l ≡ₚ l.
Proof.
  induction l as [|x l IH]; [reflexivity|].
  cbn [List.filter]. destruct (p x); cbn [negb app].
  - now rewrite IH.
  - rewrite <- Permutation_middle. now rewrite IH.
Qed.

(** The keys of the object are the names created, without [__proto__]. *)
Lemma ownKeys_perm (created : list string) :
  ownKeys created
  ≡ₚ List.filter (fun key => negb (String.eqb key "__proto__")) created.
Proof.
  unfold ownKeys. rewrite sortIndices_perm. apply filter_split_perm.
Qed.

(** Without array indices the keys keep the order of their creation. *)
Lemma ownKeys_plain (created : list string) :
  (forall key, In key created -> arrayIndex key = None) ->
  ownKeys created
  = List.filter (fun key => negb (String.eqb key "__proto__")) created.
Proof.
  intros Hplain. unfold ownKeys.
  set (names := List.filter (fun key => negb (String.eqb key "__proto__")) created).
  assert (Hnames : Forall (fun key => arrayIndex key = None) names).
  { apply Forall_forall. intros key Hkey. apply list_elem_of_In in Hkey.
    apply Hplain. unfold names in Hkey. apply filter_In in Hkey. tauto. }
  clearbody names.
  assert (Hnone : List.filter (fun k => bool_decide (is_Some (arrayIndex k))) names = []).
  { induction Hnames as [|k ks Hk _ IH]; [reflexivity|].
    cbn [List.filter]. rewrite Hk.
    rewrite bool_decide_eq_false_2 by (intros [? ?]; discriminate). exact IH. }
  assert (Hall : List.filter (fun k => negb (bool_decide (is_Some (arrayIndex k)))) names
                 = names).
  { induction Hnames as [|k ks Hk _ IH]; [reflexivity|].
    cbn [List.filter] in *. rewrite Hk in *.
    rewrite bool_decide_eq_false_2 in * by (intros [? ?]; discriminate).
    cbn [negb]. f_equal. apply IH. exact Hnone. }
  rewrite Hnone, Hall. reflexivity.
Qed.

Lemma delphi_keys (initialWeights : list dict) :
  map fst (applyDelphiTechnique initialWeights)
  = ownKeys (allCriteria initialWeights).
Proof.
  unfold applyDelphiTechnique, normalizeWeights.
  assert (Hagg : map fst (aggregateWeights (weightsByAttribute initialWeights))
                 = ownKeys (allCriteria initialWeights)).
  { unfold aggregateWeights, weightsByAttribute. rewrite !map_map.
    etrans; [|apply map_id]. apply map_ext. intros k. reflexivity. }
  destruct (_ >? Fin 0)%num; [|exact Hagg].
  rewrite map_map. rewrite <- Hagg. apply map_ext. intros [k w]. reflexivity.
Qed.

(** The consensus returns one weight per proposed criterion: its keys are
    the criteria named by at least one evaluator, each once and without
    [__proto__], in the order in which the object enumerates them: the array
    indices first, then the other names in the order of their first
    appearance.  When no criterion is an array index or [__proto__], that
    is the order of first appearance.  With no proposals the result is
    empty. *)
Theorem delphi_criteria (initialWeights : list dict) :
  let keys := map fst (applyDelphiTechnique initialWeights) in
  keys = ownKeys (allCriteria initialWeights) /\
  List.NoDup keys /\
  (forall k, In k keys <->
     k <> "__proto__"%string /\
     exists hrWeights w, In hrWeights initialWeights /\ In (k, w) hrWeights) /\
  ((forall k, In k (allCriteria initialWeights) ->
      arrayIndex k = None /\ k <> "__proto__"%string) ->
   keys = allCriteria initialWeights) /\
  applyDelphiTechnique [] = [].
Proof.
  cbv zeta. rewrite delphi_keys.
  pose proof (ownKeys_perm (allCriteria initialWeights)) as Hperm.
  assert (Hnd : List.NoDup (allCriteria initialWeights)).
  { apply (proj1 (allCriteria_fold initialWeights [])). constructor. }
  assert (Hin : forall k, In k (allCriteria initialWeights) <->
            exists hrWeights w, In hrWeights initialWeights /\ In (k, w) hrWeights).
  { intros k. unfold allCriteria.
    rewrite (proj2 (allCriteria_fold initialWeights []) k). cbn. tauto. }
  split; [reflexivity|]. split; [|split; [|split]].
  - apply (Permutation_NoDup (Permutation_sym Hperm)).
    now apply List.NoDup_filter.
  - intros k. split.
    + intros Hk. apply (Permutation_in _ Hperm) in Hk.
      apply filter_In in Hk. destruct Hk as [Hk Hp].
      apply negb_true_iff, String.eqb_neq in Hp.
      split; [exact Hp|]. now apply Hin.
    + intros [Hp Hk]. apply (Permutation_in _ (Permutation_sym Hperm)).
      apply filter_In. split; [now apply Hin|].
      now apply negb_true_iff, String.eqb_neq.
  - intros Hplain. rewrite ownKeys_plain by (intros k Hk; now apply Hplain).
    apply filter_all. apply Forall_forall. intros k Hk.
    apply list_elem_of_In in Hk.
    apply negb_true_iff, String.eqb_neq. now apply Hplain.
  - reflexivity.
Qed.

(** Two evaluators naming the criteria [b] and [1]: the object enumerates
    the array index first. *)
Example delphi_index_key_first :
  map fst (applyDelphiTechnique [[("b"%string, Fin (1#2))]; [("1"%string, Fin (1#2))]])
  = ["1"; "b"]%string.
Proof. vm_compute. reflexivity. Qed.

(** ** Hard criteria filter: attributes and tolerance *)

Section HardFilterMore.

Variable lessThan_other : heap -> value -> value -> bool.

(** The filter returns input candidates only, in their order, and each of
    them has a defined attribute for every criterion: a candidate that lacks
    one is excluded whatever the tolerance.  Without criteria every
    candidate passes. *)
Theorem hard_filter_requires_attributes (h : heap) (candidates : list candidate)
    (criteria : list (string * value)) (tolerance : number) :
  (forall c,
     In c (applyHardCriteriaFilter lessThan_other h candidates criteria tolerance) ->
     In c candidates /\
     forall key threshold, In (key, threshold) criteria ->
       exists v, attributes c !! key = Some v /\ v <> VUndefined) /\
  sublist (applyHardCriteriaFilter lessThan_other h candidates criteria tolerance)
          candidates /\
  applyHardCriteriaFilter lessThan_other h candidates [] tolerance = candidates.
Proof.
  unfold applyHardCriteriaFilter. split; [|split].
  - intros c Hc. apply filter_In in Hc. destruct Hc as [Hin Hall].
    split; [exact Hin|]. intros key threshold Hk.
    rewrite forallb_forall in Hall. specialize (Hall _ Hk).
    unfold checkCriterion in Hall.
    destruct (attributes c !! key) as [v|]; [|discriminate].
    exists v. split; [reflexivity|]. intros ->. discriminate.
  - induction candidates as [|c cs IH]; [constructor|].
    cbn [List.filter]. destruct (forallb _ criteria); now constructor.
  - apply filter_all. apply Forall_forall. intros c _. reflexivity.
Qed.

(** A larger tolerance admits at least the same candidates, as long as the
    numeric thresholds are finite and not negative. *)
Theorem hard_filter_tolerance_monotone (h : heap) (candidates : list candidate)
    (criteria : list (string * value)) (tol1 tol2 : Q) (c : candidate) :
  tol1 <= tol2 ->
  Forall (fun entry => nonNegativeThreshold (snd entry)) criteria ->
  In c (applyHardCriteriaFilter lessThan_other h candidates criteria (Fin tol1)) ->
  In c (applyHardCriteriaFilter lessThan_other h candidates criteria (Fin tol2)).
Proof.
  intros Htol Hcrit. unfold applyHardCriteriaFilter. rewrite !filter_In.
  intros [Hin Hall]. split; [exact Hin|].
  rewrite forallb_forall in *. intros [key threshold] Hk.
  specialize (Hall _ Hk).
  pose proof (proj1 (Forall_forall _ _) Hcrit _ (proj2 (list_elem_of_In _ _) Hk))
    as Hthr. cbn [snd] in Hthr.
  unfold checkCriterion in *.
  destruct (attributes c !! key) as [v|]; [|discriminate].
  destruct v as [| |b|n|s|l]; try exact Hall.
  destruct threshold as [| |b'|n'|s'|l']; try exact Hall.
  destruct Hthr as (t & -> & Ht).
  cbn [Num.sub Num.neg Num.add Num.mul] in *.
  rewrite negb_true_iff in *.
  destruct n as [q| | |]; try exact Hall; try discriminate Hall.
  apply ltb_Fin_false in Hall. apply ltb_Fin_false. nra.
Qed.

End HardFilterMore.

Lemma hard_filter_tolerance_monotone_witness :
  let c := {| attributes := {[ "yearsOfExperience"%string := VNum (Fin (46#10)) ]};
              fields := ∅ |} in
  let lt := fun (_ : heap) (_ _ : value) => false in
  (1#10) <= (1#5) /\
  Forall (fun entry => nonNegativeThreshold (snd entry))
         [("yearsOfExperience"%string, VNum (Fin 5))] /\
  In c (applyHardCriteriaFilter lt ∅ [c] [("yearsOfExperience"%string, VNum (Fin 5))]
          (Fin (1#10))) /\
  In c (applyHardCriteriaFilter lt ∅ [c] [("yearsOfExperience"%string, VNum (Fin 5))]
          (Fin (1#5))).
Proof.
  cbv zeta.
  assert (Hc : Forall (fun entry : string * value => nonNegativeThreshold (snd entry))
                 [("yearsOfExperience"%string, VNum (Fin 5))]).
  { repeat constructor. eexists. split; [reflexivity|discriminate]. }
  assert (Hin : In {| attributes := {[ "yearsOfExperience"%string := VNum (Fin (46#10)) ]};
                      fields := ∅ |}
                   (applyHardCriteriaFilter (fun _ _ _ => false) ∅
                      [{| attributes := {[ "yearsOfExperience"%string := VNum (Fin (46#10)) ]};
                          fields := ∅ |}]
                      [("yearsOfExperience"%string, VNum (Fin 5))] (Fin (1#10)))).
  { left. reflexivity. }
  split; [discriminate|]. split; [exact Hc|]. split; [exact Hin|].
  apply (hard_filter_tolerance_monotone (fun _ _ _ => false) ∅ _ _ (1#10) (1#5));
    [discriminate|exact Hc|exact Hin].
Defined.

(** ** The ranker: ranks, percentiles and order *)

Lemma annotate_fold_exact (n : nat) (entries : list (nat * loc)) (h : heap)
    (i : nat) (l : loc) (props : gmap string value) :
  NoDup entries.*2 ->
  (i, l) ∈ entries ->
  h !! l = Some (Obj props) ->
  fold_left (annotate n) entries h !! l
  = Some (Obj (<["rank"%string := VNum (Num.of_nat i + Fin 1)%num]>
                (<["percentile"%string :=
                     VNum (Fin 100 * (Fin 1 - Num.of_nat i / Num.of_nat n))%num]>
                   props))).
Proof.
  revert h. induction entries as [|[i0 l0] entries IH]; intros h Hnd Hin Hl.
  - apply elem_of_nil in Hin. contradiction.
  - rewrite fmap_cons in Hnd. apply NoDup_cons in Hnd. destruct Hnd as [Hnotin Hnd].
    cbn [fold_left]. apply elem_of_cons in Hin. destruct Hin as [Heq|Hin].
    + injection Heq as <- <-.
      rewrite (proj1 (annotate_fold n entries _ l)) by exact Hnotin.
      unfold annotate. rewrite Hl. apply lookup_insert_eq.
    + assert (Hne : l <> l0).
      { intros ->. apply Hnotin. apply list_elem_of_fmap. exists (i, l0).
        split; [reflexivity|exact Hin]. }
      apply IH; [exact Hnd|exact Hin|].
      rewrite (proj1 (annotate_step n h (i0, l0) l)) by exact Hne. exact Hl.
Qed.

Lemma zip_seq_lookup {A : Type} (l : list A) (i : nat) (x : A) :
  l !! i = Some x -> (i, x) ∈ zip (seq 0 (length l)) l.
Proof.
  intros Hx. apply list_elem_of_lookup. exists i.
  apply lookup_zip_with_Some. exists i, x. split; [reflexivity|].
  split; [|exact Hx]. apply lookup_seq. split; [reflexivity|].
  eapply lookup_lt_Some, Hx.
Qed.

Section RankerRun.

Variable ToNumber_other : heap -> value -> number.

(** The steps of the ranker on a list of candidates, with the facts about
    the heap between them. *)
Lemma rankCandidates_run (h : heap) (candidates : loc) (vs : list value) :
  h !! candidates = Some (Arr vs) ->
  Forall (isCandidate h) vs ->
  exists (h1 : heap) (ls : list loc) (ranked : loc),
    let h2 : heap := <[ranked := Arr (VRef <$> ls)]> h1 in
    let sorted := js_sort (compareCandidates ToNumber_other h2) ls in
    let h3 : heap := <[ranked := Arr (VRef <$> sorted)]> h2 in
    let h4 := fold_left (annotate (length sorted))
                        (zip (seq 0 (length sorted)) sorted) h3 in
    rankCandidates ToNumber_other h (VRef candidates) = Some (h4, VRef ranked) /\
    NoDup ls /\ (ranked ∉ ls) /\ length ls = length vs /\
    Forall2 (fun l1 v => exists l props,
               v = VRef l /\ h !! l = Some (Obj props) /\
               h1 !! l1 = Some (Obj (copyCandidate props))) ls vs.
Proof.
  intros Harr Hvs.
  destruct (copyAll_spec h vs Hvs h) as (h1 & ls & Hcopy & Hsub & Hnd & Hcopies);
    [reflexivity|].
  destruct (alloc_spec h1 (Arr (VRef <$> ls))) as (ranked & Halloc & Hranked).
  exists h1, ls, ranked. cbv zeta.
  assert (Hc : Forall2 (fun l1 v => exists l props,
               v = VRef l /\ h !! l = Some (Obj props) /\
               h1 !! l1 = Some (Obj (copyCandidate props))) ls vs).
  { eapply Forall2_impl; [exact Hcopies|]. cbn. intros l1 v (_ & H). exact H. }
  split.
  { unfold rankCandidates. cbn [as_array]. rewrite Harr, Hcopy, Halloc. reflexivity. }
  split; [exact Hnd|]. split.
  { intros Hin. apply Hranked.
    destruct (proj1 (list_elem_of_lookup ls ranked) Hin) as [i Hi].
    destruct (Forall2_lookup_l _ _ _ _ _ Hc Hi) as (v & _ & l0 & p & _ & _ & Hl).
    apply elem_of_dom. eauto. }
  split; [eapply Forall2_length; exact Hc|exact Hc].
Qed.

(** The entry at index [i] of the ranked list has rank [i + 1] and
    percentile [100 * (1 - i / n)], where [n] is the number of candidates:
    ranks count from 1 without gaps, the first percentile is 100 and every
    percentile lies in [(0, 100]]. *)
Theorem ranks_and_percentiles (h : heap) (candidates : loc) (vs : list value) :
  h !! candidates = Some (Arr vs) ->
  Forall (isCandidate h) vs ->
  exists (h' : heap) (ranked : value),
    rankCandidates ToNumber_other h (VRef candidates) = Some (h', ranked) /\
    length (elementsOf h' ranked) = length vs /\
    forall i entry, elementsOf h' ranked !! i = Some entry ->
      exists r p,
        propOf h' entry "rank" = VNum (Fin r) /\
        propOf h' entry "percentile" = VNum (Fin p) /\
        r == natQ i + 1 /\
        p == 100 * (1 - natQ i / natQ (length vs)) /\
        0 < p <= 100 /\ (i = 0%nat -> p == 100).
Proof.
  intros Harr Hvs.
  destruct (rankCandidates_run h candidates vs Harr Hvs)
    as (h1 & ls & ranked & Hrun & Hnd & Hrl & Hlen & Hcopies).
  cbv zeta in Hrun.
  set (h2 := <[ranked := Arr (VRef <$> ls)]> h1) in *.
  set (sorted := js_sort (compareCandidates ToNumber_other h2) ls) in *.
  set (h3 := <[ranked := Arr (VRef <$> sorted)]> h2) in *.
  set (h4 := fold_left (annotate (length sorted))
                       (zip (seq 0 (length sorted)) sorted) h3) in *.
  assert (Hperm : sorted ≡ₚ ls) by apply js_sort_perm.
  assert (Hslen : length sorted = length vs)
    by (now rewrite (Permutation_length Hperm)).
  assert (Hsnd : (zip (seq 0 (length sorted)) sorted).*2 = sorted)
    by apply zip_seq_snd.
  assert (Hrs : ranked ∉ sorted) by (now rewrite Hperm).
  assert (Harr4 : h4 !! ranked = Some (Arr (VRef <$> sorted))).
  { unfold h4. rewrite (proj1 (annotate_fold _ _ h3 ranked)) by (now rewrite Hsnd).
    unfold h3. apply lookup_insert_eq. }
  exists h4, (VRef ranked). split; [exact Hrun|].
  assert (Helems : elementsOf h4 (VRef ranked) = VRef <$> sorted).
  { unfold elementsOf, as_array. now rewrite Harr4. }
  rewrite Helems.
  split; [rewrite <- Hslen; apply length_fmap|].
  intros i entry Hentry. rewrite list_lookup_fmap in Hentry.
  destruct (sorted !! i) as [out|] eqn:Eout; [|discriminate].
  injection Hentry as <-.
  assert (Hout : out ∈ ls).
  { rewrite <- Hperm. eapply list_elem_of_lookup_2, Eout. }
  destruct (proj1 (list_elem_of_lookup ls out) Hout) as [j Hj].
  destruct (Forall2_lookup_l _ _ _ _ _ Hcopies Hj) as (v & _ & l0 & p0 & _ & _ & Hobj).
  assert (Hne : out <> ranked) by (intros ->; contradiction).
  assert (H3 : h3 !! out = Some (Obj (copyCandidate p0))).
  { unfold h3, h2. rewrite !lookup_insert_ne by congruence. exact Hobj. }
  assert (H4 : h4 !! out = Some (Obj
                 (<["rank"%string := VNum (Num.of_nat i + Fin 1)%num]>
                    (<["percentile"%string :=
                         VNum (Fin 100 * (Fin 1 - Num.of_nat i
                                                  / Num.of_nat (length sorted)))%num]>
                       (copyCandidate p0))))).
  { unfold h4. apply annotate_fold_exact; [|now apply zip_seq_lookup|exact H3].
    rewrite Hsnd, Hperm. exact Hnd. }
  assert (Hi : (i < length vs)%nat).
  { rewrite <- Hslen. eapply lookup_lt_Some, Eout. }
  assert (Hn : 0 < natQ (length vs)) by (apply natQ_pos; lia).
  assert (Hin : 0 <= natQ i < natQ (length vs)).
  { split; [apply natQ_nonneg|]. unfold natQ. rewrite <- Zlt_Qlt. lia. }
  assert (Hratio : 0 <= natQ i / natQ (length vs) < 1).
  { split; [apply Qle_shift_div_l; lra | apply Qlt_shift_div_r; lra]. }
  exists (natQ i + 1), (100 * (1 + - (natQ i / natQ (length vs)))).
  unfold propOf. rewrite H4. unfold getProp.
  rewrite lookup_insert_eq.
  rewrite lookup_insert_ne by discriminate. rewrite lookup_insert_eq.
  cbn [default]. rewrite Hslen.
  split; [reflexivity|]. split.
  { unfold Num.of_nat. fold (natQ i). fold (natQ (length vs)).
    rewrite div_Fin by lra. reflexivity. }
  split; [reflexivity|]. split; [lra|]. split; [lra|].
  intros ->. unfold natQ at 1. change (inject_Z (Z.of_nat 0)) with 0.
  unfold Qdiv. ring.
Qed.

Lemma StronglySorted_lookup {A : Type} (R : A -> A -> Prop) (l : list A)
    (i j : nat) (a b : A) :
  StronglySorted R l -> (i < j)%nat -> l !! i = Some a -> l !! j = Some b -> R a b.
Proof.
  intros Hs. revert i j. induction Hs as [|x l Hs IH Hall]; intros i j Hij Ha Hb.
  - discriminate Ha.
  - destruct j as [|j]; [lia|]. destruct i as [|i].
    + injection Ha as <-. cbn in Hb.
      apply (proj1 (Forall_forall _ _) Hall). eapply list_elem_of_lookup_2, Hb.
    + cbn in Ha, Hb. apply (IH i j); [lia|assumption|assumption].
Qed.

(** The score the comparator reads from the copy of a candidate whose
    [finalScore] is the finite number [s]. *)
Lemma copied_finalScore (hh : heap) (props : gmap string value) (s : Q) :
  getProp props "finalScore" = VNum (Fin s) ->
  exists s', getProp (copyCandidate props) "finalScore" = VNum (Fin s') /\ s' == s.
Proof.
  intros Hs. destruct (copyCandidate_lookup props) as (_ & Hfs & _).
  unfold getProp at 1. rewrite Hfs, Hs. cbn [default]. unfold orElse, truthy, Num.truthy.
  destruct (Qeq_bool s 0) eqn:E; cbn [negb].
  - exists 0. split; [reflexivity|]. apply Qeq_bool_iff in E. now rewrite E.
  - exists s. split; reflexivity.
Qed.

(** When the candidates have finite scores and any two of them differ by at
    least 0.05, so that the tie-break never applies, the ranked list is in
    strictly descending order of score. *)
Theorem ranking_descends_without_ties (h : heap) (candidates : loc)
    (vs : list value) :
  h !! candidates = Some (Arr vs) ->
  Forall (fun v => isCandidate h v /\ Num.finite (numberOf h v "finalScore")) vs ->
  (forall i j a b x y,
     i <> j -> vs !! i = Some a -> vs !! j = Some b ->
     numberOf h a "finalScore" = Fin x -> numberOf h b "finalScore" = Fin y ->
     (1#20) <= Qabs (x - y)) ->
  exists (h' : heap) (ranked : value),
    rankCandidates ToNumber_other h (VRef candidates) = Some (h', ranked) /\
    forall i j a b,
      (i < j)%nat ->
      elementsOf h' ranked !! i = Some a -> elementsOf h' ranked !! j = Some b ->
      exists x y,
        numberOf h' a "finalScore" = Fin x /\
        numberOf h' b "finalScore" = Fin y /\ y < x.
Proof.
  intros Harr Hvs Hgap.
  assert (Hcand : Forall (isCandidate h) vs).
  { eapply Forall_impl; [exact Hvs|]. cbn. tauto. }
  destruct (rankCandidates_run h candidates vs Harr Hcand)
    as (h1 & ls & ranked & Hrun & Hnd & Hrl & Hlen & Hcopies).
  cbv zeta in Hrun.
  set (h2 := <[ranked := Arr (VRef <$> ls)]> h1) in *.
  set (sorted := js_sort (compareCandidates ToNumber_other h2) ls) in *.
  set (h3 := <[ranked := Arr (VRef <$> sorted)]> h2) in *.
  set (h4 := fold_left (annotate (length sorted))
                       (zip (seq 0 (length sorted)) sorted) h3) in *.
  assert (Hperm : sorted ≡ₚ ls) by apply js_sort_perm.
  assert (Hsnd : (zip (seq 0 (length sorted)) sorted).*2 = sorted)
    by apply zip_seq_snd.
  assert (Hrs : ranked ∉ sorted) by (now rewrite Hperm).
  (* the score of each new entry, in the heap the comparator reads and in
     the final heap *)
  assert (Hscore : forall i out, ls !! i = Some out ->
            exists v s s',
              vs !! i = Some v /\ numberOf h v "finalScore" = Fin s /\ s' == s /\
              numProp ToNumber_other h2 out "finalScore" = Fin s' /\
              numberOf h4 (VRef out) "finalScore" = Fin s').
  { intros i out Hi.
    destruct (Forall2_lookup_l _ _ _ _ _ Hcopies Hi)
      as (v & Hv & l0 & p0 & -> & Hl0 & Hobj).
    pose proof (proj1 (Forall_forall _ _) Hvs (VRef l0)
                  (list_elem_of_lookup_2 _ _ _ Hv)) as [_ Hfin].
    unfold numberOf, propOf in Hfin. rewrite Hl0 in Hfin.
    destruct (getProp p0 "finalScore") as [| |?|[s| | |]|?|?] eqn:Eg;
      try contradiction.
    destruct (copied_finalScore h p0 s Eg) as (s' & Hs' & Hss).
    assert (Hout : out ∈ ls) by (eapply list_elem_of_lookup_2, Hi).
    assert (Hne : out <> ranked) by (intros ->; contradiction).
    exists (VRef l0), s, s'. split; [exact Hv|]. split.
    { unfold numberOf, propOf. now rewrite Hl0, Eg. }
    split; [exact Hss|]. split.
    - unfold numProp, h2. rewrite lookup_insert_ne by congruence.
      rewrite Hobj, Hs'. reflexivity.
    - assert (H3 : h3 !! out = Some (Obj (copyCandidate p0))).
      { unfold h3, h2. rewrite !lookup_insert_ne by congruence. exact Hobj. }
      destruct (proj2 (annotate_fold (length sorted)
                         (zip (seq 0 (length sorted)) sorted) h3 out) _ H3)
        as (c' & Hc' & Hann).
      destruct c' as [props'|es]; [|contradiction]. simpl in Hann.
      change (h4 !! out = Some (Obj props')) in Hc'.
      unfold numberOf, propOf. rewrite Hc'.
      unfold getProp in *. rewrite Hann by discriminate. now rewrite Hs'. }
  set (sc := fun l : loc => rationalOf (numProp ToNumber_other h2 l "finalScore")).
  assert (Hsc : forall out, out ∈ ls ->
            numProp ToNumber_other h2 out "finalScore" = Fin (sc out) /\
            numberOf h4 (VRef out) "finalScore" = Fin (sc out)).
  { intros out Hout. destruct (proj1 (list_elem_of_lookup ls out) Hout) as [i Hi].
    destruct (Hscore i out Hi) as (v & s & s' & _ & _ & _ & H2 & H4).
    unfold sc. rewrite H2. cbn [rationalOf]. split; [reflexivity|exact H4]. }
  assert (Hapart : forall a b, a ∈ ls -> b ∈ ls -> a <> b ->
            (1#20) <= Qabs (sc b + - sc a)).
  { intros a b Ha Hb Hab.
    destruct (proj1 (list_elem_of_lookup ls a) Ha) as [i Hi].
    destruct (proj1 (list_elem_of_lookup ls b) Hb) as [j Hj].
    destruct (Hscore i a Hi) as (va & sa & sa' & Hva & Hna & Hsa & H2a & _).
    destruct (Hscore j b Hj) as (vb & sb & sb' & Hvb & Hnb & Hsb & H2b & _).
    assert (Hij : j <> i) by (intros ->; congruence).
    pose proof (Hgap j i vb va sb sa Hij Hvb Hva Hnb Hna) as Hg.
    unfold sc. rewrite H2a, H2b. cbn [rationalOf].
    assert (Heq : sb' + - sa' == sb - sa) by lra. now rewrite Heq. }
  set (before := fun a b : loc => sc b <= sc a).
  assert (Hsorted : StronglySorted before sorted).
  { apply (js_sort_sorted (compareCandidates ToNumber_other h2)
             (fun l => l ∈ ls) before).
    - intros a b Ha Hb Hcmp. unfold before.
      destruct (decide (a = b)) as [->|Hab]; [lra|].
      unfold compareCandidates in Hcmp.
      rewrite (proj1 (Hsc a Ha)), (proj1 (Hsc b Hb)) in Hcmp.
      cbn [Num.sub Num.neg Num.add Num.abs] in Hcmp.
      rewrite (proj2 (ltb_Fin_false _ _) (Hapart a b Ha Hb Hab)) in Hcmp.
      apply ltb_Fin_false in Hcmp. lra.
    - intros a b Ha Hb Hcmp. unfold before.
      destruct (decide (a = b)) as [->|Hab]; [lra|].
      unfold compareCandidates in Hcmp.
      rewrite (proj1 (Hsc a Ha)), (proj1 (Hsc b Hb)) in Hcmp.
      cbn [Num.sub Num.neg Num.add Num.abs] in Hcmp.
      rewrite (proj2 (ltb_Fin_false _ _) (Hapart a b Ha Hb Hab)) in Hcmp.
      apply gtb_Fin in Hcmp. lra.
    - unfold before. intros x y z _ _ _ H1 H2. lra.
    - apply Forall_forall. auto. }
  assert (Harr4 : h4 !! ranked = Some (Arr (VRef <$> sorted))).
  { unfold h4. rewrite (proj1 (annotate_fold _ _ h3 ranked)) by (now rewrite Hsnd).
    unfold h3. apply lookup_insert_eq. }
  assert (Helems : elementsOf h4 (VRef ranked) = VRef <$> sorted).
  { unfold elementsOf, as_array. now rewrite Harr4. }
  exists h4, (VRef ranked). split; [exact Hrun|].
  rewrite Helems. intros i j a b Hij Ha Hb.
  rewrite list_lookup_fmap in Ha, Hb.
  destruct (sorted !! i) as [oa|] eqn:Ea; [|discriminate].
  destruct (sorted !! j) as [ob|] eqn:Eb; [|discriminate].
  injection Ha as <-. injection Hb as <-.
  assert (Hoa : oa ∈ ls) by (rewrite <- Hperm; eapply list_elem_of_lookup_2, Ea).
  assert (Hob : ob ∈ ls) by (rewrite <- Hperm; eapply list_elem_of_lookup_2, Eb).
  assert (Hneq : oa <> ob).
  { intros ->. assert (Hnds : NoDup sorted) by (now rewrite Hperm).
    pose proof (NoDup_lookup _ _ _ _ Hnds Ea Eb). lia. }
  pose proof (StronglySorted_lookup before sorted i j oa ob Hsorted Hij Ea Eb) as Hle.
  unfold before in Hle.
  pose proof (Hapart oa ob Hoa Hob Hneq) as Hg.
  exists (sc oa), (sc ob).
  split; [apply (Hsc oa Hoa)|]. split; [apply (Hsc ob Hob)|].
  destruct (Qlt_le_dec (sc ob) (sc oa)) as [Hlt|Hge]; [exact Hlt|].
  assert (Hz : sc ob + - sc oa == 0) by lra.
  rewrite Hz in Hg. change (Qabs 0) with 0 in Hg. lra.
Qed.

End RankerRun.

Lemma ranks_and_percentiles_witness :
  let h := ranking_scenario "finalScore" in
  h !! 0%nat = Some (Arr [VRef 1; VRef 2]) /\
  Forall (isCandidate h) [VRef 1; VRef 2] /\
  exists (h' : heap) (ranked : value),
    rankCandidates (fun _ _ => NaN) h (VRef 0) = Some (h', ranked) /\
    length (elementsOf h' ranked) = length [VRef 1; VRef 2] /\
    forall i entry, elementsOf h' ranked !! i = Some entry ->
      exists r p,
        propOf h' entry "rank" = VNum (Fin r) /\
        propOf h' entry "percentile" = VNum (Fin p) /\
        r == natQ i + 1 /\
        p == 100 * (1 - natQ i / natQ (length [VRef 1; VRef 2])) /\
        0 < p <= 100 /\ (i = 0%nat -> p == 100).
Proof.
  cbv zeta.
  assert (H0 : ranking_scenario "finalScore" !! 0%nat = Some (Arr [VRef 1; VRef 2]))
    by reflexivity.
  assert (Hc : Forall (isCandidate (ranking_scenario "finalScore")) [VRef 1; VRef 2]).
  { repeat constructor; eexists _, _; (split; [reflexivity|]); reflexivity. }
  split; [exact H0|]. split; [exact Hc|].
  exact (ranks_and_percentiles (fun _ _ => NaN)
           (ranking_scenario "finalScore") 0%nat [VRef 1; VRef 2] H0 Hc).
Defined.

Lemma ranking_descends_without_ties_witness :
  let h := spread_scenario in
  exists (h' : heap) (ranked : value),
    rankCandidates (fun _ _ => NaN) h (VRef 0) = Some (h', ranked) /\
    forall i j a b,
      (i < j)%nat ->
      elementsOf h' ranked !! i = Some a -> elementsOf h' ranked !! j = Some b ->
      exists x y,
        numberOf h' a "finalScore" = Fin x /\
        numberOf h' b "finalScore" = Fin y /\ y < x.
Proof.
  cbv zeta.
  apply (ranking_descends_without_ties (fun _ _ => NaN)
           spread_scenario 0%nat [VRef 1; VRef 2]).
  - reflexivity.
  - repeat constructor; try (eexists _, _; (split; [reflexivity|]); reflexivity);
      vm_compute; exact I.
  - intros i j a b x y Hij Ha Hb Hx Hy.
    destruct i as [|[|i]], j as [|[|j]]; try discriminate; try congruence;
      injection Ha as <-; injection Hb as <-;
      vm_compute in Hx; vm_compute in Hy;
      injection Hx as <-; injection Hy as <-; vm_compute; discriminate.
Defined.
